(** * Live-events aggregation server: a shallow embedding and its properties

    The definitions below follow the event server of the repository
    (the Express application with the [/api/shows] route): the weekday
    cutoff filter, the global sort, the query normalisation, the
    per-datasource fetch wrapper, the Ticketmaster segment merge, the
    construction of [start] and [genres] by the adapters and the iCal
    date-time parser; and, around them, the datasource previews, the
    look-ahead window, the ids of datasources and events, the list of
    datasources, one Ticketmaster segment request, the unfolding of
    iCal lines, the time of a DC Improv show, the in-memory cache of the
    Eventbrite proxy, the map game and the filter of the client's shows
    panel.  JavaScript values are modelled by the Rocq types
    the code uses them at: strings as [string], missing / [null] /
    [undefined] fields as [None], and numbers as a small type with
    [NaN] and the infinities. *)

From Stdlib Require Import ZArith QArith Qminmax Qround List String Ascii Bool Lia Lqa.
From Stdlib Require Import Permutation Sorted DecimalString.
Import ListNotations.

Open Scope Z_scope.

(** ** ECMAScript date arithmetic

    [Date.UTC], [getUTCDay] and [toISOString] are the platform functions
    the server calls; they are written out after ECMA-262 (sections
    "Day Number and Time within Day" to "Date.prototype.toISOString"). *)

Module JsDate.

Definition msPerDay : Z := 86400000.

Definition Day (t : Z) : Z := t / msPerDay.
Definition TimeWithinDay (t : Z) : Z := t mod msPerDay.

Definition InLeapYear (y : Z) : bool :=
  ((y mod 4 =? 0) && negb (y mod 100 =? 0)) || (y mod 400 =? 0).

Definition DayFromYear (y : Z) : Z :=
  365 * (y - 1970) + (y - 1969) / 4 - (y - 1901) / 100 + (y - 1601) / 400.

(** Days of the year before the first of month [mn] (0 = January). *)
Definition DaysBeforeMonth (leap : bool) (mn : Z) : Z :=
  let base :=
    match mn with
    | 0 => 0 | 1 => 31 | 2 => 59 | 3 => 90 | 4 => 120 | 5 => 151
    | 6 => 181 | 7 => 212 | 8 => 243 | 9 => 273 | 10 => 304 | _ => 334
    end in
  if leap && (2 <=? mn) then base + 1 else base.

Definition MakeDay (year month date : Z) : Z :=
  let ym := year + month / 12 in
  let mn := month mod 12 in
  DayFromYear ym + DaysBeforeMonth (InLeapYear ym) mn + date - 1.

Definition MakeTime (hour min sec ms : Z) : Z :=
  hour * 3600000 + min * 60000 + sec * 1000 + ms.

Definition MakeDate (day time : Z) : Z := day * msPerDay + time.

(** [TimeClip]: a time value outside +-8.64e15 ms is [NaN] ([None]). *)
Definition TimeClip (t : Z) : option Z :=
  if Z.abs t <=? 8640000000000000 then Some t else None.

Definition MakeFullYear (y : Z) : Z :=
  if (0 <=? y) && (y <=? 99) then 1900 + y else y.

(** [Date.UTC(year, month, date, hours, minutes, seconds)]. *)
Definition Date_UTC (year month date hours minutes seconds : Z) : option Z :=
  TimeClip (MakeDate (MakeDay (MakeFullYear year) month date)
                     (MakeTime hours minutes seconds 0)).

Definition WeekDay (t : Z) : Z := (Day t + 4) mod 7.

(** [new Date(tv).getUTCDay()]; [None] is [NaN]. *)
Definition getUTCDay (tv : option Z) : option Z := option_map WeekDay tv.

(** Calendar fields of a time value. *)
Record Fields := mkFields {
  f_year : Z; f_month : Z; f_day : Z;
  f_hour : Z; f_minute : Z; f_second : Z; f_ms : Z
}.

(** Year, month (1..12) and day of month of a day number: the inverse of
    [MakeDay] on the proleptic Gregorian calendar. *)
Definition civil_of_day (day : Z) : Z * Z * Z :=
  let z := day + 719468 in
  let era := z / 146097 in
  let doe := z - era * 146097 in
  let yoe := (doe - doe / 1460 + doe / 36524 - doe / 146096) / 365 in
  let doy := doe - (365 * yoe + yoe / 4 - yoe / 100) in
  let mp := (5 * doy + 2) / 153 in
  let d := doy - (153 * mp + 2) / 5 + 1 in
  let m := if mp <? 10 then mp + 3 else mp - 9 in
  let y := yoe + era * 400 + (if m <=? 2 then 1 else 0) in
  (y, m, d).

Definition fields_of_time (t : Z) : Fields :=
  let '(y, m, d) := civil_of_day (Day t) in
  let r := TimeWithinDay t in
  mkFields y m d (r / 3600000) ((r / 60000) mod 60) ((r / 1000) mod 60) (r mod 1000).

Definition digit_char (n : Z) : ascii := ascii_of_nat (Z.to_nat (48 + n mod 10)).

(** [n] written with exactly [w] decimal digits (zero padded). *)
Fixpoint pad (w : nat) (n : Z) : string :=
  match w with
  | O => EmptyString
  | S w' => (pad w' (n / 10) ++ String (digit_char n) EmptyString)%string
  end.

Definition year_string (y : Z) : string :=
  if (0 <=? y) && (y <=? 9999) then pad 4 y
  else if y <? 0 then ("-" ++ pad 6 (- y))%string
  else ("+" ++ pad 6 y)%string.

(** [new Date(t).toISOString()] for a valid time value. *)
Definition toISOString (t : Z) : string :=
  let f := fields_of_time t in
  (year_string (f_year f) ++ "-" ++ pad 2 (f_month f) ++ "-" ++ pad 2 (f_day f)
   ++ "T" ++ pad 2 (f_hour f) ++ ":" ++ pad 2 (f_minute f) ++ ":"
   ++ pad 2 (f_second f) ++ "." ++ pad 3 (f_ms f) ++ "Z")%string.

End JsDate.

(** ** Strings: white space, digits and the small matchers the regular
    expressions of the server compile to *)

Module JsString.

Definition code (c : ascii) : nat := nat_of_ascii c.

(** [\d] *)
Definition is_digit (c : ascii) : bool :=
  (48 <=? code c)%nat && (code c <=? 57)%nat.

Definition digit_val (c : ascii) : Z := Z.of_nat (code c) - 48.

(** White space and line terminators of [String.prototype.trim] among the
    code units below 256. *)
Definition is_space (c : ascii) : bool :=
  let n := code c in
  ((9 <=? n)%nat && (n <=? 13)%nat) || (n =? 32)%nat || (n =? 160)%nat.

Fixpoint trim_start (s : string) : string :=
  match s with
  | EmptyString => EmptyString
  | String c r => if is_space c then trim_start r else s
  end.

Fixpoint trim_end (s : string) : string :=
  match s with
  | EmptyString => EmptyString
  | String c r =>
      match trim_end r with
      | EmptyString => if is_space c then EmptyString else String c EmptyString
      | r' => String c r'
      end
  end.

Definition trim (s : string) : string := trim_end (trim_start s).

Definition non_empty (s : string) : bool :=
  match s with EmptyString => false | _ => true end.

(** Exactly [n] digits at the head of [s]: their decimal value (what
    [Number] returns on the captured group) and the rest of [s]. *)
Fixpoint digits_from (n : nat) (acc : Z) (s : string) : option (Z * string) :=
  match n with
  | O => Some (acc, s)
  | S n' =>
      match s with
      | String c r =>
          if is_digit c then digits_from n' (10 * acc + digit_val c) r else None
      | EmptyString => None
      end
  end.

Definition digits (n : nat) (s : string) : option (Z * string) := digits_from n 0 s.

(** One given character at the head of [s]. *)
Definition expect (c : ascii) (s : string) : option string :=
  match s with
  | String c' r => if Ascii.eqb c c' then Some r else None
  | EmptyString => None
  end.

(** [toLowerCase] on the code units below 256: A-Z and the Latin-1
    capitals (all of 192..222 but the multiplication sign 215). *)
Definition lower_char (c : ascii) : ascii :=
  let n := code c in
  if ((65 <=? n)%nat && (n <=? 90)%nat)
     || ((192 <=? n)%nat && (n <=? 222)%nat && negb (n =? 215)%nat)
  then ascii_of_nat (n + 32) else c.

Fixpoint toLowerCase (s : string) : string :=
  match s with
  | EmptyString => EmptyString
  | String c r => String (lower_char c) (toLowerCase r)
  end.

End JsString.

Import JsString.

(** ** Numbers

    A JavaScript number is a finite value, an infinity or [NaN].  Finite
    doubles are rationals; the server only compares them, takes
    [Math.min] / [Math.max] and looks at the sign of a difference, all of
    which are exact on the rational values. *)

Inductive num : Type :=
| Fin (q : Q)
| PInf
| NInf
| NaN.

(** [Number.isFinite] *)
Definition isFinite (n : num) : bool :=
  match n with Fin _ => true | _ => false end.

(** The sign of [a - b], as [Array.prototype.sort] reads a comparator's
    result: [Lt] negative, [Gt] positive, [Eq] zero or [NaN]. *)
Definition sub_sign (a b : num) : comparison :=
  match a, b with
  | NaN, _ | _, NaN => Eq
  | Fin x, Fin y => (x ?= y)%Q
  | Fin _, PInf => Lt
  | Fin _, NInf => Gt
  | PInf, PInf => Eq
  | PInf, _ => Gt
  | NInf, NInf => Eq
  | NInf, _ => Lt
  end.

(** [a !== b] on numbers. *)
Definition num_neq (a b : num) : bool :=
  match a, b with
  | Fin x, Fin y => negb (Qeq_bool x y)
  | PInf, PInf | NInf, NInf => false
  | _, _ => true
  end.

(** ** The platform

    Functions of the JavaScript runtime whose results the server only
    passes on.  [Date_parse] is [Date.parse] (a time value in
    milliseconds, [None] for [NaN]); [parseFloat] and [toNumber] are
    [Number.parseFloat] and [Number] on a string; [roundTo d x] is the
    double computed by [Math.round(x * 10^d) / 10^d]; [wallClock zone t]
    is what [Intl.DateTimeFormat('en-US', {timeZone: zone, ...})
    .formatToParts] reports for the instant [t], [None] when the
    constructor throws (an unknown zone). *)

Class Platform : Type := {
  Date_parse : string -> option Z;
  parseFloat : string -> num;
  toNumber : string -> num;
  roundTo : Z -> Q -> num;
  wallClock : string -> Z -> option JsDate.Fields
}.

(** ** Canonical events

    The fields the functions below read or write; [venue], [summary],
    [images] and the provider's extension bag travel with an event
    untouched. *)

Record EventStart : Type := mkStart {
  st_local : option string;
  st_utc : option string
}.

Record Event : Type := mkEvent {
  ev_id : option string;
  ev_name : string;
  ev_start : option EventStart;
  ev_url : string;
  ev_segment : option string;
  ev_distance : option Q;
  ev_source : option string;
  ev_genres : list string
}.

(** A string field that is present and not empty (JavaScript truthiness
    of a string-or-missing value). *)
Definition truthy (v : option string) : bool :=
  match v with Some s => non_empty s | None => false end.

(** ** Weekday cutoff *)

Definition WEEKDAY_CUTOFF_HOUR : Z := 16.
Definition WEEKDAY_CUTOFF_MINUTE : Z := 30.

Definition getEventStartValue (event : Event) : string :=
  match ev_start event with
  | Some st =>
      match st_local st with
      | Some l =>
          if non_empty (trim l) then l
          else match st_utc st with
               | Some u => if non_empty (trim u) then u else EmptyString
               | None => EmptyString
               end
      | None =>
          match st_utc st with
          | Some u => if non_empty (trim u) then u else EmptyString
          | None => EmptyString
          end
      end
  | None => EmptyString
  end.

Record LocalParts : Type := mkParts {
  p_year : Z; p_month : Z; p_day : Z;
  p_hour : option Z; p_minute : option Z
}.

(** The optional group [(?:[Tt ](\d{2}):(\d{2}))?] at the head of [s]. *)
Definition match_time_group (s : string) : option (Z * Z) :=
  match s with
  | String c r =>
      if Ascii.eqb c "T" || Ascii.eqb c "t" || Ascii.eqb c " " then
        match digits 2 r with
        | Some (h, r1) =>
            match expect ":" r1 with
            | Some r2 =>
                match digits 2 r2 with
                | Some (mi, _) => Some (h, mi)
                | None => None
                end
            | None => None
            end
        | None => None
        end
      else None
  | EmptyString => None
  end.

(** [/(\d{4})-(\d{2})-(\d{2})(?:[Tt ](\d{2}):(\d{2}))?/] anchored at the
    head of [s]. *)
Definition match_local_at (s : string) : option LocalParts :=
  match digits 4 s with
  | Some (y, s1) =>
      match expect "-" s1 with
      | Some s2 =>
          match digits 2 s2 with
          | Some (m, s3) =>
              match expect "-" s3 with
              | Some s4 =>
                  match digits 2 s4 with
                  | Some (d, s5) =>
                      match match_time_group s5 with
                      | Some (h, mi) => Some (mkParts y m d (Some h) (Some mi))
                      | None => Some (mkParts y m d None None)
                      end
                  | None => None
                  end
              | None => None
              end
          | None => None
          end
      | None => None
      end
  | None => None
  end.

(** [value.match(...)]: the leftmost position where the pattern matches. *)
Fixpoint match_local (s : string) : option LocalParts :=
  match match_local_at s with
  | Some p => Some p
  | None =>
      match s with
      | String _ r => match_local r
      | EmptyString => None
      end
  end.

Definition parseEventLocalParts (value : string) : option LocalParts :=
  if non_empty value then match_local value else None.

Definition isWeekdayBeforeCutoff (event : Event) : bool :=
  if truthy (ev_source event)
     && negb (String.eqb (match ev_source event with Some s => s | None => EmptyString end)
                         "ticketmaster")
  then false
  else
    let raw := getEventStartValue event in
    if negb (non_empty raw) then false
    else
      match parseEventLocalParts raw with
      | None => false
      | Some parts =>
          match JsDate.getUTCDay
                  (JsDate.Date_UTC (p_year parts) (p_month parts - 1) (p_day parts) 0 0 0) with
          | None => false
          | Some weekday =>
              if negb ((1 <=? weekday) && (weekday <=? 5)) then false
              else
                match p_hour parts, p_minute parts with
                | Some hour, Some minute =>
                    if hour <? WEEKDAY_CUTOFF_HOUR then true
                    else if (hour =? WEEKDAY_CUTOFF_HOUR) && (minute <? WEEKDAY_CUTOFF_MINUTE)
                         then true
                         else false
                | _, _ => false
                end
          end
      end.

Definition applyWeekdayCutoff (events : list Event) : list Event :=
  filter (fun event => negb (isWeekdayBeforeCutoff event)) events.

(** ** Sorting *)

(** [Array.prototype.sort] with a comparator: the sort is stable
    (ECMA-262 since ES2019), so on a consistent comparator its result is
    the one of this insertion sort.  The comparator's value is read by
    its sign. *)
Section Sort.
Context {A : Type} (cmp : A -> A -> comparison).

Fixpoint insert_sorted (x : A) (l : list A) : list A :=
  match l with
  | [] => [x]
  | y :: r =>
      match cmp x y with
      | Gt => y :: insert_sorted x r
      | _ => x :: l
      end
  end.

Fixpoint js_sort (l : list A) : list A :=
  match l with
  | [] => []
  | x :: r => insert_sorted x (js_sort r)
  end.
End Sort.

Section Sorting.
Context {P : Platform}.

(** [a.start && a.start.utc ? Date.parse(a.start.utc)
      : (a.start && a.start.local ? Date.parse(a.start.local) : Infinity)] *)
Definition parseTime (s : string) : num :=
  match Date_parse s with
  | Some t => Fin (inject_Z t)
  | None => NaN
  end.

Definition eventTime (a : Event) : num :=
  match ev_start a with
  | Some st =>
      if truthy (st_utc st) then
        match st_utc st with Some u => parseTime u | None => PInf end
      else if truthy (st_local st) then
        match st_local st with Some l => parseTime l | None => PInf end
      else PInf
  | None => PInf
  end.

(** [Number.isFinite(a.distance) ? a.distance : Infinity] *)
Definition eventDistance (a : Event) : num :=
  match ev_distance a with Some d => Fin d | None => PInf end.

Definition compareEvents (a b : Event) : comparison :=
  let aTime := eventTime a in
  let bTime := eventTime b in
  let byDistance := sub_sign (eventDistance a) (eventDistance b) in
  if isFinite aTime && isFinite bTime then
    if num_neq aTime bTime then sub_sign aTime bTime else byDistance
  else if isFinite aTime then Lt
  else if isFinite bTime then Gt
  else byDistance.

Definition sortEventsByTimeAndDistance (events : list Event) : list Event :=
  js_sort compareEvents events.
End Sorting.

(** ** Results of fallible code

    A call either returns or throws; [Threw] carries the thrown [Error]
    with the fields the server sets on it and reads from it. *)

Record Segment : Type := mkSegment {
  seg_key : string;
  seg_description : string
}.

Definition TICKETMASTER_SEGMENTS : list Segment :=
  [ mkSegment "music" "Live music"; mkSegment "comedy" "Comedy" ].

Record SegmentSummary : Type := mkSegmentSummary {
  ss_key : string;
  ss_description : string;
  ss_ok : bool;
  ss_status : option Z;
  ss_total : option nat;
  ss_error : option string
}.

Record JsError : Type := mkError {
  err_message : string;
  err_status : option Z;
  err_code : option string;
  err_segments : list SegmentSummary
}.

Inductive Outcome (A : Type) : Type :=
| Returned (a : A)
| Threw (e : JsError).

Arguments Returned {A} a.
Arguments Threw {A} e.

(** [value || fallback] on strings. *)
Definition or_else (v : string) (fallback : string) : string :=
  if non_empty v then v else fallback.

(** ** Query normalisation *)

Definition TICKETMASTER_MAX_RADIUS_MILES : Q := 150.
Definition TICKETMASTER_DEFAULT_RADIUS : Q := 50.
Definition TICKETMASTER_DEFAULT_DAYS : Z := 14.

(** The longest run of digits at the head of [s], with its value. *)
Fixpoint digit_run (acc : Z) (s : string) : Z :=
  match s with
  | String c r => if is_digit c then digit_run (10 * acc + digit_val c) r else acc
  | EmptyString => acc
  end.

Definition starts_with_digit (s : string) : bool :=
  match s with String c _ => is_digit c | EmptyString => false end.

(** Magnitudes from [2^1024 - 2^970] on round to an infinity. *)
Definition double_overflow : Z := 2 ^ 1024 - 2 ^ 970.

(** [Number.parseInt(value, 10)] on a string: leading white space, an
    optional sign, then the longest run of digits; [NaN] without a digit.
    A finite result is the double nearest to the integer read; rounding
    is monotone and fixes the small integers the callers clamp to, so the
    integer itself stands for it. *)
Definition parseInt10 (value : string) : num :=
  let s := trim_start value in
  let '(negative, body) :=
    match s with
    | String "-" r => (true, r)
    | String "+" r => (false, r)
    | _ => (false, s)
    end in
  if starts_with_digit body then
    let v := digit_run 0 body in
    if double_overflow <=? v then (if negative then NInf else PInf)
    else Fin (inject_Z (if negative then - v else v))
  else NaN.

(** [Math.min(Math.max(num, 1), 31)] on the integer read by [parseInt10]. *)
Definition clampDays (value : option string) : Z :=
  match value with
  | None => TICKETMASTER_DEFAULT_DAYS
  | Some s =>
      if negb (non_empty s) then TICKETMASTER_DEFAULT_DAYS
      else
        match parseInt10 s with
        | Fin q => Z.min (Z.max (Qfloor q) 1) 31
        | _ => TICKETMASTER_DEFAULT_DAYS
        end
  end.

Section QueryNumbers.
Context {P : Platform}.

Definition parseNumberQuery (value : option string) : option Q :=
  match value with
  | None => None
  | Some s =>
      if negb (non_empty s) then None
      else match toNumber s with
           | Fin q => Some q
           | _ => None
           end
  end.

(** [Number.parseFloat(undefined)] is [NaN]. *)
Definition normalizeCoordinate (value : option string) (digits : Z) : option num :=
  match value with
  | None => None
  | Some s =>
      match parseFloat s with
      | Fin q => Some (roundTo (Z.max 0 digits) q)
      | _ => None
      end
  end.

(** [Number.isFinite] on the result of [normalizeCoordinate]. *)
Definition finite_coordinate (c : option num) : option Q :=
  match c with
  | Some (Fin q) => Some q
  | _ => None
  end.

Definition normalizeRadius (value : option string) : Q :=
  match parseNumberQuery value with
  | Some parsedRadius =>
      if Qlt_le_dec 0 parsedRadius
      then Qmin (Qmax parsedRadius 1) TICKETMASTER_MAX_RADIUS_MILES
      else TICKETMASTER_DEFAULT_RADIUS
  | None => TICKETMASTER_DEFAULT_RADIUS
  end.

(** [clampDays(req.query.days) || TICKETMASTER_DEFAULT_DAYS] *)
Definition normalizeDays (value : option string) : Z :=
  let d := clampDays value in
  if d =? 0 then TICKETMASTER_DEFAULT_DAYS else d.
End QueryNumbers.

(** ** Ticketmaster adapter: merging the segments *)

(** What [fetchTicketmasterSegment] resolves to. *)
Record SegmentResult : Type := mkSegmentResult {
  sr_events : list Event;
  sr_status : Z
}.

(** One entry of [segmentResults]: the segment's result, or the
    [{ error, segment }] object its [catch] builds. *)
Definition SegmentOutcome : Type := (Segment * Outcome SegmentResult)%type.

(** The [Map] named [combined]: keys in insertion order. *)
Definition EventMap : Type := list (string * Event).

Fixpoint map_has (key : string) (m : EventMap) : bool :=
  match m with
  | [] => false
  | (k, _) :: r => String.eqb key k || map_has key r
  end.

Definition map_set_new (key : string) (event : Event) (m : EventMap) : EventMap :=
  m ++ [(key, event)].

(** The inner loop over [result.events]. *)
Fixpoint addEvents (events : list Event) (combined : EventMap) : EventMap :=
  match events with
  | [] => combined
  | event :: rest =>
      match ev_id event with
      | None => addEvents rest combined
      | Some key =>
          if map_has key combined then addEvents rest combined
          else addEvents rest (map_set_new key event combined)
      end
  end.

Record MergeState : Type := mkMergeState {
  ms_combined : EventMap;
  ms_summaries : list SegmentSummary;
  ms_successful : bool
}.

Definition mergeStep (st : MergeState) (result : SegmentOutcome) : MergeState :=
  match result with
  | (segment, Threw error) =>
      mkMergeState
        (ms_combined st)
        (ms_summaries st ++
           [ mkSegmentSummary (seg_key segment) (seg_description segment) false
               (err_status error) None
               (Some (or_else (err_message error) "Request failed")) ])
        (ms_successful st)
  | (segment, Returned r) =>
      mkMergeState
        (addEvents (sr_events r) (ms_combined st))
        (ms_summaries st ++
           [ mkSegmentSummary (seg_key segment) (seg_description segment) true
               (Some (sr_status r)) (Some (List.length (sr_events r))) None ])
        true
  end.

Definition mergeSegments (segmentResults : list SegmentOutcome) : MergeState :=
  fold_left mergeStep segmentResults (mkMergeState [] [] false).

Record TmPayload : Type := mkTmPayload {
  tp_source : string;
  tp_generatedAt : string;
  tp_cached : bool;
  tp_radiusMiles : Q;
  tp_lookaheadDays : Z;
  tp_events : list Event;
  tp_segments : list SegmentSummary
}.

(** What a call of [fetchTicketmasterEvents] meets outside the process:
    the configured key, the parsed cache entry when one is fresh, the
    clock, and how each segment request ends. *)
Record TmWorld : Type := mkTmWorld {
  tm_api_key : string;
  tm_cached : option TmPayload;
  tm_now : Z;
  tm_fetch_segment : Segment -> Outcome SegmentResult
}.

Record TmFetched : Type := mkTmFetched {
  tf_payload : TmPayload;
  tf_cached : bool
}.

Definition fetchTicketmasterEvents (w : TmWorld) (radiusMiles : Q) (lookaheadDays : Z)
    (segments : list Segment) (allowCache : bool) : Outcome TmFetched :=
  if negb (non_empty (tm_api_key w)) then
    Threw (mkError "Ticketmaster API key missing" (Some 500)
                   (Some "ticketmaster_api_key_missing"%string) [])
  else
    let resolvedSegments :=
      match segments with [] => TICKETMASTER_SEGMENTS | _ => segments end in
    let resolvedRadius :=
      if Qlt_le_dec 0 radiusMiles
      then Qmin (Qmax radiusMiles 1) TICKETMASTER_MAX_RADIUS_MILES
      else TICKETMASTER_DEFAULT_RADIUS in
    let resolvedDays := Z.min (Z.max lookaheadDays 1) 31 in
    match (if allowCache then tm_cached w else None) with
    | Some parsed =>
        Returned (mkTmFetched
          (mkTmPayload (tp_source parsed) (tp_generatedAt parsed) true
             (tp_radiusMiles parsed) (tp_lookaheadDays parsed)
             (tp_events parsed) (tp_segments parsed))
          true)
    | None =>
        let segmentResults :=
          map (fun segment => (segment, tm_fetch_segment w segment)) resolvedSegments in
        let st := mergeSegments segmentResults in
        if negb (ms_successful st) then
          Threw (mkError "Ticketmaster fetch failed" (Some 502)
                         (Some "ticketmaster_fetch_failed"%string) (ms_summaries st))
        else
          Returned (mkTmFetched
            (mkTmPayload "ticketmaster" (JsDate.toISOString (tm_now w)) false
               resolvedRadius resolvedDays
               (map snd (ms_combined st)) (ms_summaries st))
            false)
    end.

(** ** Datasources and the fetch wrapper *)

Record Source : Type := mkSource {
  src_id : string;
  src_name : string;
  src_type : string;
  src_enabled : bool;
  src_segments : list Segment
}.

Record Context : Type := mkContext {
  ctx_latitude : Q;
  ctx_longitude : Q;
  ctx_radiusMiles : Q;
  ctx_lookaheadDays : Z
}.

(** What a handler's [fetch] resolves to; [hr_events] is [None] when the
    field is not an array. *)
Record HandlerResult : Type := mkHandlerResult {
  hr_events : option (list Event);
  hr_cached : bool;
  hr_segments : list SegmentSummary
}.

Definition Handler : Type := Source -> Context -> Outcome HandlerResult.

(** The world of one request: the Ticketmaster side, the [fetch] of every
    other handler of [DATASOURCE_HANDLERS] (each ends in a network call),
    and the clock. *)
Record World : Type := mkWorld {
  w_ticketmaster : TmWorld;
  w_handlers : string -> option Handler;
  w_now : Z
}.

Definition ticketmasterHandler (tw : TmWorld) : Handler :=
  fun source context =>
    match fetchTicketmasterEvents tw (ctx_radiusMiles context) (ctx_lookaheadDays context)
            (src_segments source) true with
    | Threw e => Threw e
    | Returned result =>
        let allEvents := tp_events (tf_payload result) in
        Returned (mkHandlerResult (Some (applyWeekdayCutoff allEvents))
                    (tf_cached result) (tp_segments (tf_payload result)))
    end.

Definition DATASOURCE_HANDLERS (w : World) (type : string) : option Handler :=
  if String.eqb type "ticketmaster" then Some (ticketmasterHandler (w_ticketmaster w))
  else w_handlers w type.

Record SourceSummary : Type := mkSummary {
  sm_id : string;
  sm_name : string;
  sm_type : string;
  sm_ok : bool;
  sm_total : option nat;
  sm_status : option Z;
  sm_error : option string
}.

Record RunResult : Type := mkRun {
  rr_source : Source;
  rr_ok : bool;
  rr_events : list Event;
  rr_segments : list SegmentSummary;
  rr_cached : bool;
  rr_summary : SourceSummary;
  rr_error : option JsError
}.

Definition runDatasourceFetch (w : World) (source : Source) (context : Context) : RunResult :=
  match DATASOURCE_HANDLERS w (src_type source) with
  | None =>
      mkRun source false [] [] false
        (mkSummary (src_id source) (src_name source) (src_type source) false None None
           (Some "unsupported_source_type"%string))
        None
  | Some handler =>
      match handler source context with
      | Returned result =>
          let events := match hr_events result with Some l => l | None => [] end in
          mkRun source true events (hr_segments result) (hr_cached result)
            (mkSummary (src_id source) (src_name source) (src_type source) true
               (Some (List.length events)) None None)
            None
      | Threw err =>
          mkRun source false [] [] false
            (mkSummary (src_id source) (src_name source) (src_type source) false None
               (err_status err) (Some (or_else (err_message err) "Request failed")))
            (Some err)
      end
  end.

(** ** The [/api/shows] route *)

Record Query : Type := mkQuery {
  q_lat : option string;
  q_latitude : option string;
  q_lon : option string;
  q_longitude : option string;
  q_radius : option string;
  q_days : option string
}.

Record Payload : Type := mkPayload {
  pl_source : string;
  pl_generatedAt : string;
  pl_cached : bool;
  pl_radiusMiles : Q;
  pl_lookaheadDays : Z;
  pl_events : list Event;
  pl_sources : list SourceSummary;
  pl_segments : option (list SegmentSummary)
}.

Inductive Body : Type :=
| ErrorBody (error : string) (sources : option (list SourceSummary))
| ShowsBody (payload : Payload).

Record Response : Type := mkResponse {
  status : Z;
  body : Body
}.

(** The variables the [results.forEach] loop updates. *)
Record Collected : Type := mkCollected {
  c_events : list Event;
  c_sourceSummaries : list SourceSummary;
  c_anySuccess : bool;
  c_segments : option (list SegmentSummary);
  c_cached : bool
}.

Definition collectStep (st : Collected) (result : RunResult) : Collected :=
  let summaries := c_sourceSummaries st ++ [rr_summary result] in
  if rr_ok result then
    mkCollected
      (c_events st ++ rr_events result)
      summaries
      true
      (match c_segments st, rr_segments result with
       | None, _ :: _ => Some (rr_segments result)
       | current, _ => current
       end)
      (c_cached st && rr_cached result)
  else
    mkCollected (c_events st) summaries (c_anySuccess st) (c_segments st) false.

Definition collect (results : list RunResult) : Collected :=
  fold_left collectStep results (mkCollected [] [] false None true).

Definition has_missing_key (result : RunResult) : bool :=
  match rr_error result with
  | Some e =>
      match err_code e with
      | Some c => String.eqb c "ticketmaster_api_key_missing"
      | None => false
      end
  | None => false
  end.

(** [a ?? b] *)
Definition nullish_or (a b : option string) : option string :=
  match a with Some _ => a | None => b end.

Section Route.
Context {P : Platform}.

Definition api_shows (w : World) (sources : list Source) (query : Query) : Response :=
  let rawLat := nullish_or (q_lat query) (q_latitude query) in
  let rawLon := nullish_or (q_lon query) (q_longitude query) in
  match finite_coordinate (normalizeCoordinate rawLat 4),
        finite_coordinate (normalizeCoordinate rawLon 4) with
  | Some latitude, Some longitude =>
      let radiusMiles := normalizeRadius (q_radius query) in
      let lookaheadDays := normalizeDays (q_days query) in
      let enabledSources := filter src_enabled sources in
      match enabledSources with
      | [] => mkResponse 500 (ErrorBody "no_enabled_sources" None)
      | first :: others =>
          let context := mkContext latitude longitude radiusMiles lookaheadDays in
          let results :=
            map (fun source => runDatasourceFetch w source context) enabledSources in
          let st := collect results in
          if negb (c_anySuccess st) then
            if existsb has_missing_key results then
              mkResponse 500
                (ErrorBody "ticketmaster_api_key_missing" (Some (c_sourceSummaries st)))
            else
              mkResponse 502
                (ErrorBody "datasource_fetch_failed" (Some (c_sourceSummaries st)))
          else
            mkResponse 200
              (ShowsBody
                 (mkPayload
                    (match others with [] => src_id first | _ => "mixed"%string end)
                    (JsDate.toISOString (w_now w))
                    (c_cached st)
                    radiusMiles
                    lookaheadDays
                    (sortEventsByTimeAndDistance (applyWeekdayCutoff (c_events st)))
                    (c_sourceSummaries st)
                    (c_segments st)))
      end
  | _, _ => mkResponse 400 (ErrorBody "missing_coordinates" None)
  end.
End Route.

(** ** Ticketmaster adapter: formatting one event *)

Record TmDatesStart : Type := mkDatesStart {
  ds_dateTime : option string;
  ds_localDate : option string;
  ds_localTime : option string
}.

(** The [name] of each level of one classification, [None] where the
    level or its name is missing or not a string. *)
Record Classification : Type := mkClassification {
  cls_segment : option string;
  cls_genre : option string;
  cls_subGenre : option string;
  cls_type : option string;
  cls_subType : option string
}.

Record TmRaw : Type := mkTmRaw {
  raw_id : option string;
  raw_name : string;
  raw_start : option TmDatesStart;
  raw_url : string;
  raw_distance : option Q;
  raw_classifications : option (list Classification)
}.

(** [Set.prototype.add] on a set kept in insertion order. *)
Definition set_add (x : string) (s : list string) : list string :=
  if existsb (String.eqb x) s then s else s ++ [x].

Definition classificationNames (cls : Classification) : list string :=
  filter non_empty
    (map (fun name => match name with Some n => trim n | None => EmptyString end)
       [cls_segment cls; cls_genre cls; cls_subGenre cls; cls_type cls; cls_subType cls]).

Definition classificationNameSet (classifications : option (list Classification))
  : list string :=
  match classifications with
  | Some l =>
      fold_left (fun set cls => fold_left (fun set' name => set_add name set')
                                          (classificationNames cls) set)
                l []
  | None => []
  end.

Section Formatting.
Context {P : Platform}.

Definition tmLocalDateTime (start : TmDatesStart) : option string :=
  if truthy (ds_dateTime start) then ds_dateTime start
  else
    match ds_localDate start with
    | Some localDate =>
        if non_empty localDate then
          Some (localDate ++
                  (match ds_localTime start with
                   | Some localTime =>
                       if non_empty localTime then "T" ++ localTime else "T00:00:00"
                   | None => "T00:00:00"
                   end))%string
        else None
    | None => None
    end.

Definition formatTicketmasterEvent (event : TmRaw) (segmentKey : string)
  : Outcome (option Event) :=
  match raw_id event with
  | None => Returned None
  | Some id =>
      let start :=
        match raw_start event with
        | Some st => st
        | None => mkDatesStart None None None
        end in
      let localIso :=
        match tmLocalDateTime start with
        | Some localDateTime =>
            match Date_parse localDateTime with
            | Some t => Some (JsDate.toISOString t)
            | None => None
            end
        | None => None
        end in
      let finish (utcIso : option string) :=
        Returned (Some (mkEvent (Some id) (raw_name event)
                          (Some (mkStart localIso utcIso))
                          (raw_url event)
                          (if non_empty segmentKey then Some segmentKey else None)
                          (raw_distance event)
                          (Some "ticketmaster"%string)
                          (classificationNameSet (raw_classifications event)))) in
      if truthy (ds_dateTime start) then
        match ds_dateTime start with
        | Some dateTime =>
            match Date_parse dateTime with
            | Some t => finish (Some (JsDate.toISOString t))
            | None => Threw (mkError "Invalid time value" None None [])
            end
        | None => finish None
        end
      else finish None
  end.
End Formatting.

(** ** Ticketmaster adapter: one segment request *)

(** What the request of one segment came back with: [response.ok],
    [response.status], the body text, and the [_embedded.events] of the
    parsed body ([[]] when the body is empty or holds no such array),
    [None] when the text is not JSON. *)
Record TmResponse : Type := mkTmResponse {
  tr_ok : bool;
  tr_status : Z;
  tr_text : string;
  tr_events : option (list TmRaw)
}.

(** [String(n)] on an integer. *)
Definition number_string (n : Z) : string := NilZero.string_of_int (Z.to_int n).

Section SegmentRequest.
Context {P : Platform}.

(** [events.map(event => formatTicketmasterEvent(event, segment.key)).filter(Boolean)]:
    the first event whose formatting throws ends the call. *)
Fixpoint formatAll (events : list TmRaw) (segmentKey : string) : Outcome (list Event) :=
  match events with
  | [] => Returned []
  | event :: rest =>
      match formatTicketmasterEvent event segmentKey with
      | Threw e => Threw e
      | Returned formatted =>
          match formatAll rest segmentKey with
          | Threw e => Threw e
          | Returned others =>
              Returned (match formatted with
                        | Some f => f :: others
                        | None => others
                        end)
          end
      end
  end.

Definition fetchTicketmasterSegment (response : TmResponse) (segment : Segment)
  : Outcome SegmentResult :=
  if negb (tr_ok response) then
    Threw (mkError
             (or_else (tr_text response)
                ("Ticketmaster request failed: " ++ number_string (tr_status response)))
             (Some (tr_status response)) None [])
  else
    match tr_events response with
    | None =>
        Threw (mkError "Ticketmaster response was not valid JSON"
                 (Some (tr_status response)) None [])
    | Some events =>
        match formatAll events (seg_key segment) with
        | Threw e => Threw e
        | Returned formatted => Returned (mkSegmentResult formatted (tr_status response))
        end
    end.
End SegmentRequest.


(** ** Feed adapters: [start] and [genres] of an item *)



Definition is_word_char (c : ascii) : bool :=
  let n := code c in
  is_digit c || ((65 <=? n)%nat && (n <=? 90)%nat)
  || ((97 <=? n)%nat && (n <=? 122)%nat) || (n =? 95)%nat.

Definition is_date_sep (c : ascii) : bool := Ascii.eqb c "/" || Ascii.eqb c "-".

Definition expect_sep (s : string) : option string :=
  match s with
  | String c r => if is_date_sep c then Some r else None
  | EmptyString => None
  end.

(** [\d{4}[\/-]\d{2}[\/-]\d{2}\b] at the head of [s]. *)
Definition date_like_at (s : string) : bool :=
  match digits 4 s with
  | Some (_, s1) =>
      match expect_sep s1 with
      | Some s2 =>
          match digits 2 s2 with
          | Some (_, s3) =>
              match expect_sep s3 with
              | Some s4 =>
                  match digits 2 s4 with
                  | Some (_, String c _) => negb (is_word_char c)
                  | Some (_, EmptyString) => true
                  | None => false
                  end
              | None => false
              end
          | None => false
          end
      | None => false
      end
  | None => false
  end.

(** The search for [/\b\d{4}[\/-]\d{2}[\/-]\d{2}\b/]; [prev_word] tells
    whether the character before the position is a word character. *)
Fixpoint date_like_from (prev_word : bool) (s : string) : bool :=
  (negb prev_word && date_like_at s)
  || match s with
     | String c r => date_like_from (is_word_char c) r
     | EmptyString => false
     end.

Definition isCategoryDateLike (value : string) : bool :=
  non_empty value && date_like_from false value.

(** [genres] of [parseRssEventItem], from the items of the [Categories]
    detail of the description (read for the Smithsonian feed only) and
    the cleaned, non-empty [category] texts of the item. *)
Definition rssGenres (sourceId : string) (parsedCategories categoryTags : list string)
  : list string :=
  let descriptionCategories :=
    if String.eqb sourceId "smithsonian" then parsedCategories else [] in
  let categoriesForGenres :=
    match descriptionCategories with
    | [] => categoryTags
    | _ => descriptionCategories
    end in
  let genres := filter (fun category => negb (isCategoryDateLike category)) categoriesForGenres in
  if String.eqb sourceId "smithsonian" then
    if existsb (fun genre => String.eqb (toLowerCase (trim genre)) "museum") genres
    then genres
    else genres ++ ["Museum"%string]
  else genres.

(** ** iCal date-times *)

Record IcalMatch : Type := mkIcalMatch {
  m_year : Z; m_month : Z; m_day : Z;
  m_time : option (Z * Z * option Z);
  m_zone : string
}.

(** The group [(?:T(\d{2})(\d{2})(\d{2})?)?] at the head of [s]. *)
Definition ical_time_group (s : string) : option (Z * Z * option Z) * string :=
  match s with
  | String "T" r =>
      match digits 2 r with
      | Some (h, r1) =>
          match digits 2 r1 with
          | Some (mi, r2) =>
              match digits 2 r2 with
              | Some (sec, r3) => (Some (h, mi, Some sec), r3)
              | None => (Some (h, mi, None), r2)
              end
          | None => (None, s)
          end
      | None => (None, s)
      end
  | _ => (None, s)
  end.

(** The group [(Z|[+-]\d{4})?] at the head of [s]: the token and the rest. *)
Definition ical_zone_group (s : string) : string * string :=
  match s with
  | String "Z" r => ("Z"%string, r)
  | String c r =>
      if Ascii.eqb c "+" || Ascii.eqb c "-" then
        match digits 4 r with
        | Some (_, rest) => (String c (substring 0 4 r), rest)
        | None => (EmptyString, s)
        end
      else (EmptyString, s)
  | EmptyString => (EmptyString, s)
  end.

(** [/^(\d{4})(\d{2})(\d{2})(?:T(\d{2})(\d{2})(\d{2})?)?(Z|[+-]\d{4})?$/].
    Each optional group is followed by something that cannot start with
    what the group starts with, so taking a group whenever it matches
    loses no match. *)
Definition match_ical (value : string) : option IcalMatch :=
  match digits 4 value with
  | Some (y, s1) =>
      match digits 2 s1 with
      | Some (m, s2) =>
          match digits 2 s2 with
          | Some (d, s3) =>
              let '(time, s4) := ical_time_group s3 in
              let '(zone, s5) := ical_zone_group s4 in
              match s5 with
              | EmptyString => Some (mkIcalMatch y m d time zone)
              | _ => None
              end
          | None => None
          end
      | None => None
      end
  | None => None
  end.

(** [new Date(tv).toISOString()]: a [RangeError] on an invalid date. *)
Definition isoOrThrow (tv : option Z) : Outcome (option string) :=
  match tv with
  | Some t => Returned (Some (JsDate.toISOString t))
  | None => Threw (mkError "Invalid time value" None None [])
  end.

Section Ical.
Context {P : Platform}.

(** Everything after [try] that throws ends in [return null]. *)
Definition zonedTimeToUtcIso (year month day hour minute second : Z) (timeZone : string)
  : option string :=
  match JsDate.Date_UTC year (month - 1) day hour minute second with
  | None => None
  | Some utcDate =>
      match wallClock timeZone utcDate with
      | None => None
      | Some values =>
          match JsDate.Date_UTC (JsDate.f_year values) (JsDate.f_month values - 1)
                  (JsDate.f_day values) (JsDate.f_hour values)
                  (JsDate.f_minute values) (JsDate.f_second values) with
          | None => None
          | Some tzDateMs =>
              let offsetMs := tzDateMs - utcDate in
              option_map JsDate.toISOString (JsDate.TimeClip (utcDate - offsetMs))
          end
      end
  end.

Definition parseIcalDateTime (rawValue : string) (tzid fallbackTimeZone : option string)
  : Outcome (option string) :=
  let value := trim rawValue in
  if negb (non_empty value) then Returned None
  else
    match match_ical value with
    | None => Returned None
    | Some m =>
        let year := m_year m in
        let month := m_month m in
        let day := m_day m in
        match m_time m with
        | None => isoOrThrow (JsDate.Date_UTC year (month - 1) day 0 0 0)
        | Some (hour, minute, sec) =>
            let second := match sec with Some v => v | None => 0 end in
            let zoneToken := m_zone m in
            if String.eqb zoneToken "Z" then
              isoOrThrow (JsDate.Date_UTC year (month - 1) day hour minute second)
            else if non_empty zoneToken then
              let sign := if String.prefix "-" zoneToken then -1 else 1 in
              match digits 2 (substring 1 2 zoneToken), digits 2 (substring 3 2 zoneToken) with
              | Some (offsetHours, _), Some (offsetMinutes, _) =>
                  let offsetTotalMinutes := sign * (offsetHours * 60 + offsetMinutes) in
                  match JsDate.Date_UTC year (month - 1) day hour minute second with
                  | Some utc =>
                      isoOrThrow (JsDate.TimeClip (utc - offsetTotalMinutes * 60 * 1000))
                  | None => isoOrThrow None
                  end
              | _, _ => Returned None
              end
            else
              let zone := if truthy tzid then tzid else fallbackTimeZone in
              match zone with
              | Some z =>
                  if non_empty z then
                    Returned (zonedTimeToUtcIso year month day hour minute second z)
                  else
                    isoOrThrow (JsDate.Date_UTC year (month - 1) day hour minute second)
              | None =>
                  isoOrThrow (JsDate.Date_UTC year (month - 1) day hour minute second)
              end
        end
    end.
End Ical.

(** ** Further query helpers *)

Definition MAX_SAFE_INTEGER : Z := 2 ^ 53 - 1.

(** [normalizePositiveInteger(value, { min, max })]; [None] is [null].
    The bounds are integers up to [MAX_SAFE_INTEGER], which doubles hold
    exactly. *)
Definition normalizePositiveInteger (value : option string) (min max : Z) : option Z :=
  match value with
  | None => None
  | Some s =>
      if negb (non_empty s) then None
      else
        match parseInt10 s with
        | Fin q =>
            let parsed := Qfloor q in
            if parsed <=? 0 then None
            else Some (Z.min (Z.max parsed min) max)
        | _ => None
        end
  end.

(** [normalizePositiveInteger(req.query.limit, { min: 1, max: 100 }) || 25] *)
Definition previewLimit (value : option string) : Z :=
  match normalizePositiveInteger value 1 100 with
  | Some n => if n =? 0 then 25 else n
  | None => 25
  end.

(** ** The look-ahead window of the feed adapters *)

Section Lookahead.
Context {P : Platform}.

(** [iso ? new Date(iso) : null], kept when its time value is a number. *)
Definition validDate (iso : option string) : option Z :=
  match iso with
  | Some s => if non_empty s then Date_parse s else None
  | None => None
  end.

(** [isEventInLookahead]; [now] is the time value of [new Date()]. *)
Definition isEventInLookahead (now : Z) (startIso endIso : option string)
    (lookaheadDays : Z) : bool :=
  if negb (truthy startIso) && negb (truthy endIso) then true
  else
    let windowEnd := JsDate.TimeClip (now + lookaheadDays * 24 * 60 * 60 * 1000) in
    let validStart := validDate startIso in
    let validEnd := validDate endIso in
    let eventStart := match validStart with Some s => Some s | None => validEnd end in
    let eventEnd := match validEnd with Some e => Some e | None => validStart end in
    match eventStart, eventEnd with
    | None, None => true
    | _, _ =>
        if match eventStart, windowEnd with
           | Some s, Some w => w <? s
           | _, _ => false
           end
        then false
        else if match eventEnd with Some e => e <? now | None => false end
        then false
        else true
    end.
End Lookahead.

(** ** Datasource previews *)

Record Preview : Type := mkPreview {
  pv_total : nat;
  pv_truncated : bool;
  pv_events : list Event;
  pv_segments : option (list SegmentSummary)
}.

(** The [preview] field: events for the event sources, the raw body for a
    [json] source. *)
Inductive PreviewPayload : Type :=
| EventPreview (p : Preview)
| RawPreview (contentType : string) (truncated : bool) (raw : string).

Record PreviewResult : Type := mkPreviewResult {
  pr_sourceId : string;
  pr_type : string;
  pr_ok : bool;
  pr_status : Z;
  pr_fetchedAt : string;
  pr_preview : PreviewPayload
}.

Record PreviewContext : Type := mkPreviewContext {
  pc_latitude : option num;
  pc_longitude : option num;
  pc_radiusMiles : Q;
  pc_lookaheadDays : Z;
  pc_limit : Z
}.

(** [list.slice(0, end)] for an integer [end]. *)
Definition slice_to {A : Type} (l : list A) (finish : Z) : list A :=
  let len := Z.of_nat (List.length l) in
  firstn (Z.to_nat (if finish <? 0 then Z.max (len + finish) 0 else Z.min finish len)) l.

Definition PreviewHandler : Type := Source -> PreviewContext -> Outcome PreviewResult.

(** What the [json] preview read from the feed: [response.ok],
    [response.status], the content type, whether the body was cut at
    [PREVIEW_BODY_LIMIT], and the body kept. *)
Record RawFetched : Type := mkRawFetched {
  rf_ok : bool;
  rf_status : Z;
  rf_contentType : string;
  rf_truncated : bool;
  rf_raw : string
}.

(** What a preview request meets outside the process: the Ticketmaster
    side, the events [fetchBlackCatEvents], [fetchIcalEvents] and
    [fetchRssEvents] resolve to, how the request of the [json] preview
    ends (in what it read, or in the error the handler throws), and the
    clock. *)
Record PreviewWorld : Type := mkPreviewWorld {
  pw_ticketmaster : TmWorld;
  pw_blackcat : PreviewContext -> Outcome (list Event);
  pw_ical : Source -> PreviewContext -> Outcome (list Event);
  pw_rss : Source -> PreviewContext -> Outcome (list Event);
  pw_json : Source -> Outcome RawFetched;
  pw_now : Z
}.

Section Previews.
Context {P : Platform}.

(** The part the four event previews share: cut, sort, keep the first
    [context.limit || 25]. *)
Definition eventPreview (now : Z) (source : Source) (context : PreviewContext)
    (events : list Event) (segments : option (list SegmentSummary)) : PreviewResult :=
  let filteredEvents := applyWeekdayCutoff events in
  let orderedEvents := sortEventsByTimeAndDistance filteredEvents in
  let limit := if pc_limit context =? 0 then 25 else pc_limit context in
  let previewEvents := slice_to orderedEvents limit in
  mkPreviewResult (src_id source) (src_type source) true 200 (JsDate.toISOString now)
    (EventPreview
       (mkPreview (List.length orderedEvents)
          (Nat.ltb (List.length previewEvents) (List.length orderedEvents))
          previewEvents segments)).

Definition ticketmasterPreview (w : PreviewWorld) : PreviewHandler :=
  fun source context =>
    match fetchTicketmasterEvents (pw_ticketmaster w) (pc_radiusMiles context)
            (pc_lookaheadDays context) (src_segments source) true with
    | Threw e => Threw e
    | Returned result =>
        Returned (eventPreview (pw_now w) source context (tp_events (tf_payload result))
                    (Some (tp_segments (tf_payload result))))
    end.

Definition feedPreview (w : PreviewWorld) (fetched : Outcome (list Event))
    (segments : option (list SegmentSummary)) : PreviewHandler :=
  fun source context =>
    match fetched with
    | Threw e => Threw e
    | Returned events => Returned (eventPreview (pw_now w) source context events segments)
    end.

Definition jsonPreview (w : PreviewWorld) : PreviewHandler :=
  fun source _ =>
    match pw_json w source with
    | Threw e => Threw e
    | Returned read =>
        Returned (mkPreviewResult (src_id source) (src_type source) (rf_ok read)
                    (rf_status read) (JsDate.toISOString (pw_now w))
                    (RawPreview (rf_contentType read) (rf_truncated read) (rf_raw read)))
    end.

(** [DATASOURCE_HANDLERS[type].preview]; the [dcimprov] handler has none. *)
Definition PREVIEW_HANDLERS (w : PreviewWorld) (type : string) : option PreviewHandler :=
  if String.eqb type "ticketmaster" then Some (ticketmasterPreview w)
  else if String.eqb type "blackcat" then
    Some (fun source context => feedPreview w (pw_blackcat w context) (Some []) source context)
  else if String.eqb type "ical" then
    Some (fun source context => feedPreview w (pw_ical w source context) None source context)
  else if String.eqb type "rss" then
    Some (fun source context => feedPreview w (pw_rss w source context) None source context)
  else if String.eqb type "json" then Some (jsonPreview w)
  else None.

Definition fetchDatasourcePreview (w : PreviewWorld) (source : option Source)
    (context : PreviewContext) : Outcome PreviewResult :=
  match source with
  | None => Threw (mkError "Datasource not found" (Some 404) None [])
  | Some source' =>
      match PREVIEW_HANDLERS w (src_type source') with
      | None =>
          Threw (mkError "Preview not supported for this datasource type" (Some 400)
                         (Some "preview_not_supported"%string) [])
      | Some handler => handler source' context
      end
  end.

Inductive PreviewBody : Type :=
| PreviewError (error : string) (message : option string)
| PreviewOk (result : PreviewResult).

(** [GET /api/datasources/:id/preview]; [source] is what
    [getDatasourceById] resolved to. *)
Definition api_datasource_preview (w : PreviewWorld) (source : option Source)
    (query : Query) (limitParam : option string) : Z * PreviewBody :=
  match source with
  | None => (404, PreviewError "datasource_not_found" None)
  | Some source' =>
      let rawLat := nullish_or (q_lat query) (q_latitude query) in
      let rawLon := nullish_or (q_lon query) (q_longitude query) in
      let latitude := normalizeCoordinate rawLat 4 in
      let longitude := normalizeCoordinate rawLon 4 in
      let radiusMiles := normalizeRadius (q_radius query) in
      let lookaheadDays := normalizeDays (q_days query) in
      let limit := previewLimit limitParam in
      if String.eqb (src_type source') "ticketmaster"
         && negb (match finite_coordinate latitude, finite_coordinate longitude with
                  | Some _, Some _ => true
                  | _, _ => false
                  end)
      then (400, PreviewError "missing_coordinates" None)
      else
        match fetchDatasourcePreview w source
                (mkPreviewContext latitude longitude radiusMiles lookaheadDays limit) with
        | Returned preview => (200, PreviewOk preview)
        | Threw err =>
            (match err_status err with Some s => s | None => 500 end,
             PreviewError
               (match err_code err with
                | Some c => or_else c "preview_failed"
                | None => "preview_failed"%string
                end)
               (Some (or_else (err_message err) "Preview failed")))
        end
  end.
End Previews.


(** ** Identifiers: datasource ids and event ids *)

Definition is_hyphen (c : ascii) : bool := Ascii.eqb c "-".

(** [[a-z0-9]] *)
Definition is_lower_alnum (c : ascii) : bool :=
  let n := code c in
  ((97 <=? n)%nat && (n <=? 122)%nat) || is_digit c.

(** [[a-z0-9-_]] *)
Definition is_id_char (c : ascii) : bool :=
  is_lower_alnum c || is_hyphen c || Ascii.eqb c "_".

(** [s.replace(/[^...]/g, '-')]: every character outside the class
    becomes a hyphen. *)
Fixpoint replace_each (keep : ascii -> bool) (s : string) : string :=
  match s with
  | EmptyString => EmptyString
  | String c r => String (if keep c then c else "-"%char) (replace_each keep r)
  end.

(** [s.replace(/[^...]+/g, '-')]: every maximal run of characters outside
    the class becomes one hyphen; [in_run] tells that the run the head of
    [s] would belong to has been replaced already. *)
Fixpoint replace_runs (keep : ascii -> bool) (in_run : bool) (s : string) : string :=
  match s with
  | EmptyString => EmptyString
  | String c r =>
      if keep c then String c (replace_runs keep false r)
      else if in_run then replace_runs keep true r
      else String "-" (replace_runs keep true r)
  end.

Fixpoint drop_start (p : ascii -> bool) (s : string) : string :=
  match s with
  | EmptyString => EmptyString
  | String c r => if p c then drop_start p r else s
  end.

Fixpoint drop_end (p : ascii -> bool) (s : string) : string :=
  match s with
  | EmptyString => EmptyString
  | String c r =>
      match drop_end p r with
      | EmptyString => if p c then EmptyString else String c EmptyString
      | r' => String c r'
      end
  end.

(** [s.replace(/^-+|-+$/g, '')] *)
Definition strip_hyphens (s : string) : string :=
  drop_end is_hyphen (drop_start is_hyphen s).

(** [s.slice(0, n)] *)
Fixpoint slice_head (n : nat) (s : string) : string :=
  match n, s with
  | S n', String c r => String c (slice_head n' r)
  | _, _ => EmptyString
  end.

Definition normalizeDatasourceId (value : option string) : string :=
  match value with
  | None => EmptyString
  | Some s =>
      if negb (non_empty s) then EmptyString
      else
        let trimmed := toLowerCase (trim s) in
        let collapsed :=
          replace_runs (fun c => negb (is_hyphen c)) false (replace_each is_id_char trimmed) in
        slice_head 64 (strip_hyphens collapsed)
  end.

(** The slug of the event ids:
    [base.toLowerCase().replace(/[^a-z0-9]+/g, '-').replace(/^-+|-+$/g, '').slice(0, 80)] *)
Definition slug (base : string) : string :=
  slice_head 80 (strip_hyphens (replace_runs is_lower_alnum false (toLowerCase base))).

(** [iso.split('T')[0]] *)
Fixpoint before_T (s : string) : string :=
  match s with
  | EmptyString => EmptyString
  | String c r => if Ascii.eqb c "T" then EmptyString else String c (before_T r)
  end.

(** [iso ? iso.split('T')[0] : 'date-unknown'] *)
Definition datePart (iso : option string) : string :=
  match iso with
  | Some s => if non_empty s then before_T s else "date-unknown"%string
  | None => "date-unknown"%string
  end.

(** [a || b] on strings that may be missing. *)
Definition first_truthy (a b : option string) : option string :=
  if truthy a then a else b.

Definition buildRssEventId (sourceId : string) (guid title startIso link : option string)
  : string :=
  let base :=
    match first_truthy guid (first_truthy link title) with
    | Some s => if non_empty s then s else "event"%string
    | None => "event"%string
    end in
  (sourceId ++ "::" ++ or_else (slug base) "event" ++ "::" ++ datePart startIso)%string.

(** [url.replace(/https?:\/\//, '')]: the first [http://] or [https://]
    of the string is removed. *)
Definition scheme_at (s : string) : option string :=
  match s with
  | String "h" (String "t" (String "t" (String "p" r))) =>
      match r with
      | String ":" (String "/" (String "/" rest)) => Some rest
      | String "s" (String ":" (String "/" (String "/" rest))) => Some rest
      | _ => None
      end
  | _ => None
  end.

Fixpoint strip_scheme (s : string) : string :=
  match scheme_at s with
  | Some rest => rest
  | None =>
      match s with
      | EmptyString => EmptyString
      | String c r => String c (strip_scheme r)
      end
  end.

(** The id of a scraped show: [buildDcImprovEventId] with prefix
    [dcimprov], [buildBlackCatEventId] with prefix [blackcat]; [name] is
    [None] when it is not a string. *)
Definition buildScrapedEventId (prefix : string) (name : option string)
    (localIso url : option string) : string :=
  let base := match name with Some s => toLowerCase s | None => "show"%string end in
  let slug' :=
    slice_head 80 (strip_hyphens (replace_runs is_lower_alnum false base)) in
  let urlPart :=
    match url with
    | Some u => if non_empty u then slice_head 40 (strip_scheme u) else EmptyString
    | None => EmptyString
    end in
  (prefix ++ "::" ++ or_else slug' "show" ++ "::" ++ datePart localIso
     ++ (if non_empty urlPart then "::" ++ urlPart else EmptyString))%string.

Definition buildDcImprovEventId : option string -> option string -> option string -> string :=
  buildScrapedEventId "dcimprov".

Definition buildBlackCatEventId : option string -> option string -> option string -> string :=
  buildScrapedEventId "blackcat".


(** ** The Eventbrite proxy: the in-memory cache

    [eventbriteCache] is a [Map]: keys in insertion order, one entry per
    key.  [Map.prototype.set] on a key that is present replaces the value
    where it stands; on a new key it appends. *)

Definition EVENTBRITE_CACHE_TTL_MS : Z := 1000 * 60 * 60 * 24.
Definition EVENTBRITE_CACHE_MAX_ENTRIES : nat := 200.

Record CachedResponse : Type := mkCachedResponse {
  cr_status : Z;
  cr_text : string
}.

Record CacheEntry : Type := mkCacheEntry {
  ce_timestamp : Z;
  ce_value : CachedResponse
}.

Definition MemoryCache : Type := list (string * CacheEntry).

Fixpoint cache_get (key : string) (m : MemoryCache) : option CacheEntry :=
  match m with
  | [] => None
  | (k, entry) :: rest => if String.eqb k key then Some entry else cache_get key rest
  end.

Fixpoint cache_delete (key : string) (m : MemoryCache) : MemoryCache :=
  match m with
  | [] => []
  | (k, entry) :: rest =>
      if String.eqb k key then rest else (k, entry) :: cache_delete key rest
  end.

Fixpoint cache_set (key : string) (entry : CacheEntry) (m : MemoryCache) : MemoryCache :=
  match m with
  | [] => [(key, entry)]
  | (k, old) :: rest =>
      if String.eqb k key then (k, entry) :: rest else (k, old) :: cache_set key entry rest
  end.

(** [getEventbriteCacheEntry(key)] at time [now]: what it returns and the
    cache it leaves. *)
Definition getEventbriteCacheEntry (now : Z) (key : string) (m : MemoryCache)
  : option CachedResponse * MemoryCache :=
  match cache_get key m with
  | None => (None, m)
  | Some entry =>
      if EVENTBRITE_CACHE_TTL_MS <? now - ce_timestamp entry
      then (None, cache_delete key m)
      else (Some (ce_value entry), cache_set key entry (cache_delete key m))
  end.

(** [setEventbriteCacheEntry(key, value)] at time [now]. *)
Definition setEventbriteCacheEntry (now : Z) (key : string) (value : CachedResponse)
    (m : MemoryCache) : MemoryCache :=
  let m' := cache_set key (mkCacheEntry now value) m in
  if Nat.ltb EVENTBRITE_CACHE_MAX_ENTRIES (List.length m') then
    match m' with
    | (oldestKey, _) :: _ => if non_empty oldestKey then cache_delete oldestKey m' else m'
    | [] => m'
    end
  else m'.


(** ** The map game: the daily location and the leaderboard *)

(** [dailySeed()] at the instant [now]: a 32-bit hash of the UTC date. *)
Fixpoint hash_chars (seed : Z) (s : string) : Z :=
  match s with
  | EmptyString => seed
  | String c r => hash_chars ((seed * 31 + Z.of_nat (code c)) mod 2 ^ 32) r
  end.

Definition dailySeed (now : Z) : Z :=
  hash_chars 0 (slice_head 10 (JsDate.toISOString now)).

(** [locations[seed % locations.length]]; [None] is [undefined], which
    is what indexing the empty list with [NaN] gives. *)
Definition pickLocation (locations : list string) (now : Z) : option string :=
  match locations with
  | [] => None
  | _ :: _ => nth_error locations (Z.to_nat (dailySeed now mod Z.of_nat (List.length locations)))
  end.

Record ScoreEntry : Type := mkScoreEntry {
  se_playerName : string;
  se_score : num
}.

(** The body of [POST /score]: each field is [None] when it is missing or
    not of the type the route asks for. *)
Record ScoreBody : Type := mkScoreBody {
  sb_playerName : option string;
  sb_score : option num
}.

(** [(a, b) => b.score - a.score] *)
Definition compareScores (a b : ScoreEntry) : comparison :=
  sub_sign (se_score b) (se_score a).

(** [POST /score]: the status, the [status] or [error] field of the
    answer, and the leaderboard left. *)
Definition post_score (body : ScoreBody) (leaderboard : list ScoreEntry)
  : Z * string * list ScoreEntry :=
  match sb_playerName body, sb_score body with
  | Some playerName, Some score =>
      (200, "ok"%string, js_sort compareScores (leaderboard ++ [mkScoreEntry playerName score]))
  | _, _ => (400, "invalid"%string, leaderboard)
  end.

(** [GET /leaderboard] *)
Definition get_leaderboard (leaderboard : list ScoreEntry) : list ScoreEntry :=
  slice_to leaderboard 10.


(** ** iCal: unfolding the lines of a feed *)

Definition CR : ascii := ascii_of_nat 13.
Definition LF : ascii := ascii_of_nat 10.
Definition TAB : ascii := ascii_of_nat 9.

(** [text.replace(/\r\n/g, '\n')] *)
Fixpoint replace_crlf (s : string) : string :=
  match s with
  | EmptyString => EmptyString
  | String c r =>
      match r with
      | String d r' =>
          if Ascii.eqb c CR && Ascii.eqb d LF then String LF (replace_crlf r')
          else String c (replace_crlf r)
      | EmptyString => String c EmptyString
      end
  end.

(** [text.replace(/\r/g, '\n')] *)
Fixpoint replace_cr (s : string) : string :=
  match s with
  | EmptyString => EmptyString
  | String c r => String (if Ascii.eqb c CR then LF else c) (replace_cr r)
  end.

(** [text.split('\n')] *)
Fixpoint split_lines (s : string) : list string :=
  match s with
  | EmptyString => [EmptyString]
  | String c r =>
      if Ascii.eqb c LF then EmptyString :: split_lines r
      else match split_lines r with
           | first :: others => String c first :: others
           | [] => [String c EmptyString]
           end
  end.

(** [lines[lines.length - 1] += more] *)
Fixpoint append_to_last (lines : list string) (more : string) : list string :=
  match lines with
  | [] => []
  | [last] => [(last ++ more)%string]
  | line :: rest => line :: append_to_last rest more
  end.

(** [line.slice(1)] *)
Definition slice_from_1 (line : string) : string :=
  match line with String _ r => r | EmptyString => EmptyString end.

(** The body of the [rawLines.forEach] loop.  The byte order mark the
    loop strips from the first line is no code unit below 256. *)
Definition unfoldStep (lines : list string) (line : string) : list string :=
  match line with
  | EmptyString => lines
  | String c _ =>
      if Ascii.eqb c " " || Ascii.eqb c TAB then
        match lines with
        | [] => [trim_start line]
        | _ :: _ => append_to_last lines (slice_from_1 line)
        end
      else lines ++ [line]
  end.

Definition unfoldIcalLines (text : option string) : list string :=
  match text with
  | None => []
  | Some s =>
      if negb (non_empty s) then []
      else fold_left unfoldStep (split_lines (replace_cr (replace_crlf s))) []
  end.


(** ** DC Improv: the time of a show *)

(** [value.replace(/\./g, '')] *)
Fixpoint remove_dots (s : string) : string :=
  match s with
  | EmptyString => EmptyString
  | String c r => if Ascii.eqb c "." then remove_dots r else String c (remove_dots r)
  end.

(** [(am|pm)] at the head of [s]: [true] for [pm]. *)
Definition meridiem_here (s : string) : option bool :=
  match s with
  | String "a" (String "m" _) => Some false
  | String "p" (String "m" _) => Some true
  | _ => None
  end.

(** [\s*(am|pm)] at the head of [s]. *)
Fixpoint meridiem_after_spaces (s : string) : option bool :=
  match meridiem_here s with
  | Some pm => Some pm
  | None =>
      match s with
      | String c r => if is_space c then meridiem_after_spaces r else None
      | EmptyString => None
      end
  end.

(** [:(\d{2})] at the head of [s]. *)
Definition minute_group (s : string) : option (Z * string) :=
  match expect ":" s with
  | Some r => digits 2 r
  | None => None
  end.

(** [(?::(\d{2}))?\s*(am|pm)] after the hour [h]: with the minutes
    first, without them when that fails. *)
Definition time_tail (h : Z) (s : string) : option (Z * option Z * bool) :=
  let with_minutes :=
    match minute_group s with
    | Some (mi, r) =>
        match meridiem_after_spaces r with
        | Some pm => Some (h, Some mi, pm)
        | None => None
        end
    | None => None
    end in
  match with_minutes with
  | Some found => Some found
  | None =>
      match meridiem_after_spaces s with
      | Some pm => Some (h, None, pm)
      | None => None
      end
  end.

(** [/(\d{1,2})(?::(\d{2}))?\s*(am|pm)/] at the head of [s]: two digits
    for the hour first, one when that fails. *)
Definition time_at (s : string) : option (Z * option Z * bool) :=
  let two :=
    match digits 2 s with
    | Some (h, r) => time_tail h r
    | None => None
    end in
  match two with
  | Some found => Some found
  | None =>
      match digits 1 s with
      | Some (h, r) => time_tail h r
      | None => None
      end
  end.

(** The leftmost match of the expression in [s]. *)
Fixpoint time_search (s : string) : option (Z * option Z * bool) :=
  match time_at s with
  | Some found => Some found
  | None =>
      match s with
      | String _ r => time_search r
      | EmptyString => None
      end
  end.

(** [parseDcImprovTime(value)]: [{ hour, minute }], or [None] for [null]. *)
Definition parseDcImprovTime (value : option string) : option (Z * Z) :=
  match value with
  | None => None
  | Some v =>
      if negb (non_empty v) then None
      else
        let normalized := toLowerCase (remove_dots v) in
        match time_search normalized with
        | None => None
        | Some (h, mi, pm) =>
            let minute := match mi with Some m => m | None => 0 end in
            let hour := if pm && negb (h =? 12) then h + 12 else h in
            let hour := if negb pm && (hour =? 12) then 0 else hour in
            Some (hour, minute)
        end
  end.


(** ** The list of datasources *)

(** A stored datasource document, field by field.  [rd_id] and [rd_key]
    are [None] where the document has no such field, the empty string
    for a falsy value and [String(value)] otherwise; [rd_name],
    [rd_type] and [rd_description] are the field when it is a string;
    [rd_enabled] is [Boolean(raw.enabled)], [None] for [undefined] and
    [null]; [rd_order] is [Number(raw.order)] when it is finite. *)
Record RawDatasource : Type := mkRawDatasource {
  rd_id : option string;
  rd_key : option string;
  rd_name : option string;
  rd_type : option string;
  rd_enabled : option bool;
  rd_description : option string;
  rd_order : option Q
}.

Record Datasource : Type := mkDatasource {
  ds_id : string;
  ds_name : string;
  ds_type : string;
  ds_enabled : bool;
  ds_description : string;
  ds_order : Q
}.

(** [typeof v === 'string' && v.trim() ? v.trim() : fallback] *)
Definition trimmed_or (v : option string) (fallback : string) : string :=
  match v with
  | Some s => or_else (trim s) fallback
  | None => fallback
  end.

Definition normalizeDatasource (raw : RawDatasource) (fallbackId : option string)
  : option Datasource :=
  let id :=
    normalizeDatasourceId (first_truthy (rd_id raw) (first_truthy (rd_key raw) fallbackId)) in
  if negb (non_empty id) then None
  else
    let typeRaw :=
      match rd_type raw with Some t => toLowerCase (trim t) | None => EmptyString end in
    Some (mkDatasource id
            (trimmed_or (rd_name raw) id)
            (or_else typeRaw "ticketmaster")
            (match rd_enabled raw with Some b => b | None => true end)
            (trimmed_or (rd_description raw) EmptyString)
            (match rd_order raw with Some q => q | None => 0%Q end)).

Definition DC_IMPROV_SOURCE_ID : string := "dcimprov".
Definition BLACK_CAT_SOURCE_ID : string := "blackcat".

Definition buildDefaultDatasources : list Datasource :=
  [ mkDatasource "ticketmaster" "Ticketmaster" "ticketmaster" true
      "Ticketmaster Discovery API" 0;
    mkDatasource DC_IMPROV_SOURCE_ID "DC Improv" DC_IMPROV_SOURCE_ID true
      "DC Improv shows page" 1;
    mkDatasource "smithsonian" "Smithsonian" "rss" true
      "Smithsonian events (Trumba RSS)" 2;
    mkDatasource BLACK_CAT_SOURCE_ID "Black Cat" BLACK_CAT_SOURCE_ID true
      "Black Cat schedule page" 3 ].

(** Where [loadDatasources] took the list from. *)
Inductive Origin : Type := FromFirestoreAndLocal | FromFirestore | FromLocal | FromDefault.

(** [{ id: doc.id, ...doc.data() }]: the document's own [id] field, when
    it has one, hides the document id. *)
Definition docFields (docId : string) (data : RawDatasource) : RawDatasource :=
  mkRawDatasource
    (match rd_id data with Some v => Some v | None => Some docId end)
    (rd_key data) (rd_name data) (rd_type data) (rd_enabled data)
    (rd_description data) (rd_order data).

(** [list.map(normalize).filter(Boolean)] *)
Fixpoint keep_some {A : Type} (l : list (option A)) : list A :=
  match l with
  | [] => []
  | Some a :: r => a :: keep_some r
  | None :: r => keep_some r
  end.

(** The [localSources.forEach] loop of the merge. *)
Definition mergeLocal (merged : list Datasource) (localSource : Datasource) : list Datasource :=
  if existsb (fun source => String.eqb (ds_id source) (ds_id localSource)) merged
  then merged
  else merged ++ [localSource].

Section Datasources.
(** [String.prototype.localeCompare], which depends on the locale of the
    process. *)
Variable localeCompare : string -> string -> comparison.

Definition compareDatasources (a b : Datasource) : comparison :=
  if negb (Qeq_bool (ds_order a) (ds_order b)) then (ds_order a ?= ds_order b)%Q
  else localeCompare (ds_name a) (ds_name b).

Definition sortDatasources (sources : list Datasource) : list Datasource :=
  js_sort compareDatasources sources.

(** [readLocalDatasources()], from the list the local file holds. *)
Definition readLocalDatasources (file : option (list RawDatasource))
  : option (list Datasource) :=
  match file with
  | None => None
  | Some list =>
      match keep_some (map (fun source => normalizeDatasource source (rd_id source)) list) with
      | [] => None
      | normalized => Some normalized
      end
  end.

(** [loadDatasources()]: [docs] are the documents of the collection,
    [None] when there is no database or reading it fails; [file] is the
    list in the local file, [None] when there is none to read. *)
Definition loadDatasources (docs : option (list (string * RawDatasource)))
    (file : option (list RawDatasource)) : list Datasource * Origin :=
  let fallback :=
    match readLocalDatasources file with
    | Some localSources => (sortDatasources localSources, FromLocal)
    | None => (buildDefaultDatasources, FromDefault)
    end in
  match docs with
  | Some ((_ :: _) as documents) =>
      match keep_some
              (map (fun doc => normalizeDatasource (docFields (fst doc) (snd doc))
                                 (Some (fst doc))) documents) with
      | [] => fallback
      | sources =>
          match readLocalDatasources file with
          | Some localSources =>
              (sortDatasources (fold_left mergeLocal localSources sources),
               FromFirestoreAndLocal)
          | None => (sortDatasources sources, FromFirestore)
          end
      end
  | _ => fallback
  end.

(** [getDatasourceById(id)] *)
Definition getDatasourceById (docs : option (list (string * RawDatasource)))
    (file : option (list RawDatasource)) (id : option string) : option Datasource :=
  let normalizedId := normalizeDatasourceId id in
  if negb (non_empty normalizedId) then None
  else find (fun source => String.eqb (ds_id source) normalizedId)
            (fst (loadDatasources docs file)).
End Datasources.


(** ** The client: preferences and the filter of the shows panel

    The panel clamps the radius and the number of days it is given and
    filters the events it holds by them.  A value the functions are
    called with is modelled by the string [Number.parseInt] makes of it,
    [None] for [undefined]. *)

Module Client.

Definition DEFAULT_RADIUS_MILES : Z := 50.
Definition DEFAULT_LOOKAHEAD_DAYS : Z := 30.
Definition MAX_RADIUS_MILES : Z := 150.
Definition MIN_RADIUS_MILES : Z := 5.
Definition MAX_LOOKAHEAD_DAYS : Z := 60.
Definition MIN_LOOKAHEAD_DAYS : Z := 0.
Definition MS_PER_DAY : Z := 24 * 60 * 60 * 1000.

Definition clampRadius (value : option string) : Z :=
  match value with
  | None => DEFAULT_RADIUS_MILES
  | Some s =>
      match parseInt10 s with
      | Fin q => Z.min (Z.max (Qfloor q) MIN_RADIUS_MILES) MAX_RADIUS_MILES
      | _ => DEFAULT_RADIUS_MILES
      end
  end.

Definition clampDays (value : option string) : Z :=
  match value with
  | None => DEFAULT_LOOKAHEAD_DAYS
  | Some s =>
      match parseInt10 s with
      | Fin q => Z.min (Z.max (Qfloor q) MIN_LOOKAHEAD_DAYS) MAX_LOOKAHEAD_DAYS
      | _ => DEFAULT_LOOKAHEAD_DAYS
      end
  end.

Section Panel.
Context {P : Platform}.

(** [event?.start?.utc || event?.start?.local], parsed. *)
Definition getEventStartTimestamp (event : Event) : option Z :=
  match ev_start event with
  | None => None
  | Some st =>
      match first_truthy (st_utc st) (st_local st) with
      | Some iso => if non_empty iso then Date_parse iso else None
      | None => None
      end
  end.

(** [isEventInFuture(event)] at the instant [now]. *)
Definition isEventInFuture (now : Z) (event : Event) : bool :=
  match getEventStartTimestamp event with
  | None => true
  | Some timestamp => now <=? timestamp
  end.

(** [filterEventsByPreferences(events, { radius, days })]; [today] is the
    time value of [getStartOfToday()]. *)
Definition filterEventsByPreferences (today : Z) (events : list Event)
    (radius days : option string) : list Event :=
  let maxRadius := clampRadius radius in
  let maxDays := clampDays days in
  let searchEnd := today + (maxDays + 1) * MS_PER_DAY - 1 in
  filter
    (fun event =>
       if match getEventStartTimestamp event with
          | Some timestamp => searchEnd <? timestamp
          | None => false
          end
       then false
       else if match ev_distance event with
               | Some distance => if Qlt_le_dec (inject_Z maxRadius) distance then true else false
               | None => false
               end
       then false
       else true)
    events.
End Panel.

End Client.


(** ** Feed adapters: where the start of an item comes from *)



(** The groups of a match of
    [/\b(January|...|December)\s+(\d{1,2})(?:,\s*(\d{4}))?(?:,\s*(\d{1,2})(?::(\d{2}))?\s*(am|pm))?/i]:
    the month name as written, and the digit groups read as numbers
    ([None] for a group that took no part in the match). *)
Record MonthDayMatch : Type := mkMonthDayMatch {
  md_month : string;
  md_day : Z;
  md_year : option Z;
  md_hour : option Z;
  md_minute : option Z;
  md_meridiem : option string
}.



(** What [parseRssEventItem] reads the start of an item from: the text
    under each of the sixteen start tags, in the order the parser tries
    them (empty where the item has no such tag); the text under
    [pubDate] or [dc:date]; the first text of the item that looks like
    an ISO date ([None] when none does); the cleaned, non-empty
    [category] texts; the items of the [Categories] detail of the
    description; the month-day-time phrases of the summary, in order; and
    the year the phrases fall back to (the first four-digit number among
    them, the current year when there is none). *)
Record RssItem : Type := mkRssItem {
  ri_startTags : list string;
  ri_published : string;
  ri_isoText : option string;
  ri_categoryTags : list string;
  ri_parsedCategories : list string;
  ri_phrases : list MonthDayMatch;
  ri_fallbackYear : Z
}.



(** [text.includes(needle)] *)
Fixpoint includes (needle s : string) : bool :=
  String.prefix needle s
  || match s with
     | String _ r => includes needle r
     | EmptyString => false
     end.

Section FeedStart.
Context {P : Platform}.

(** [new Date(year, monthIndex, day, hour, minute, second).getTime()],
    which reads its arguments in the time zone of the process; [None] is
    [NaN]. *)
Variable localTime : Z -> Z -> Z -> Z -> Z -> Z -> option Z.











End FeedStart.

(** ** Feed adapters and scrapers: genres *)

(** [genres] of the event [parseIcalFeed] builds, from the cleaned,
    non-empty items of the [CATEGORIES] properties. *)
Definition icalGenres (categories : list string) : list string :=
  filter (fun category => negb (isCategoryDateLike category)) categories.

(** [genres] of the event [parseSixthAndIMirrorEvents] builds, from the
    cleaned name and the address of the block's category link. *)
Definition sixthAndIGenres (categoryName categoryLink : string) : list string :=
  let categoryUrl := toLowerCase categoryLink in
  let genres :=
    (if non_empty categoryName then [categoryName] else [])
    ++ (if includes "/arts-entertainment/" categoryUrl
        then ["Talks & Entertainment"%string] else [])
    ++ (if includes "/jewish-life/" categoryUrl then ["Jewish Life"%string] else []) in
  fold_left (fun set genre => set_add genre set) genres [].

Definition DC_IMPROV_GENRES : list string := ["Comedy"%string].
Definition BLACK_CAT_GENRES : list string := ["Music"%string].

(** ** Scrapers: the local start *)






(** ** A reference platform

    One concrete runtime, for running the definitions on examples: the
    server's own zone is UTC; [Date.parse] reads the ECMAScript date-time
    format [YYYY-MM-DD] and [YYYY-MM-DDTHH:mm[:ss[.sss]][Z]]; numbers are
    read from plain decimal literals; the zone database knows [UTC] and
    [America/New_York] with the United States rules of 2024 (daylight
    time from 2024-03-10T07:00Z to 2024-11-03T06:00Z). *)

Module Reference.

Definition days_in_month (y m : Z) : Z :=
  match m with
  | 2 => if JsDate.InLeapYear y then 29 else 28
  | 4 | 6 | 9 | 11 => 30
  | _ => 31
  end.

Definition iso_clock (s : string) : option (Z * string) :=
  match digits 2 s with
  | Some (h, r1) =>
      match expect ":" r1 with
      | Some r2 =>
          match digits 2 r2 with
          | Some (mi, r3) =>
              if (h <=? 23) && (mi <=? 59) then
                match expect ":" r3 with
                | Some r4 =>
                    match digits 2 r4 with
                    | Some (sec, r5) =>
                        if sec <=? 59 then
                          match expect "." r5 with
                          | Some r6 =>
                              match digits 3 r6 with
                              | Some (ms, r7) =>
                                  Some (JsDate.MakeTime h mi sec ms, r7)
                              | None => None
                              end
                          | None => Some (JsDate.MakeTime h mi sec 0, r5)
                          end
                        else None
                    | None => None
                    end
                | None => Some (JsDate.MakeTime h mi 0 0, r3)
                end
              else None
          | None => None
          end
      | None => None
      end
  | None => None
  end.

Definition iso_parse (s : string) : option Z :=
  match digits 4 s with
  | Some (y, s1) =>
      match expect "-" s1 with
      | Some s2 =>
          match digits 2 s2 with
          | Some (m, s3) =>
              match expect "-" s3 with
              | Some s4 =>
                  match digits 2 s4 with
                  | Some (d, s5) =>
                      if (1 <=? m) && (m <=? 12) && (1 <=? d) && (d <=? days_in_month y m) then
                        let day := JsDate.MakeDay y (m - 1) d in
                        match s5 with
                        | EmptyString => Some (JsDate.MakeDate day 0)
                        | String "T" r =>
                            match iso_clock r with
                            | Some (time, EmptyString) => Some (JsDate.MakeDate day time)
                            | Some (time, String "Z" EmptyString) =>
                                Some (JsDate.MakeDate day time)
                            | _ => None
                            end
                        | _ => None
                        end
                      else None
                  | None => None
                  end
              | None => None
              end
          | None => None
          end
      | None => None
      end
  | None => None
  end.

(** Digits after a decimal point: value and scale. *)
Fixpoint fraction_run (n d : Z) (s : string) : Z * Z :=
  match s with
  | String c r =>
      if is_digit c then fraction_run (10 * n + digit_val c) (10 * d) r else (n, d)
  | EmptyString => (n, d)
  end.

Fixpoint all_digits (s : string) : bool :=
  match s with
  | String c r => is_digit c && all_digits r
  | EmptyString => true
  end.

Fixpoint whole_run (acc : Z) (s : string) : Z * string :=
  match s with
  | String c r => if is_digit c then whole_run (10 * acc + digit_val c) r else (acc, s)
  | EmptyString => (acc, s)
  end.

(** [-]digits[.digits] and nothing else; any other string is [NaN]. *)
Definition decimal (s : string) : num :=
  let '(negative, body) :=
    match s with
    | String "-" r => (true, r)
    | _ => (false, s)
    end in
  let signed (q : Q) : num := Fin (if negative then - q else q)%Q in
  if starts_with_digit body then
    let '(whole, rest) := whole_run 0 body in
    match rest with
    | EmptyString => signed (inject_Z whole)
    | String "." f =>
        if all_digits f then
          let '(n, d) := fraction_run 0 1 f in
          signed (inject_Z whole + (n # Z.to_pos d))%Q
        else NaN
    | _ => NaN
    end
  else NaN.

(** [Math.round(x * 10^d) / 10^d] in exact arithmetic. *)
Definition round_digits (d : Z) (x : Q) : num :=
  let factor := inject_Z (10 ^ d) in
  Fin (inject_Z (Qfloor (x * factor + (1 # 2))) / factor)%Q.

Definition hour_ms : Z := 3600000.

Definition new_york_offset (t : Z) : Z :=
  let dst_start := JsDate.MakeDate (JsDate.MakeDay 2024 2 10) (JsDate.MakeTime 7 0 0 0) in
  let dst_end := JsDate.MakeDate (JsDate.MakeDay 2024 10 3) (JsDate.MakeTime 6 0 0 0) in
  if (dst_start <=? t) && (t <? dst_end) then -4 * hour_ms else -5 * hour_ms.

Definition wall_clock (zone : string) (t : Z) : option JsDate.Fields :=
  if String.eqb zone "UTC" then Some (JsDate.fields_of_time t)
  else if String.eqb zone "America/New_York"
       then Some (JsDate.fields_of_time (t + new_york_offset t))
       else None.

Definition platform : Platform :=
  {| Date_parse := iso_parse;
     parseFloat := decimal;
     toNumber := decimal;
     roundTo := round_digits;
     wallClock := wall_clock |}.

End Reference.

(** ** Vocabulary of the statements *)

(** The date and time the cutoff reads from an event. *)
Definition startParts (event : Event) : option LocalParts :=
  parseEventLocalParts (getEventStartValue event).

(** The day of the week (0 = Sunday) of the date in [parts]. *)
Definition weekdayOf (parts : LocalParts) : option Z :=
  JsDate.getUTCDay (JsDate.Date_UTC (p_year parts) (p_month parts - 1) (p_day parts) 0 0 0).

Definition isWeekday (wd : Z) : Prop := 1 <= wd <= 5.

Definition beforeCutoff (hour minute : Z) : Prop :=
  hour < WEEKDAY_CUTOFF_HOUR \/ (hour = WEEKDAY_CUTOFF_HOUR /\ minute < WEEKDAY_CUTOFF_MINUTE).

Definition withSource (event : Event) (source : option string) : Event :=
  mkEvent (ev_id event) (ev_name event) (ev_start event) (ev_url event)
          (ev_segment event) (ev_distance event) source (ev_genres event).

(** A local timestamp [YYYY-MM-DDTHH:MM:00], as the adapters write it. *)
Definition localTimestamp (y m d h mi : Z) : string :=
  (JsDate.pad 4 y ++ "-" ++ JsDate.pad 2 m ++ "-" ++ JsDate.pad 2 d ++ "T"
   ++ JsDate.pad 2 h ++ ":" ++ JsDate.pad 2 mi ++ ":00")%string.

Section SortVocabulary.
Context {P : Platform}.

(** The events of a [/api/shows] answer, from the events collected. *)
Definition showsEvents (events : list Event) : list Event :=
  sortEventsByTimeAndDistance (applyWeekdayCutoff events).

(** The resolved start time: the UTC string when there is one, else the
    local string; [None] when the string chosen does not parse or there
    is none. *)
Definition resolvedTime (event : Event) : option Z :=
  match ev_start event with
  | Some st =>
      match st_utc st, st_local st with
      | Some u, l =>
          if non_empty u then Date_parse u
          else match l with
               | Some l' => if non_empty l' then Date_parse l' else None
               | None => None
               end
      | None, Some l' => if non_empty l' then Date_parse l' else None
      | None, None => None
      end
  | None => None
  end.

(** Distance ascending, a missing distance last. *)
Definition distance_le (a b : Event) : Prop :=
  match ev_distance a, ev_distance b with
  | Some x, Some y => (x <= y)%Q
  | Some _, None => True
  | None, Some _ => False
  | None, None => True
  end.

(** Resolved time ascending, events without one last, ties by distance. *)
Definition event_le (a b : Event) : Prop :=
  match resolvedTime a, resolvedTime b with
  | Some ta, Some tb => ta < tb \/ (ta = tb /\ distance_le a b)
  | Some _, None => True
  | None, Some _ => False
  | None, None => distance_le a b
  end.

(** Neither a resolved time nor a distance. *)
Definition unplaced (event : Event) : bool :=
  match resolvedTime event, ev_distance event with
  | None, None => true
  | _, _ => false
  end.

Definition hasParseableUtc (event : Event) : Prop :=
  exists st u t, ev_start event = Some st /\ st_utc st = Some u /\ Date_parse u = Some t.

Definition hasOnlyLocal (event : Event) : Prop :=
  exists st l t, ev_start event = Some st /\ st_utc st = None
                 /\ st_local st = Some l /\ Date_parse l = Some t.
End SortVocabulary.

Section ClaimedOrder.
Context {P : Platform}.

(** The order as the specification words it: every event with a
    parseable UTC time stands before every event with only a local
    time. *)
Definition utcTierFirst (l : list Event) : Prop :=
  forall i j a b,
    nth_error l i = Some a -> nth_error l j = Some b ->
    hasParseableUtc a -> hasOnlyLocal b -> (i < j)%nat.
End ClaimedOrder.


Section RouteVocabulary.
Context {P : Platform}.

Definition requestCoordinates (query : Query) : option (Q * Q) :=
  match finite_coordinate (normalizeCoordinate (nullish_or (q_lat query) (q_latitude query)) 4),
        finite_coordinate (normalizeCoordinate (nullish_or (q_lon query) (q_longitude query)) 4)
  with
  | Some latitude, Some longitude => Some (latitude, longitude)
  | _, _ => None
  end.

Definition requestContext (query : Query) (coordinates : Q * Q) : Context :=
  mkContext (fst coordinates) (snd coordinates)
            (normalizeRadius (q_radius query)) (normalizeDays (q_days query)).

(** One result per enabled source, in order. *)
Definition runEnabled (w : World) (sources : list Source) (context : Context)
  : list RunResult :=
  map (fun source => runDatasourceFetch w source context) (filter src_enabled sources).
End RouteVocabulary.


(** The events the enabled providers handed to the route, in order. *)
Definition collectedEvents (w : World) (sources : list Source) (context : Context)
  : list Event :=
  List.concat (map rr_events (runEnabled w sources context)).


Definition responseSummaries (r : Response) : option (list SourceSummary) :=
  match body r with
  | ErrorBody _ sources => sources
  | ShowsBody payload => Some (pl_sources payload)
  end.

Definition responseError (r : Response) : option string :=
  match body r with
  | ErrorBody error _ => Some error
  | ShowsBody _ => None
  end.

Definition responseEvents (r : Response) : option (list Event) :=
  match body r with
  | ErrorBody _ _ => None
  | ShowsBody payload => Some (pl_events payload)
  end.

Section ClaimedStatus.
Context {P : Platform}.

(** The status as the specification words it, for the answer [r] to
    [query] when the enabled providers ended as [results]. *)
Definition statusAsClaimed (query : Query) (results : list RunResult) (r : Response) : Prop :=
  (requestCoordinates query = None -> status r = 400)
  /\ (requestCoordinates query <> None ->
      (existsb rr_ok results = true -> status r = 200)
      /\ (existsb rr_ok results = false -> existsb has_missing_key results = true ->
          status r = 500 /\ responseError r = Some "ticketmaster_api_key_missing"%string)
      /\ (existsb rr_ok results = false -> existsb has_missing_key results = false ->
          status r = 502)).
End ClaimedStatus.

Definition is_returned {A : Type} (o : Outcome A) : bool :=
  match o with Returned _ => true | Threw _ => false end.

(** The events of the segments that answered, in request order. *)
Definition segmentEvents (segmentResults : list SegmentOutcome) : list Event :=
  List.concat (map (fun result => match snd result with
                             | Returned r => sr_events r
                             | Threw _ => []
                             end) segmentResults).

Definition has_id (key : string) (event : Event) : bool :=
  match ev_id event with
  | Some k => String.eqb key k
  | None => false
  end.

(** "Merged by event ID, the first occurrence wins", said directly:
    walk the events in order and keep one when it has an id not seen
    before. *)
Fixpoint firstOccurrences (seen : list string) (events : list Event) : list Event :=
  match events with
  | [] => []
  | event :: rest =>
      match ev_id event with
      | None => firstOccurrences seen rest
      | Some key =>
          if existsb (String.eqb key) seen then firstOccurrences seen rest
          else event :: firstOccurrences (key :: seen) rest
      end
  end.

(** The key and outcome of each segment, as its summary reports them. *)
Definition segmentVerdicts (segmentResults : list SegmentOutcome) : list (string * bool) :=
  map (fun result => (seg_key (fst result), is_returned (snd result))) segmentResults.


(** Equality of two strings up to case. *)
Definition same_ignoring_case (a b : string) : Prop := toLowerCase a = toLowerCase b.


(** The sources the cutoff applies to. *)
Definition subjectSource (source : option string) : Prop :=
  source = None \/ source = Some EmptyString \/ source = Some "ticketmaster"%string.



(** The genres invariant as the specification words it: no two entries
    equal up to case. *)
Definition genresDistinctAsClaimed (genres : list string) : Prop :=
  forall i j a b,
    nth_error genres i = Some a -> nth_error genres j = Some b ->
    i <> j -> ~ same_ignoring_case a b.


(** An iCal date-time literal [YYYYMMDDTHHMMSS] followed by [zone]
    (empty, [Z] or an offset). *)
Definition icalLiteral (y m d h mi s : Z) (zone : string) : string :=
  (JsDate.pad 4 y ++ JsDate.pad 2 m ++ JsDate.pad 2 d ++ "T"
   ++ JsDate.pad 2 h ++ JsDate.pad 2 mi ++ JsDate.pad 2 s ++ zone)%string.

(** The instant [t] shows the wall-clock reading [y-m-d h:mi:s] in
    [zone]. *)
Definition wallClockReads {P : Platform} (zone : string) (t y m d h mi s : Z) : Prop :=
  wallClock zone t = Some (JsDate.mkFields y m d h mi s 0).


(** [trim] leaves the end of [b] alone. *)
Definition keeps_end (b : string) : Prop := trim_end b = b /\ b <> EmptyString.


(** The day numbers [from], [from + 1], ..., [from + n - 1]. *)
Fixpoint day_range (from : Z) (n : nat) : list Z :=
  match n with
  | O => []
  | S n' => from :: day_range (from + 1) n'
  end.

(** [civil_of_day] undoes [MakeDay] at [day]. *)
Definition civil_round_trip (day : Z) : bool :=
  let '(y, m, d) := JsDate.civil_of_day day in
  (JsDate.MakeDay y (m - 1) d =? day) && (1 <=? m) && (m <=? 12) && (1 <=? d) && (d <=? 31).


(** The payload of a 200 answer. *)
Definition responsePayload (r : Response) : option Payload :=
  match body r with
  | ShowsBody payload => Some payload
  | ErrorBody _ _ => None
  end.

(** The provider answered, and from its cache. *)
Definition answeredFromCache (result : RunResult) : bool :=
  rr_ok result && rr_cached result.

(** The provider answered with a non-empty list of segment summaries. *)
Definition reportsSegments (result : RunResult) : bool :=
  rr_ok result && match rr_segments result with [] => false | _ :: _ => true end.


(** The first and last instant of an event, from its ISO strings: a
    missing or unreadable end is the start, and the other way round;
    [None] when neither can be read. *)
Definition eventSpan {P : Platform} (startIso endIso : option string) : option (Z * Z) :=
  match validDate startIso, validDate endIso with
  | Some s, Some e => Some (s, e)
  | Some s, None => Some (s, s)
  | None, Some e => Some (e, e)
  | None, None => None
  end.

(** The last instant of the look-ahead window. *)
Definition windowEnd (now lookaheadDays : Z) : Z := now + lookaheadDays * JsDate.msPerDay.

(** A time value a [Date] can hold. *)
Definition isTimeValue (t : Z) : Prop := Z.abs t <= 8640000000000000.


(** Every character of [s] satisfies [p]. *)
Fixpoint string_forall (p : ascii -> bool) (s : string) : bool :=
  match s with
  | EmptyString => true
  | String c r => p c && string_forall p r
  end.

Definition starts_with (p : ascii -> bool) (s : string) : bool :=
  match s with String c _ => p c | EmptyString => false end.

Fixpoint ends_with (p : ascii -> bool) (s : string) : bool :=
  match s with
  | EmptyString => false
  | String c EmptyString => p c
  | String _ r => ends_with p r
  end.

(** No two hyphens in a row. *)
Fixpoint no_double_hyphen (s : string) : bool :=
  match s with
  | EmptyString => true
  | String c r => negb (is_hyphen c && starts_with is_hyphen r) && no_double_hyphen r
  end.

(** The shape every id and slug has: characters of the class, no hyphen
    at the head, no two hyphens in a row, at most [n] characters. *)
Definition wellShaped (class : ascii -> bool) (n : nat) (s : string) : Prop :=
  string_forall class s = true
  /\ starts_with is_hyphen s = false
  /\ no_double_hyphen s = true
  /\ (String.length s <= n)%nat.

(** [[a-z0-9-]] *)
Definition is_slug_char (c : ascii) : bool := is_lower_alnum c || is_hyphen c.


(** One call on the cache of the Eventbrite proxy. *)
Inductive CacheOp : Type :=
| CacheRead (now : Z) (key : string)
| CacheWrite (now : Z) (key : string) (value : CachedResponse).

Definition cacheStep (m : MemoryCache) (op : CacheOp) : MemoryCache :=
  match op with
  | CacheRead now key => snd (getEventbriteCacheEntry now key m)
  | CacheWrite now key value => setEventbriteCacheEntry now key value m
  end.

Definition opKey (op : CacheOp) : string :=
  match op with CacheRead _ key => key | CacheWrite _ key _ => key end.

Definition cacheKeys (m : MemoryCache) : list string := map fst m.


(** A write under a key that is not the empty string; reads are not
    constrained. *)
Definition namedWrite (op : CacheOp) : Prop :=
  match op with
  | CacheWrite _ key _ => key <> EmptyString
  | CacheRead _ _ => True
  end.

(** One entry per key, no empty key, at most
    [EVENTBRITE_CACHE_MAX_ENTRIES] entries. *)
Definition cacheInvariant (m : MemoryCache) : Prop :=
  NoDup (cacheKeys m)
  /\ Forall (fun key => key <> EmptyString) (cacheKeys m)
  /\ (List.length m <= EVENTBRITE_CACHE_MAX_ENTRIES)%nat.


(** The order of numbers that are not [NaN]. *)
Definition num_le (a b : num) : Prop :=
  match a, b with
  | NaN, _ | _, NaN => False
  | NInf, _ => True
  | _, PInf => True
  | Fin x, Fin y => (x <= y)%Q
  | _, _ => False
  end.

(** [a] ranks at least as high as [b]. *)
Definition ranks_before (a b : ScoreEntry) : Prop := num_le (se_score b) (se_score a).

Definition comparable (entry : ScoreEntry) : Prop := se_score entry <> NaN.

(** The body carries no [NaN] score (no JSON text denotes one). *)
Definition comparableBody (body : ScoreBody) : Prop := sb_score body <> Some NaN.

(** The entry a body is accepted as. *)
Definition acceptedEntry (body : ScoreBody) : list ScoreEntry :=
  match sb_playerName body, sb_score body with
  | Some playerName, Some score => [mkScoreEntry playerName score]
  | _, _ => []
  end.

(** The leaderboard after the posts, from the empty one. *)
Definition leaderboardAfter (posts : list ScoreBody) : list ScoreEntry :=
  fold_left (fun leaderboard body => snd (post_score body leaderboard)) posts [].


(** A content line as a feed carries it: its first piece, and the pieces
    it was folded into after that. *)
Record FoldedLine : Type := mkFolded {
  fl_first : string;
  fl_rest : list string
}.

(** The strings of a list, one after the other. *)
Definition concat_strings (l : list string) : string :=
  fold_right append EmptyString l.

(** The content line itself. *)
Definition contentLine (line : FoldedLine) : string :=
  (fl_first line ++ concat_strings (fl_rest line))%string.

(** The lines of the text a folded line is written as: the pieces after
    the first stand behind one space. *)
Definition pieceLines (line : FoldedLine) : list string :=
  fl_first line :: map (String " ") (fl_rest line).

(** The text of a feed: every piece on a line of its own, every line
    closed by [ending]. *)
Definition foldedText (ending : string) (lines : list FoldedLine) : string :=
  concat_strings
    (map (fun raw => (raw ++ ending)%string) (List.concat (map pieceLines lines))).

Definition no_line_break (s : string) : bool :=
  string_forall (fun c => negb (Ascii.eqb c CR || Ascii.eqb c LF)) s.

(** No piece holds a line break, and the first piece is not empty and
    does not start with a space or a tab. *)
Definition wellFolded (line : FoldedLine) : Prop :=
  no_line_break (fl_first line) = true
  /\ Forall (fun piece => no_line_break piece = true) (fl_rest line)
  /\ non_empty (fl_first line) = true
  /\ starts_with (fun c => Ascii.eqb c " " || Ascii.eqb c TAB) (fl_first line) = false.

(** The three line endings a feed may use. *)
Definition lineEnding (ending : string) : Prop :=
  ending = String CR (String LF EmptyString)
  \/ ending = String LF EmptyString
  \/ ending = String CR EmptyString.


(** A raw event with an id whose [dates.start.dateTime] is a non-empty
    string that [Date] cannot read. *)
Definition unreadableTime {P : Platform} (raw : TmRaw) : Prop :=
  raw_id raw <> None
  /\ exists st dt,
       raw_start raw = Some st /\ ds_dateTime st = Some dt
       /\ non_empty dt = true /\ Date_parse dt = None.

Definition has_some {A : Type} (o : option A) : bool :=
  match o with Some _ => true | None => false end.


(** The hour of the 12-hour clock for an hour of the day. *)
Definition hour12 (hour : Z) : Z := if hour mod 12 =? 0 then 12 else hour mod 12.

(** A time of day written on the 12-hour clock: the hour, the minutes in
    two digits, [spacing], and [meridiem]. *)
Definition clockText (hour minute : Z) (spacing meridiem : string) : string :=
  (number_string (hour12 hour) ++ ":" ++ JsDate.pad 2 minute ++ spacing ++ meridiem)%string.

(** [meridiem] reads [am] before noon and [pm] from noon on, whatever
    its case and dots. *)
Definition meridiemOf (hour : Z) (meridiem : string) : Prop :=
  toLowerCase (remove_dots meridiem) = if hour <? 12 then "am"%string else "pm"%string.


(** A digit, white space or a colon: what neither [remove_dots] nor
    [toLowerCase] changes in a time of day. *)
Definition plain (c : ascii) : bool := is_digit c || is_space c || Ascii.eqb c ":".


(** The datasources the documents of the collection normalise to. *)
Definition firestoreSources (docs : option (list (string * RawDatasource))) : list Datasource :=
  match docs with
  | Some documents =>
      keep_some (map (fun doc => normalizeDatasource (docFields (fst doc) (snd doc))
                                   (Some (fst doc))) documents)
  | None => []
  end.

(** The datasources the local file normalises to. *)
Definition localSources (file : option (list RawDatasource)) : list Datasource :=
  match file with
  | Some list => keep_some (map (fun source => normalizeDatasource source (rd_id source)) list)
  | None => []
  end.

(** A datasource as the server keeps it: a normalised id that is not
    empty, a name and a type. *)
Definition wellFormedSource (source : Datasource) : Prop :=
  ds_id source <> EmptyString
  /\ wellShaped is_id_char 64 (ds_id source)
  /\ ds_name source <> EmptyString
  /\ ds_type source <> EmptyString.


(** [parseInt10] reads the decimal text of every integer [0..n] back. *)
Definition reads_back_to (n : nat) : bool :=
  forallb (fun k =>
             match parseInt10 (number_string (Z.of_nat k)) with
             | Fin q => Qeq_bool q (inject_Z (Z.of_nat k)) && (Qfloor q =? Z.of_nat k)
             | _ => false
             end)
          (seq 0 (S n)).


Section PreviewVocabulary.
Context {P : Platform}.

(** The context the preview route hands to the handler. *)
Definition previewContext (query : Query) (limitParam : option string) : PreviewContext :=
  mkPreviewContext
    (normalizeCoordinate (nullish_or (q_lat query) (q_latitude query)) 4)
    (normalizeCoordinate (nullish_or (q_lon query) (q_longitude query)) 4)
    (normalizeRadius (q_radius query))
    (normalizeDays (q_days query))
    (previewLimit limitParam).

(** The events the provider of [source] answered the preview's fetch
    with: the events of [fetchTicketmasterEvents] for a [ticketmaster]
    source, what [fetchBlackCatEvents], [fetchIcalEvents] or
    [fetchRssEvents] resolved to for a [blackcat], [ical] or [rss]
    source; [None] when the fetch failed or the type has no events. *)
Definition fetchedForPreview (w : PreviewWorld) (source : Source)
    (context : PreviewContext) : option (list Event) :=
  let resolved (fetched : Outcome (list Event)) :=
    match fetched with
    | Returned events => Some events
    | Threw _ => None
    end in
  if String.eqb (src_type source) "ticketmaster" then
    match fetchTicketmasterEvents (pw_ticketmaster w) (pc_radiusMiles context)
            (pc_lookaheadDays context) (src_segments source) true with
    | Returned fetched => Some (tp_events (tf_payload fetched))
    | Threw _ => None
    end
  else if String.eqb (src_type source) "blackcat" then resolved (pw_blackcat w context)
  else if String.eqb (src_type source) "ical" then resolved (pw_ical w source context)
  else if String.eqb (src_type source) "rss" then resolved (pw_rss w source context)
  else None.
End PreviewVocabulary.


(** A category that reads "museum" up to case and surrounding white
    space. *)
Definition readsMuseum (genre : string) : Prop :=
  toLowerCase (trim genre) = "museum"%string.

(** The categories [parseRssEventItem] reads the genres of an item from. *)
Definition rssCategories (sourceId : string) (parsedCategories categoryTags : list string)
  : list string :=
  if String.eqb sourceId "smithsonian" then
    match parsedCategories with
    | [] => categoryTags
    | _ => parsedCategories
    end
  else categoryTags.

(** The categories that do not look like a date, in the order given. *)
Definition notDateLike (categories : list string) : list string :=
  filter (fun category => negb (isCategoryDateLike category)) categories.




(** ** Sample data *)

Module Samples.

Definition event (id : string) (source : option string) (local utc : option string)
    (distance : option Q) : Event :=
  mkEvent (Some id) "Show" (Some (mkStart local utc)) EmptyString None distance source [].

(** 2024-01-02 is a Tuesday. *)
Definition tuesdayMatinee : Event :=
  event "tm-1" (Some "ticketmaster"%string) (Some (localTimestamp 2024 1 2 15 0)) None None.

Definition tuesdayEvening : Event :=
  event "tm-2" (Some "ticketmaster"%string) (Some (localTimestamp 2024 1 2 19 0)) None None.

Definition rssMatinee : Event :=
  event "rss-1" (Some "smithsonian"%string) (Some (localTimestamp 2024 1 2 15 0)) None None.

Definition unsourcedMatinee : Event :=
  event "x-1" None (Some (localTimestamp 2024 1 2 15 0)) None None.

End Samples.

Module SortSamples.
Import Samples.

Definition utcLater : Event := event "a" (Some "rss"%string) None (Some "2024-01-03"%string) None.
Definition localEarlier : Event := event "b" (Some "blackcat"%string) (Some "2024-01-01"%string) None None.

Definition third : Event :=
  event "e3" (Some "rss"%string) (Some "2024-01-03"%string) (Some "2024-01-03"%string) None.
Definition first : Event :=
  event "e1" (Some "rss"%string) (Some "2024-01-01"%string) (Some "2024-01-01"%string) None.
Definition undated : Event := event "e0" (Some "rss"%string) None None None.
Definition undatedToo : Event := event "e9" (Some "rss"%string) None None None.

End SortSamples.


Module RouteSamples.
Import Samples.

Definition query : Query :=
  mkQuery (Some "38.9"%string) None (Some "-77.04"%string) None None None.

Definition a1 : Event :=
  event "a-1" (Some "feed-a"%string) (Some "2024-01-06T20:00:00.000Z"%string)
        (Some "2024-01-06T20:00:00.000Z"%string) None.
Definition a2 : Event :=
  event "a-2" (Some "feed-a"%string) (Some "2024-01-05T20:00:00.000Z"%string)
        (Some "2024-01-05T20:00:00.000Z"%string) None.

Definition sourceA : Source := mkSource "feed-a" "Feed A" "rss" true [].
Definition sourceB : Source := mkSource "feed-b" "Feed B" "ical" true [].
Definition disabled : Source := mkSource "ticketmaster" "Ticketmaster" "ticketmaster" false [].
Definition keyless : Source := mkSource "ticketmaster" "Ticketmaster" "ticketmaster" true [].

Definition upstreamDown : JsError := mkError "iCal request failed: 503" (Some 503) None [].

(** Provider A answers with two events, provider B's request fails, and
    no Ticketmaster key is configured. *)
Definition world : World :=
  mkWorld
    (mkTmWorld EmptyString None 0 (fun _ => Threw upstreamDown))
    (fun type =>
       if String.eqb type "rss"
       then Some (fun _ _ => Returned (mkHandlerResult (Some [a1; a2]) false []))
       else if String.eqb type "ical"
            then Some (fun _ _ => Threw upstreamDown)
            else None)
    1704222000000.

End RouteSamples.


Module MergeSamples.
Import Samples.

Definition rock : Event :=
  event "E1" (Some "ticketmaster"%string) (Some "2024-01-05T20:00:00.000Z"%string)
        (Some "2024-01-05T20:00:00.000Z"%string) (Some 3%Q).
Definition variety : Event :=
  event "E2" (Some "ticketmaster"%string) (Some "2024-01-06T20:00:00.000Z"%string)
        (Some "2024-01-06T20:00:00.000Z"%string) (Some 5%Q).
(** The same event id again, listed under comedy. *)
Definition varietyAgain : Event :=
  mkEvent (Some "E2"%string) "Show (comedy listing)" (ev_start variety) EmptyString
          (Some "comedy"%string) (Some 5%Q) (Some "ticketmaster"%string) [].
Definition standup : Event :=
  event "E3" (Some "ticketmaster"%string) (Some "2024-01-07T20:00:00.000Z"%string)
        (Some "2024-01-07T20:00:00.000Z"%string) None.

Definition rateLimited : JsError := mkError "Too many requests" (Some 429) None [].

(** Both segments answer; E2 is listed under both. *)
Definition bothAnswer : TmWorld :=
  mkTmWorld "key" None 1704222000000
    (fun segment =>
       if String.eqb (seg_key segment) "music"
       then Returned (mkSegmentResult [rock; variety] 200)
       else Returned (mkSegmentResult [varietyAgain; standup] 200)).

(** Music fails, comedy answers. *)
Definition musicFails : TmWorld :=
  mkTmWorld "key" None 1704222000000
    (fun segment =>
       if String.eqb (seg_key segment) "music"
       then Threw rateLimited
       else Returned (mkSegmentResult [varietyAgain; standup] 200)).

(** Every segment fails. *)
Definition allFail : TmWorld :=
  mkTmWorld "key" None 1704222000000 (fun _ => Threw rateLimited).

End MergeSamples.


Module FormatSamples.

(** An event Ticketmaster lists with a local date and time only. *)
Definition localOnly : TmRaw :=
  mkTmRaw (Some "G5vYZ9"%string) "Evening show"
    (Some (mkDatesStart None (Some "2024-01-02"%string) (Some "19:00:00"%string)))
    "https://www.ticketmaster.com/event/G5vYZ9" None None.

(** An event whose classifications name "Rock" and "rock". *)
Definition rockTwice : TmRaw :=
  mkTmRaw (Some "G5vYZ8"%string) "Rock night"
    (Some (mkDatesStart (Some "2024-01-05T20:00:00Z"%string) (Some "2024-01-05"%string)
                        (Some "15:00:00"%string)))
    "https://www.ticketmaster.com/event/G5vYZ8" (Some 4%Q)
    (Some [ mkClassification (Some "Music"%string) (Some "Rock"%string)
                             (Some " rock "%string) None (Some "Rock"%string) ]).

End FormatSamples.


Module CutoffSamples.
Import Samples.

Definition ticketmaster : Source :=
  mkSource "ticketmaster" "Ticketmaster" "ticketmaster" true [].
Definition smithsonian : Source := mkSource "smithsonian" "Smithsonian" "rss" true [].

(** Ticketmaster lists the Tuesday show at 15:00 and at 19:00 under
    music; the RSS feed lists a Tuesday 15:00 event. *)
Definition world : World :=
  mkWorld
    (mkTmWorld "key" None 1704100000000
       (fun segment =>
          if String.eqb (seg_key segment) "music"
          then Returned (mkSegmentResult [tuesdayMatinee; tuesdayEvening] 200)
          else Returned (mkSegmentResult [] 200)))
    (fun type =>
       if String.eqb type "rss"
       then Some (fun _ _ => Returned (mkHandlerResult (Some [rssMatinee]) false []))
       else None)
    1704100000000.

Definition query : Query :=
  mkQuery (Some "38.9"%string) None (Some "-77.04"%string) None None None.

End CutoffSamples.


Module PreviewSamples.
Import Samples.

Definition improv : Source := mkSource "dcimprov" "DC Improv" "dcimprov" true [].

Definition withoutCoordinates : Query := mkQuery None None None None None None.

(** The RSS feed answers with two events; no Ticketmaster key is
    configured; the other requests fail. *)
Definition world : PreviewWorld :=
  mkPreviewWorld
    (mkTmWorld EmptyString None 0 (fun _ => Threw RouteSamples.upstreamDown))
    (fun _ => Threw RouteSamples.upstreamDown)
    (fun _ _ => Threw RouteSamples.upstreamDown)
    (fun _ _ => Returned [RouteSamples.a1; RouteSamples.a2])
    (fun _ => Threw RouteSamples.upstreamDown)
    1704222000000.

End PreviewSamples.


Module CacheSamples.

Definition answer : CachedResponse := mkCachedResponse 200 "{}".

(** Writes under the keys [000], [001], ... *)
Definition fill (n : nat) : list CacheOp :=
  map (fun i => CacheWrite 0 (JsDate.pad 3 (Z.of_nat i)) answer) (seq 0 n).

Definition two : MemoryCache :=
  [("a"%string, mkCacheEntry 0 answer); ("b"%string, mkCacheEntry 5 answer)].

End CacheSamples.


Module GameSamples.

Definition ann : ScoreBody := mkScoreBody (Some "ann"%string) (Some (Fin 10)).
Definition bob : ScoreBody := mkScoreBody (Some "bob"%string) (Some (Fin 30)).
Definition nameless : ScoreBody := mkScoreBody None (Some (Fin 50)).
Definition cy : ScoreBody := mkScoreBody (Some "cy"%string) (Some (Fin 10)).

Definition scoredTen (entry : ScoreEntry) : bool :=
  match se_score entry with
  | Fin q => Qeq_bool q 10
  | _ => false
  end.

End GameSamples.


Module IcalSamples.

Definition summary : FoldedLine := mkFolded "SUMMARY:Jazz" ["Night"; " at the Hall"]%string.
Definition closing : FoldedLine := mkFolded "END:VEVENT" [].

End IcalSamples.


Module SegmentSamples.

Definition music : Segment := mkSegment "music" "Live music".

Definition undatable : TmRaw :=
  mkTmRaw (Some "G5v0"%string) "Mystery Show"
    (Some (mkDatesStart (Some "soon"%string) None None))
    "https://example.test/mystery" None None.

Definition healthy : TmResponse :=
  mkTmResponse true 200 "{...}" (Some [FormatSamples.rockTwice; FormatSamples.localOnly]).

Definition poisoned : TmResponse :=
  mkTmResponse true 200 "{...}" (Some [FormatSamples.rockTwice; undatable]).

End SegmentSamples.


Module DatasourceSamples.

Definition document (name : string) : RawDatasource :=
  mkRawDatasource None None (Some name) (Some "RSS"%string) None None (Some 2%Q).

Definition localEntry (id : string) : RawDatasource :=
  mkRawDatasource (Some id) None None (Some "ical"%string) (Some false) None None.

Definition docs : option (list (string * RawDatasource)) :=
  Some [("Smithsonian Events!"%string, document " Smithsonian ")].

Definition file : option (list RawDatasource) :=
  Some [localEntry "smithsonian-events"; localEntry "Black Cat"].

(** A document whose id is cut at 64 characters, behind a hyphen. *)
Definition cut : option (list (string * RawDatasource)) :=
  Some [("aaaaaaaaaaaaaaaaaaaaaaaaaaaaaaaaaaaaaaaaaaaaaaaaaaaaaaaaaaaaaaa b"%string, document "Long")].

(** Two documents whose ids differ by case only. *)
Definition twins : option (list (string * RawDatasource)) :=
  Some [("foo"%string, document "First"); ("Foo"%string, document "Second")].

End DatasourceSamples.


Module MatineeSamples.

(** Two shows in New York on Tuesday 2024-01-02 as Ticketmaster lists
    them: a matinee at 15:00 (20:00 UTC) and an evening show at 19:00
    (00:00 UTC on Wednesday). *)
Definition matinee : TmRaw :=
  mkTmRaw (Some "tm-matinee"%string) "Matinee"
    (Some (mkDatesStart (Some "2024-01-02T20:00:00Z"%string) (Some "2024-01-02"%string)
                        (Some "15:00:00"%string)))
    "https://www.ticketmaster.com/event/tm-matinee" (Some 4%Q) None.

Definition evening : TmRaw :=
  mkTmRaw (Some "tm-evening"%string) "Evening show"
    (Some (mkDatesStart (Some "2024-01-03T00:00:00Z"%string) (Some "2024-01-02"%string)
                        (Some "19:00:00"%string)))
    "https://www.ticketmaster.com/event/tm-evening" (Some 4%Q) None.

Definition response : TmResponse := mkTmResponse true 200 "{...}" (Some [matinee; evening]).

(** The music segment answers with the two shows; the other segments
    answer with no event; no other provider is enabled. *)
Definition world : World :=
  mkWorld
    (mkTmWorld "key" None 1704100000000
       (fun segment =>
          if String.eqb (seg_key segment) "music"
          then fetchTicketmasterSegment (P := Reference.platform) response segment
          else Returned (mkSegmentResult [] 200)))
    (fun _ => None)
    1704100000000.

Definition ticketmaster : Source :=
  mkSource "ticketmaster" "Ticketmaster" "ticketmaster" true [].

Definition query : Query :=
  mkQuery (Some "38.9"%string) None (Some "-77.04"%string) None None None.

End MatineeSamples.


Module FeedSamples.




(** An item without any date. *)
Definition undated : RssItem :=
  mkRssItem [] "soon" None ["Talks"%string] [] [] 2024.

End FeedSamples.


(** * Properties *)

(** ** Strings *)

Lemma non_empty_false (s : string) : non_empty s = false <-> s = EmptyString.
Proof. destruct s; simpl; split; congruence. Qed.

Lemma non_empty_true (s : string) : non_empty s = true <-> s <> EmptyString.
Proof. destruct s; simpl; split; congruence. Qed.

(** ** The sort returns its input, rearranged *)

Section SortFacts.
Context {A : Type} (cmp : A -> A -> comparison).

Lemma insert_sorted_perm (x : A) (l : list A) :
  Permutation (x :: l) (insert_sorted cmp x l).
Proof.
  induction l as [|y r IH]; simpl.
  - apply Permutation_refl.
  - destruct (cmp x y); try apply Permutation_refl.
    eapply perm_trans; [apply perm_swap|].
    now apply perm_skip.
Qed.

Lemma js_sort_perm (l : list A) : Permutation l (js_sort cmp l).
Proof.
  induction l as [|x r IH]; simpl.
  - constructor.
  - eapply perm_trans; [|apply insert_sorted_perm].
    now apply perm_skip.
Qed.

Lemma js_sort_In (l : list A) (x : A) : In x (js_sort cmp l) <-> In x l.
Proof.
  split; intro H.
  - eapply Permutation_in; [apply Permutation_sym, js_sort_perm | exact H].
  - eapply Permutation_in; [apply js_sort_perm | exact H].
Qed.
End SortFacts.

(** ** The weekday cutoff *)

Lemma source_gate (event : Event) :
  truthy (ev_source event)
  && negb (String.eqb (match ev_source event with Some s => s | None => EmptyString end)
                      "ticketmaster") = false
  <-> subjectSource (ev_source event).
Proof.
  unfold subjectSource.
  destruct (ev_source event) as [s|]; [|split; auto].
  destruct s as [|c r]; [split; auto|].
  unfold truthy; cbn [non_empty]; rewrite andb_true_l.
  destruct (String.eqb_spec (String c r) "ticketmaster") as [E|E]; cbn [negb].
  - split; auto. intros _. right. right. now rewrite E.
  - split; [discriminate|].
    intros [H|[H|H]]; try discriminate. inversion H. congruence.
Qed.

Lemma startParts_some (event : Event) (p : LocalParts) :
  startParts event = Some p -> non_empty (getEventStartValue event) = true.
Proof.
  unfold startParts, parseEventLocalParts.
  destruct (non_empty (getEventStartValue event)); [reflexivity|discriminate].
Qed.

(** The predicate, in the words of the rule. *)
Lemma isWeekdayBeforeCutoff_true (event : Event) :
  isWeekdayBeforeCutoff event = true <->
  subjectSource (ev_source event) /\
  exists p wd h mi,
    startParts event = Some p /\ weekdayOf p = Some wd /\ isWeekday wd /\
    p_hour p = Some h /\ p_minute p = Some mi /\ beforeCutoff h mi.
Proof.
  unfold isWeekdayBeforeCutoff.
  pose proof (source_gate event) as G.
  destruct (truthy (ev_source event) && _) eqn:Egate.
  - split; [discriminate|]. intros [S _]. apply G in S. discriminate.
  - assert (S : subjectSource (ev_source event)) by now apply G.
    fold (startParts event). 
    destruct (non_empty (getEventStartValue event)) eqn:Eraw; simpl.
    + destruct (startParts event) as [p|] eqn:Ep.
      * fold (weekdayOf p).
        destruct (weekdayOf p) as [wd|] eqn:Ewd.
        -- destruct ((1 <=? wd) && (wd <=? 5)) eqn:Eweek; simpl.
           ++ apply andb_true_iff in Eweek. destruct Eweek as [W1 W2].
              apply Z.leb_le in W1. apply Z.leb_le in W2.
              destruct (p_hour p) as [h|] eqn:Eh; [destruct (p_minute p) as [mi|] eqn:Emi|].
              ** unfold WEEKDAY_CUTOFF_HOUR, WEEKDAY_CUTOFF_MINUTE.
                 destruct (h <? 16) eqn:H1.
                 { apply Z.ltb_lt in H1. split; auto. intros _. split; auto.
                   exists p, wd, h, mi. unfold isWeekday, beforeCutoff, WEEKDAY_CUTOFF_HOUR.
                   repeat split; auto; lia. }
                 apply Z.ltb_ge in H1.
                 destruct ((h =? 16) && (mi <? 30)) eqn:H2.
                 { apply andb_true_iff in H2. destruct H2 as [H2 H3].
                   apply Z.eqb_eq in H2. apply Z.ltb_lt in H3.
                   split; auto. intros _. split; auto.
                   exists p, wd, h, mi.
                   unfold isWeekday, beforeCutoff, WEEKDAY_CUTOFF_HOUR, WEEKDAY_CUTOFF_MINUTE.
                   repeat split; auto; lia. }
                 split; [discriminate|].
                 intros [_ (p' & wd' & h' & mi' & Hp & _ & _ & Hh & Hm & Hb)].
                 inversion Hp; subst p'. rewrite Eh in Hh. rewrite Emi in Hm.
                 inversion Hh; inversion Hm; subst.
                 unfold beforeCutoff, WEEKDAY_CUTOFF_HOUR, WEEKDAY_CUTOFF_MINUTE in Hb.
                 apply andb_false_iff in H2.
                 destruct H2 as [H2|H2]; [apply Z.eqb_neq in H2|apply Z.ltb_ge in H2]; lia.
              ** split; [discriminate|].
                 intros [_ (p' & wd' & h' & mi' & Hp & _ & _ & _ & Hm & _)].
                 inversion Hp; subst p'. congruence.
              ** split; [discriminate|].
                 intros [_ (p' & wd' & h' & mi' & Hp & _ & _ & Hh & _)].
                 inversion Hp; subst p'. congruence.
           ++ split; [discriminate|].
              intros [_ (p' & wd' & h' & mi' & Hp & Hw & Hwk & _)].
              inversion Hp; subst p'. rewrite Ewd in Hw. inversion Hw; subst wd'.
              unfold isWeekday in Hwk.
              apply andb_false_iff in Eweek.
              destruct Eweek as [E|E]; apply Z.leb_gt in E; lia.
        -- split; [discriminate|].
           intros [_ (p' & wd' & h' & mi' & Hp & Hw & _)].
           inversion Hp; subst p'. congruence.
      * split; [discriminate|].
        intros [_ (p' & wd' & h' & mi' & Hp & _)]. discriminate.
    + split; [discriminate|].
      intros [_ (p' & wd' & h' & mi' & Hp & _)].
      apply startParts_some in Hp. congruence.
Qed.

Lemma isWeekdayBeforeCutoff_false (event : Event) :
  isWeekdayBeforeCutoff event = false <-> ~ (isWeekdayBeforeCutoff event = true).
Proof. destruct (isWeekdayBeforeCutoff event); split; congruence. Qed.

Lemma applyWeekdayCutoff_In (events : list Event) (event : Event) :
  In event (applyWeekdayCutoff events) <->
  In event events /\ isWeekdayBeforeCutoff event = false.
Proof.
  unfold applyWeekdayCutoff. rewrite filter_In.
  now rewrite negb_true_iff.
Qed.

Lemma showsEvents_In {P : Platform} (events : list Event) (event : Event) :
  In event (showsEvents events) <->
  In event events /\ isWeekdayBeforeCutoff event = false.
Proof.
  unfold showsEvents, sortEventsByTimeAndDistance.
  rewrite js_sort_In. apply applyWeekdayCutoff_In.
Qed.

(** ** Reading back a timestamp the adapters wrote *)

Lemma digit_char_spec (n : Z) :
  is_digit (JsDate.digit_char n) = true /\ digit_val (JsDate.digit_char n) = n mod 10.
Proof.
  unfold JsDate.digit_char.
  assert (B : 0 <= n mod 10 < 10) by (apply Z.mod_pos_bound; lia).
  set (k := n mod 10) in *.
  assert (C : k = 0 \/ k = 1 \/ k = 2 \/ k = 3 \/ k = 4 \/ k = 5 \/ k = 6
              \/ k = 7 \/ k = 8 \/ k = 9) by lia.
  clearbody k.
  repeat (destruct C as [C|C]; [subst k; split; reflexivity|]).
  subst k; split; reflexivity.
Qed.

Lemma string_app_assoc (a b c : string) : ((a ++ b) ++ c = a ++ (b ++ c))%string.
Proof. induction a as [|x a IH]; simpl; [reflexivity|now rewrite IH]. Qed.

Lemma digits_from_pad (w k : nat) (acc v : Z) (s : string) :
  0 <= v < 10 ^ Z.of_nat w ->
  digits_from (w + k) acc (JsDate.pad w v ++ s)
  = digits_from k (acc * 10 ^ Z.of_nat w + v) s.
Proof.
  revert k acc v s.
  induction w as [|w IH]; intros k acc v s Hv.
  - simpl in *. f_equal. lia.
  - cbn [JsDate.pad]. rewrite string_app_assoc. cbn [append].
    replace (S w + k)%nat with (w + S k)%nat by lia.
    assert (Hpow : 10 ^ Z.of_nat (S w) = 10 * 10 ^ Z.of_nat w).
    { rewrite Nat2Z.inj_succ, Z.pow_succ_r; lia. }
    rewrite IH.
    + cbn [digits_from].
      destruct (digit_char_spec v) as [D1 D2]. rewrite D1, D2.
      f_equal. rewrite Hpow.
      pose proof (Z.div_mod v 10 ltac:(lia)). lia.
    + rewrite Hpow in Hv. split.
      * apply Z.div_pos; lia.
      * apply Z.div_lt_upper_bound; lia.
Qed.

Lemma digits_pad (w : nat) (v : Z) (s : string) :
  0 <= v < 10 ^ Z.of_nat w ->
  digits w (JsDate.pad w v ++ s) = Some (v, s).
Proof.
  intros Hv. unfold digits.
  replace w with (w + 0)%nat at 1 by lia.
  rewrite digits_from_pad by exact Hv. reflexivity.
Qed.

Lemma expect_same (c : ascii) (s : string) : expect c (String c s) = Some s.
Proof. unfold expect. now rewrite Ascii.eqb_refl. Qed.

Lemma match_time_group_pad (h mi : Z) (rest : string) :
  0 <= h < 100 -> 0 <= mi < 100 ->
  match_time_group (String "T" (JsDate.pad 2 h ++ String ":" (JsDate.pad 2 mi ++ rest)))
  = Some (h, mi).
Proof.
  intros Hh Hmi. unfold match_time_group.
  change (Ascii.eqb "T" "T" || Ascii.eqb "T" "t" || Ascii.eqb "T" " ") with true.
  cbv iota.
  rewrite digits_pad by (simpl; lia). rewrite expect_same.
  rewrite digits_pad by (simpl; lia). reflexivity.
Qed.

Lemma match_local_at_timestamp (y m d h mi : Z) :
  0 <= y < 10000 -> 0 <= m < 100 -> 0 <= d < 100 -> 0 <= h < 100 -> 0 <= mi < 100 ->
  match_local_at (localTimestamp y m d h mi) = Some (mkParts y m d (Some h) (Some mi)).
Proof.
  intros Hy Hm Hd Hh Hmi. unfold match_local_at, localTimestamp.
  rewrite digits_pad by (simpl; lia). cbn [append]. rewrite expect_same.
  rewrite digits_pad by (simpl; lia). cbn [append]. rewrite expect_same.
  rewrite digits_pad by (simpl; lia). cbn [append].
  rewrite match_time_group_pad by assumption. reflexivity.
Qed.

(** A timestamp [YYYY-MM-DDTHH:MM:00] is read back field by field. *)
Lemma parse_localTimestamp (y m d h mi : Z) :
  0 <= y < 10000 -> 0 <= m < 100 -> 0 <= d < 100 -> 0 <= h < 100 -> 0 <= mi < 100 ->
  parseEventLocalParts (localTimestamp y m d h mi)
  = Some (mkParts y m d (Some h) (Some mi)).
Proof.
  intros Hy Hm Hd Hh Hmi.
  pose proof (match_local_at_timestamp y m d h mi Hy Hm Hd Hh Hmi) as M.
  unfold parseEventLocalParts.
  destruct (localTimestamp y m d h mi) as [|c r] eqn:E.
  - discriminate M.
  - cbn [non_empty]. cbn [match_local]. rewrite M. reflexivity.
Qed.

(** ** The order of the sort *)

Lemma Qcompare_inject_Z (a b : Z) : (inject_Z a ?= inject_Z b)%Q = (a ?= b).
Proof. unfold Qcompare, inject_Z; simpl. now rewrite !Z.mul_1_r. Qed.

Lemma Qeq_bool_inject_Z (a b : Z) : Qeq_bool (inject_Z a) (inject_Z b) = (a =? b).
Proof. unfold Qeq_bool, inject_Z; simpl. now rewrite !Z.mul_1_r. Qed.

Section SortOrder.
Context {P : Platform}.

Lemma eventTime_resolved (e : Event) :
  match resolvedTime e with
  | Some t => eventTime e = Fin (inject_Z t)
  | None => isFinite (eventTime e) = false
  end.
Proof.
  unfold resolvedTime, eventTime, parseTime, truthy.
  destruct (ev_start e) as [st|]; [|reflexivity].
  destruct (st_utc st) as [u|].
  - destruct (non_empty u).
    + destruct (Date_parse u); reflexivity.
    + destruct (st_local st) as [l|]; [|reflexivity].
      destruct (non_empty l); [|reflexivity].
      destruct (Date_parse l); reflexivity.
  - destruct (st_local st) as [l|]; [|reflexivity].
    destruct (non_empty l); [|reflexivity].
    destruct (Date_parse l); reflexivity.
Qed.

Lemma byDistance_le (a b : Event) :
  sub_sign (eventDistance a) (eventDistance b) <> Gt <-> distance_le a b.
Proof.
  unfold eventDistance, distance_le.
  destruct (ev_distance a) as [x|], (ev_distance b) as [y|]; simpl.
  - symmetry. apply Qle_alt.
  - split; [auto|discriminate].
  - split; [congruence|tauto].
  - split; [auto|discriminate].
Qed.

(** The comparator says "not after" exactly when the order holds. *)
Lemma compareEvents_le (a b : Event) :
  compareEvents a b <> Gt <-> event_le a b.
Proof.
  unfold compareEvents, event_le.
  pose proof (eventTime_resolved a) as Ha.
  pose proof (eventTime_resolved b) as Hb.
  destruct (resolvedTime a) as [ta|], (resolvedTime b) as [tb|].
  - rewrite Ha, Hb. cbn [isFinite andb num_neq sub_sign].
    rewrite Qeq_bool_inject_Z, Qcompare_inject_Z.
    destruct (Z.eqb_spec ta tb) as [E|E]; cbn [negb].
    + rewrite byDistance_le. split; [auto|]. intros [H|[_ H]]; [lia|exact H].
    + rewrite Z.compare_gt_iff. split; [intros; left; lia|].
      intros [H|[H _]]; lia.
  - rewrite Ha. cbn [isFinite andb]. rewrite Hb. split; [auto|discriminate].
  - rewrite Hb. destruct (eventTime a); try discriminate Ha; cbn [isFinite andb];
      split; congruence || tauto.
  - rewrite Ha, Hb. cbn [andb]. apply byDistance_le.
Qed.

Lemma distance_le_total (a b : Event) : distance_le a b \/ distance_le b a.
Proof.
  unfold distance_le.
  destruct (ev_distance a) as [x|], (ev_distance b) as [y|]; auto.
  destruct (Qlt_le_dec x y) as [H|H]; [left; now apply Qlt_le_weak|right; exact H].
Qed.

Lemma distance_le_trans (a b c : Event) :
  distance_le a b -> distance_le b c -> distance_le a c.
Proof.
  unfold distance_le.
  destruct (ev_distance a) as [x|], (ev_distance b) as [y|], (ev_distance c) as [z|];
    try tauto.
  apply Qle_trans.
Qed.

Lemma event_le_total (a b : Event) : event_le a b \/ event_le b a.
Proof.
  unfold event_le.
  destruct (resolvedTime a) as [ta|], (resolvedTime b) as [tb|]; auto.
  - destruct (Z.lt_trichotomy ta tb) as [H|[H|H]]; auto.
    destruct (distance_le_total a b); [left|right]; right; auto.
  - apply distance_le_total.
Qed.

Lemma event_le_trans (a b c : Event) : event_le a b -> event_le b c -> event_le a c.
Proof.
  unfold event_le.
  destruct (resolvedTime a) as [ta|], (resolvedTime b) as [tb|],
           (resolvedTime c) as [tc|]; try tauto.
  - intros [H1|[H1 D1]] [H2|[H2 D2]]; try (left; lia).
    right. split; [lia|]. eapply distance_le_trans; eauto.
  - apply distance_le_trans.
Qed.

Lemma compareEvents_Gt (a b : Event) : compareEvents a b = Gt -> event_le b a.
Proof.
  intros H. destruct (event_le_total a b) as [L|L]; [|exact L].
  apply compareEvents_le in L. contradiction.
Qed.

Lemma insert_sorted_HdRel (y x : Event) (l : list Event) :
  event_le y x -> HdRel event_le y l ->
  HdRel event_le y (insert_sorted compareEvents x l).
Proof.
  intros Hyx Hl. destruct l as [|z r]; simpl.
  - now constructor.
  - inversion Hl; subst. destruct (compareEvents x z); now constructor.
Qed.

Lemma insert_sorted_Sorted (x : Event) (l : list Event) :
  Sorted event_le l -> Sorted event_le (insert_sorted compareEvents x l).
Proof.
  induction l as [|y r IH]; intros Hs; simpl.
  - repeat constructor.
  - inversion Hs as [|? ? Hr Hhd]; subst.
    destruct (compareEvents x y) eqn:E.
    + constructor; [exact Hs|]. constructor. apply compareEvents_le. congruence.
    + constructor; [exact Hs|]. constructor. apply compareEvents_le. congruence.
    + constructor; [now apply IH|].
      apply insert_sorted_HdRel; [now apply compareEvents_Gt|exact Hhd].
Qed.

Lemma sortEvents_Sorted (events : list Event) :
  Sorted event_le (sortEventsByTimeAndDistance events).
Proof.
  unfold sortEventsByTimeAndDistance.
  induction events as [|x r IH]; simpl; [constructor|].
  now apply insert_sorted_Sorted.
Qed.

(** C2, amended. The sort returns the events it was given, ordered by
    resolved start time ascending, where the resolved time of an event
    is its UTC time when it has one and its local time otherwise; events
    with no parseable time come last; ties are broken by distance
    ascending, a missing distance last. *)
Theorem sort_by_resolved_time (events : list Event) :
  Permutation events (sortEventsByTimeAndDistance events)
  /\ StronglySorted event_le (sortEventsByTimeAndDistance events).
Proof.
  split.
  - apply js_sort_perm.
  - apply Sorted_StronglySorted.
    + intros a b c. apply event_le_trans.
    + apply sortEvents_Sorted.
Qed.
End SortOrder.

(** The spec's example: start times [2024-01-03, 2024-01-01, null] come
    out as [2024-01-01, 2024-01-03, null]. *)
Lemma sort_example :
  sortEventsByTimeAndDistance (P := Reference.platform)
    [SortSamples.third; SortSamples.first; SortSamples.undated]
  = [SortSamples.first; SortSamples.third; SortSamples.undated].
Proof. reflexivity. Qed.

(** C2 as worded fails: an event with only a local time (2024-01-01)
    is placed before an event with a parseable UTC time (2024-01-03). *)
Lemma sort_utc_tier_counterexample :
  ~ utcTierFirst (P := Reference.platform)
      (sortEventsByTimeAndDistance (P := Reference.platform)
         [SortSamples.utcLater; SortSamples.localEarlier]).
Proof.
  intros H.
  assert (L : (1 < 0)%nat).
  { apply (H 1%nat 0%nat SortSamples.utcLater SortSamples.localEarlier).
    - reflexivity.
    - reflexivity.
    - exists (mkStart None (Some "2024-01-03"%string)), "2024-01-03"%string, 1704240000000.
      repeat split.
    - exists (mkStart (Some "2024-01-01"%string) None), "2024-01-01"%string, 1704067200000.
      repeat split. }
  lia.
Qed.

(** ** Query normalisation *)

Lemma parseInt10_integral (s : string) (q : Q) :
  parseInt10 s = Fin q -> q = inject_Z (Qfloor q).
Proof.
  unfold parseInt10.
  destruct (match trim_start s with
            | String "-" r => (true, r)
            | String "+" r => (false, r)
            | _ => (false, trim_start s)
            end) as [negative body].
  destruct (starts_with_digit body); [|discriminate].
  destruct (double_overflow <=? digit_run 0 body).
  - destruct negative; discriminate.
  - intros H. inversion H. now rewrite Qfloor_Z.
Qed.

Lemma clampDays_range (value : option string) : 1 <= clampDays value <= 31.
Proof.
  unfold clampDays, TICKETMASTER_DEFAULT_DAYS.
  destruct value as [s|]; [|lia].
  destruct (non_empty s); simpl; [|lia].
  destruct (parseInt10 s); lia.
Qed.

Lemma normalizeDays_clampDays (value : option string) :
  normalizeDays value = clampDays value.
Proof.
  unfold normalizeDays. pose proof (clampDays_range value) as R.
  destruct (Z.eqb_spec (clampDays value) 0); [lia|reflexivity].
Qed.

Lemma clamp_radius_range (r : Q) :
  (1 <= Qmin (Qmax r 1) TICKETMASTER_MAX_RADIUS_MILES <= 150)%Q.
Proof.
  unfold TICKETMASTER_MAX_RADIUS_MILES. split.
  - apply Q.min_glb; [apply Q.le_max_r|discriminate].
  - apply Q.le_min_r.
Qed.

(** C4, amended. The radius is clamped into 1..150 miles and is 50 when
    absent, unreadable or not positive; the day window is clamped into
    1..31 days (not 1..60) and is 14 when absent, empty or without a
    leading integer. *)
Theorem query_normalisation {P : Platform} (radius days : option string) :
  (1 <= normalizeRadius radius <= 150)%Q
  /\ (forall r, parseNumberQuery radius = Some r -> (0 < r)%Q ->
                normalizeRadius radius = Qmin (Qmax r 1) 150)
  /\ (parseNumberQuery radius = None
      \/ (exists r, parseNumberQuery radius = Some r /\ (r <= 0)%Q) ->
      normalizeRadius radius = 50%Q)
  /\ 1 <= normalizeDays days <= 31
  /\ (forall s n, days = Some s -> s <> EmptyString -> parseInt10 s = Fin (inject_Z n) ->
                  normalizeDays days = Z.min (Z.max n 1) 31)
  /\ (days = None \/ days = Some EmptyString
      \/ (exists s, days = Some s /\ isFinite (parseInt10 s) = false) ->
      normalizeDays days = 14).
Proof.
  repeat split.
  - unfold normalizeRadius, TICKETMASTER_DEFAULT_RADIUS.
    destruct (parseNumberQuery radius) as [r|]; [|discriminate].
    destruct (Qlt_le_dec 0 r); [apply clamp_radius_range|discriminate].
  - unfold normalizeRadius, TICKETMASTER_DEFAULT_RADIUS.
    destruct (parseNumberQuery radius) as [r|]; [|discriminate].
    destruct (Qlt_le_dec 0 r); [apply clamp_radius_range|discriminate].
  - intros r Hr Hpos. unfold normalizeRadius. rewrite Hr.
    destruct (Qlt_le_dec 0 r) as [_|H]; [reflexivity|].
    exfalso. apply (Qlt_irrefl 0). eapply Qlt_le_trans; eauto.
  - intros [H|[r [H Hr]]]; unfold normalizeRadius; rewrite H; [reflexivity|].
    destruct (Qlt_le_dec 0 r) as [H0|_]; [|reflexivity].
    exfalso. apply (Qlt_irrefl 0). eapply Qlt_le_trans; eauto.
  - rewrite normalizeDays_clampDays. apply clampDays_range.
  - rewrite normalizeDays_clampDays. apply clampDays_range.
  - intros s n Hs Hne Hp. rewrite normalizeDays_clampDays. subst days.
    unfold clampDays. apply non_empty_true in Hne. rewrite Hne. cbn [negb].
    rewrite Hp. now rewrite Qfloor_Z.
  - intros H. rewrite normalizeDays_clampDays. unfold clampDays.
    destruct H as [H|[H|[s [H Hf]]]]; subst days; try reflexivity.
    destruct (non_empty s); [|reflexivity]. cbn [negb].
    destruct (parseInt10 s); try reflexivity. discriminate.
Qed.

(** C4 as worded fails on the day window: [days=45] lies within 1..60
    and yet is brought down to 31. *)
Lemma days_clamp_counterexample :
  parseInt10 "45" = Fin (inject_Z 45)
  /\ Z.min (Z.max 45 1) 60 = 45
  /\ normalizeDays (Some "45"%string) = 31
  /\ normalizeDays (Some "45"%string) <> Z.min (Z.max 45 1) 60.
Proof. repeat split. vm_compute. discriminate. Qed.

(** ** The route *)

Lemma collect_from (results : list RunResult) (st : Collected) :
  let final := fold_left collectStep results st in
  c_events final = c_events st ++ List.concat (map rr_events (filter rr_ok results))
  /\ c_sourceSummaries final = c_sourceSummaries st ++ map rr_summary results
  /\ c_anySuccess final = c_anySuccess st || existsb rr_ok results.
Proof.
  revert st. induction results as [|r rs IH]; intros st; simpl.
  - rewrite !app_nil_r, orb_false_r. auto.
  - destruct (IH (collectStep st r)) as (E & S & A).
    rewrite E, S, A. unfold collectStep.
    destruct (rr_ok r); simpl; rewrite <- ?app_assoc; simpl;
      rewrite ?orb_true_r; auto.
Qed.

Lemma collect_spec (results : list RunResult) :
  c_events (collect results) = List.concat (map rr_events (filter rr_ok results))
  /\ c_sourceSummaries (collect results) = map rr_summary results
  /\ c_anySuccess (collect results) = existsb rr_ok results.
Proof. apply (collect_from results (mkCollected [] [] false None true)). Qed.

(** A failed run carries no events. *)
Lemma runDatasourceFetch_failed (w : World) (source : Source) (context : Context) :
  rr_ok (runDatasourceFetch w source context) = false ->
  rr_events (runDatasourceFetch w source context) = [].
Proof.
  unfold runDatasourceFetch.
  destruct (DATASOURCE_HANDLERS w (src_type source)) as [handler|]; [|reflexivity].
  destruct (handler source context); [discriminate|reflexivity].
Qed.

Lemma ok_events_all (w : World) (context : Context) (sources : list Source) :
  let results := map (fun source => runDatasourceFetch w source context) sources in
  List.concat (map rr_events (filter rr_ok results)) = List.concat (map rr_events results).
Proof.
  induction sources as [|s r IH]; simpl; [reflexivity|].
  destruct (rr_ok (runDatasourceFetch w s context)) eqn:E; simpl.
  - now rewrite IH.
  - rewrite (runDatasourceFetch_failed _ _ _ E). exact IH.
Qed.

Section RouteFacts.
Context {P : Platform}.

Lemma api_shows_no_coordinates (w : World) (sources : list Source) (query : Query) :
  requestCoordinates query = None ->
  api_shows w sources query = mkResponse 400 (ErrorBody "missing_coordinates" None).
Proof.
  unfold requestCoordinates, api_shows.
  destruct (finite_coordinate (normalizeCoordinate (nullish_or (q_lat query) (q_latitude query)) 4));
    [|reflexivity].
  destruct (finite_coordinate (normalizeCoordinate (nullish_or (q_lon query) (q_longitude query)) 4));
    [discriminate|reflexivity].
Qed.

(** The answer once the coordinates are read. *)
Lemma api_shows_dispatch (w : World) (sources : list Source) (query : Query) (c : Q * Q) :
  requestCoordinates query = Some c ->
  let results := runEnabled w sources (requestContext query c) in
  api_shows w sources query =
  match filter src_enabled sources with
  | [] => mkResponse 500 (ErrorBody "no_enabled_sources" None)
  | first :: others =>
      if existsb rr_ok results then
        mkResponse 200
          (ShowsBody
             (mkPayload
                (match others with [] => src_id first | _ => "mixed"%string end)
                (JsDate.toISOString (w_now w))
                (c_cached (collect results))
                (normalizeRadius (q_radius query))
                (normalizeDays (q_days query))
                (showsEvents (List.concat (map rr_events results)))
                (map rr_summary results)
                (c_segments (collect results))))
      else if existsb has_missing_key results then
        mkResponse 500 (ErrorBody "ticketmaster_api_key_missing" (Some (map rr_summary results)))
      else
        mkResponse 502 (ErrorBody "datasource_fetch_failed" (Some (map rr_summary results)))
  end.
Proof.
  unfold requestCoordinates, api_shows, runEnabled, requestContext.
  destruct (finite_coordinate (normalizeCoordinate (nullish_or (q_lat query) (q_latitude query)) 4))
    as [lat|]; [|discriminate].
  destruct (finite_coordinate (normalizeCoordinate (nullish_or (q_lon query) (q_longitude query)) 4))
    as [lon|]; [|discriminate].
  intros H. inversion H; subst c. cbn [fst snd].
  destruct (filter src_enabled sources) as [|first others] eqn:En; [reflexivity|].
  cbv zeta.
  remember (mkContext lat lon (normalizeRadius (q_radius query))
              (normalizeDays (q_days query))) as context.
  pose proof (ok_events_all w context (first :: others)) as O. cbv zeta in O.
  remember (map (fun source => runDatasourceFetch w source context) (first :: others))
    as results.
  destruct (collect_spec results) as (E & S & A).
  rewrite A, S, E, O.
  unfold showsEvents.
  destruct (existsb rr_ok results); reflexivity.
Qed.

Lemma requestCoordinates_missing (query : Query) :
  let rawLat := nullish_or (q_lat query) (q_latitude query) in
  let rawLon := nullish_or (q_lon query) (q_longitude query) in
  rawLat = None \/ rawLon = None
  \/ (exists s, rawLat = Some s /\ isFinite (parseFloat s) = false)
  \/ (exists s, rawLon = Some s /\ isFinite (parseFloat s) = false) ->
  requestCoordinates query = None.
Proof.
  cbv zeta. unfold requestCoordinates.
  intros [H|[H|[[s [H F]]|[s [H F]]]]]; rewrite H; unfold normalizeCoordinate.
  - reflexivity.
  - now destruct (finite_coordinate _).
  - destruct (parseFloat s); try discriminate; reflexivity.
  - destruct (finite_coordinate _); [|reflexivity].
    destruct (parseFloat s); try discriminate; reflexivity.
Qed.
End RouteFacts.

(** The events of a 200 answer are the collected ones, cut off and
    sorted. *)
Lemma api_shows_events {P : Platform} (w : World) (sources : list Source) (query : Query)
    (c : Q * Q) (out : list Event) :
  requestCoordinates query = Some c ->
  responseEvents (api_shows w sources query) = Some out ->
  out = showsEvents (collectedEvents w sources (requestContext query c)).
Proof.
  intros Hc Hout.
  pose proof (api_shows_dispatch w sources query c Hc) as D. cbv zeta in D.
  rewrite D in Hout. unfold collectedEvents.
  destruct (filter src_enabled sources) as [|first others]; [discriminate|].
  destruct (existsb rr_ok _).
  - simpl in Hout. now inversion Hout.
  - destruct (existsb has_missing_key _); discriminate.
Qed.

(** What the Ticketmaster provider fetched and the cutoff did not drop is
    among the collected events. *)
Lemma ticketmaster_events_collected (w : World) (sources : list Source) (context : Context)
    (source : Source) (fetched : TmFetched) (event : Event) :
  In source (filter src_enabled sources) ->
  src_type source = "ticketmaster"%string ->
  fetchTicketmasterEvents (w_ticketmaster w) (ctx_radiusMiles context)
    (ctx_lookaheadDays context) (src_segments source) true = Returned fetched ->
  In event (tp_events (tf_payload fetched)) ->
  isWeekdayBeforeCutoff event = false ->
  In event (collectedEvents w sources context).
Proof.
  intros Hin Ht Hf He Hcut. unfold collectedEvents, runEnabled.
  apply in_concat. exists (applyWeekdayCutoff (tp_events (tf_payload fetched))). split.
  - rewrite map_map. apply in_map_iff. exists source. split; [|exact Hin].
    unfold runDatasourceFetch, DATASOURCE_HANDLERS. rewrite Ht.
    change (String.eqb "ticketmaster" "ticketmaster") with true. cbv iota.
    unfold ticketmasterHandler. rewrite Hf. reflexivity.
  - apply applyWeekdayCutoff_In. auto.
Qed.

(** The rule on the clock the predicate reads from an event's start
    string: in every answer of [/api/shows] that carries events, no
    returned event is a Ticketmaster event whose start string reads as a
    weekday (Monday to Friday) at a time strictly before 16:30; a
    collected Ticketmaster event whose start string reads as a weekday at
    or after 16:30 is returned; a collected event of any other provider is
    returned whatever its start; and the events Ticketmaster fetched reach
    the collected ones unless the cutoff applies to them. *)
Lemma weekday_cutoff_rule {P : Platform} (w : World) (sources : list Source)
    (query : Query) (c : Q * Q) (out : list Event) :
  requestCoordinates query = Some c ->
  responseEvents (api_shows w sources query) = Some out ->
  let context := requestContext query c in
  (forall event p wd h mi,
      ev_source event = Some "ticketmaster"%string ->
      startParts event = Some p -> weekdayOf p = Some wd -> isWeekday wd ->
      p_hour p = Some h -> p_minute p = Some mi ->
      beforeCutoff h mi -> ~ In event out)
  /\ (forall event p wd h mi,
         In event (collectedEvents w sources context) ->
         ev_source event = Some "ticketmaster"%string ->
         startParts event = Some p -> weekdayOf p = Some wd -> isWeekday wd ->
         p_hour p = Some h -> p_minute p = Some mi ->
         ~ beforeCutoff h mi -> In event out)
  /\ (forall event s,
         In event (collectedEvents w sources context) ->
         ev_source event = Some s -> s <> EmptyString -> s <> "ticketmaster"%string ->
         In event out)
  /\ (forall source fetched event,
         In source (filter src_enabled sources) ->
         src_type source = "ticketmaster"%string ->
         fetchTicketmasterEvents (w_ticketmaster w) (ctx_radiusMiles context)
           (ctx_lookaheadDays context) (src_segments source) true = Returned fetched ->
         In event (tp_events (tf_payload fetched)) ->
         isWeekdayBeforeCutoff event = false ->
         In event (collectedEvents w sources context)).
Proof.
  intros Hc Hout. cbv zeta.
  rewrite (api_shows_events w sources query c out Hc Hout).
  split; [|split; [|split]].
  - intros event p wd h mi Hsrc Hp Hwd Hweek Hh Hm Hb Hin.
    apply showsEvents_In in Hin. destruct Hin as [_ Hf].
    assert (T : isWeekdayBeforeCutoff event = true).
    { apply isWeekdayBeforeCutoff_true. split.
      - right. right. exact Hsrc.
      - exists p, wd, h, mi. auto 10. }
    congruence.
  - intros event p wd h mi Hin Hsrc Hp Hwd Hweek Hh Hm Hnb.
    apply showsEvents_In. split; [exact Hin|].
    apply isWeekdayBeforeCutoff_false. intros T.
    apply isWeekdayBeforeCutoff_true in T.
    destruct T as [_ (p' & wd' & h' & mi' & Hp' & _ & _ & Hh' & Hm' & Hb)].
    rewrite Hp in Hp'. inversion Hp'; subst p'.
    rewrite Hh in Hh'. rewrite Hm in Hm'. inversion Hh'; inversion Hm'; subst.
    contradiction.
  - intros event s Hin Hsrc Hne Hntm. apply showsEvents_In. split; [exact Hin|].
    apply isWeekdayBeforeCutoff_false. intros T.
    apply isWeekdayBeforeCutoff_true in T. destruct T as [[S|[S|S]] _];
      rewrite Hsrc in S; inversion S; congruence.
  - intros source fetched event. apply ticketmaster_events_collected.
Qed.

(** C1. The cutoff reads the clock of [start.local]; for a Ticketmaster
    event the adapter writes there the UTC form of [dates.start.dateTime],
    not the venue's local time.  Of two New York shows on Tuesday
    2024-01-02, the 15:00 matinee (20:00 UTC) is returned and the 19:00
    evening show (00:00 UTC) is excluded. *)
Theorem weekday_cutoff_reads_utc :
  let answer :=
    api_shows (P := Reference.platform) MatineeSamples.world
      [MatineeSamples.ticketmaster] MatineeSamples.query in
  formatAll (P := Reference.platform)
    [MatineeSamples.matinee; MatineeSamples.evening] "music"
  = Returned
      [ mkEvent (Some "tm-matinee"%string) "Matinee"
          (Some (mkStart (Some "2024-01-02T20:00:00.000Z"%string)
                         (Some "2024-01-02T20:00:00.000Z"%string)))
          "https://www.ticketmaster.com/event/tm-matinee" (Some "music"%string)
          (Some 4%Q) (Some "ticketmaster"%string) [];
        mkEvent (Some "tm-evening"%string) "Evening show"
          (Some (mkStart (Some "2024-01-03T00:00:00.000Z"%string)
                         (Some "2024-01-03T00:00:00.000Z"%string)))
          "https://www.ticketmaster.com/event/tm-evening" (Some "music"%string)
          (Some 4%Q) (Some "ticketmaster"%string) [] ]
  /\ status answer = 200
  /\ option_map (map ev_id) (responseEvents answer) = Some [Some "tm-matinee"%string].
Proof. vm_compute. repeat split. Qed.

(** The rule on wall-clock timestamps, end to end: Ticketmaster lists a
    Tuesday show at 15:00 and at 19:00 and the RSS feed a Tuesday event at
    15:00; the answer holds the 19:00 show and the RSS event, not the
    15:00 show. *)
Lemma weekday_cutoff_example :
  option_map (map ev_id)
    (responseEvents
       (api_shows (P := Reference.platform) CutoffSamples.world
          [CutoffSamples.ticketmaster; CutoffSamples.smithsonian] CutoffSamples.query))
  = Some [Some "rss-1"%string; Some "tm-2"%string].
Proof. vm_compute. reflexivity. Qed.

Lemma runEnabled_nil (w : World) (sources : list Source) (context : Context) :
  runEnabled w sources context = [] <-> filter src_enabled sources = [].
Proof.
  unfold runEnabled. destruct (filter src_enabled sources); simpl; split; congruence.
Qed.

(** Without a configured key the Ticketmaster provider fails with the
    error the route looks for. *)
Lemma ticketmaster_key_missing (w : World) (source : Source) (context : Context) :
  src_type source = "ticketmaster"%string ->
  tm_api_key (w_ticketmaster w) = EmptyString ->
  rr_ok (runDatasourceFetch w source context) = false
  /\ has_missing_key (runDatasourceFetch w source context) = true
  /\ sm_status (rr_summary (runDatasourceFetch w source context)) = Some 500.
Proof.
  intros Ht Hk. unfold runDatasourceFetch, DATASOURCE_HANDLERS.
  rewrite Ht. cbn [String.eqb Ascii.eqb Bool.eqb].
  change (String.eqb "ticketmaster" "ticketmaster") with true. cbv iota.
  unfold ticketmasterHandler, fetchTicketmasterEvents. rewrite Hk.
  cbn. auto.
Qed.

(** C3, amended. A request whose latitude or longitude is missing or
    does not read as a finite number is answered 400.  Otherwise: with no
    enabled source the answer is 500 [no_enabled_sources]; when at least
    one enabled provider succeeds it is 200 with the events and one
    summary per provider; when every enabled provider failed and one of
    them failed for the missing Ticketmaster key it is 500
    [ticketmaster_api_key_missing]; when every enabled provider failed
    otherwise it is 502. *)
Theorem shows_status {P : Platform} (w : World) (sources : list Source) (query : Query) :
  let r := api_shows w sources query in
  let rawLat := nullish_or (q_lat query) (q_latitude query) in
  let rawLon := nullish_or (q_lon query) (q_longitude query) in
  (rawLat = None \/ rawLon = None
   \/ (exists s, rawLat = Some s /\ isFinite (parseFloat s) = false)
   \/ (exists s, rawLon = Some s /\ isFinite (parseFloat s) = false) ->
   status r = 400 /\ responseError r = Some "missing_coordinates"%string)
  /\ (requestCoordinates query = None ->
      status r = 400 /\ responseError r = Some "missing_coordinates"%string)
  /\ (forall c, requestCoordinates query = Some c ->
      let results := runEnabled w sources (requestContext query c) in
      (results = [] ->
       status r = 500 /\ responseError r = Some "no_enabled_sources"%string)
      /\ (existsb rr_ok results = true ->
          status r = 200
          /\ responseEvents r = Some (showsEvents (List.concat (map rr_events results)))
          /\ responseSummaries r = Some (map rr_summary results))
      /\ (results <> [] -> existsb rr_ok results = false ->
          existsb has_missing_key results = true ->
          status r = 500
          /\ responseError r = Some "ticketmaster_api_key_missing"%string
          /\ responseSummaries r = Some (map rr_summary results))
      /\ (results <> [] -> existsb rr_ok results = false ->
          existsb has_missing_key results = false ->
          status r = 502
          /\ responseError r = Some "datasource_fetch_failed"%string
          /\ responseSummaries r = Some (map rr_summary results))
      /\ (forall source, In source (filter src_enabled sources) ->
          src_type source = "ticketmaster"%string ->
          tm_api_key (w_ticketmaster w) = EmptyString ->
          existsb has_missing_key results = true)).
Proof.
  cbv zeta.
  assert (N : requestCoordinates query = None ->
              status (api_shows w sources query) = 400
              /\ responseError (api_shows w sources query) = Some "missing_coordinates"%string).
  { intros H. rewrite (api_shows_no_coordinates w sources query H). split; reflexivity. }
  split; [|split].
  - intros H. apply N. now apply requestCoordinates_missing.
  - exact N.
  - intros c Hc.
    pose proof (api_shows_dispatch w sources query c Hc) as D. cbv zeta in D.
    pose proof (runEnabled_nil w sources (requestContext query c)) as Nil.
    split; [|split; [|split; [|split]]].
    + intros H. apply Nil in H. rewrite H in D. rewrite D. split; reflexivity.
    + intros Hok.
      destruct (filter src_enabled sources) as [|first others] eqn:En.
      * assert (R : runEnabled w sources (requestContext query c) = []) by now apply Nil.
        rewrite R in Hok. discriminate.
      * rewrite Hok in D. rewrite D. repeat split.
    + intros Hne Hok Hkey.
      destruct (filter src_enabled sources) as [|first others] eqn:En.
      * exfalso. apply Hne. now apply Nil.
      * rewrite Hok, Hkey in D. rewrite D. repeat split.
    + intros Hne Hok Hkey.
      destruct (filter src_enabled sources) as [|first others] eqn:En.
      * exfalso. apply Hne. now apply Nil.
      * rewrite Hok, Hkey in D. rewrite D. repeat split.
    + intros source Hin Ht Hk. apply existsb_exists.
      exists (runDatasourceFetch w source (requestContext query c)). split.
      * unfold runEnabled. apply in_map_iff. exists source. auto.
      * now apply ticketmaster_key_missing.
Qed.

(** C3 as worded fails: with coordinates in order and every source
    disabled, no provider succeeded and none lacked a credential, yet the
    answer is 500 [no_enabled_sources], not 502. *)
Lemma no_enabled_sources_counterexample :
  let r := api_shows (P := Reference.platform) RouteSamples.world
             [RouteSamples.disabled] RouteSamples.query in
  status r = 500
  /\ responseError r = Some "no_enabled_sources"%string
  /\ exists c,
       requestCoordinates (P := Reference.platform) RouteSamples.query = Some c
       /\ ~ statusAsClaimed (P := Reference.platform) RouteSamples.query
             (runEnabled RouteSamples.world [RouteSamples.disabled]
                (requestContext (P := Reference.platform) RouteSamples.query c))
             r.
Proof.
  cbv zeta. split; [reflexivity|split; [reflexivity|]].
  destruct (requestCoordinates (P := Reference.platform) RouteSamples.query) as [c|] eqn:Hc;
    [|vm_compute in Hc; discriminate].
  exists c. split; [reflexivity|].
  intros (_ & H).
  destruct (H ltac:(discriminate)) as (_ & _ & H502).
  specialize (H502 eq_refl eq_refl). vm_compute in H502. discriminate.
Qed.

(** The other answers, on examples: both providers fail (502); the
    Ticketmaster key is missing and the other provider fails (500 with
    the key error); no coordinates (400). *)
Lemma shows_status_examples :
  status (api_shows (P := Reference.platform) RouteSamples.world
            [RouteSamples.sourceB; RouteSamples.sourceB] RouteSamples.query) = 502
  /\ (let r := api_shows (P := Reference.platform) RouteSamples.world
                 [RouteSamples.keyless; RouteSamples.sourceB] RouteSamples.query in
      status r = 500 /\ responseError r = Some "ticketmaster_api_key_missing"%string)
  /\ status (api_shows (P := Reference.platform) RouteSamples.world
               [RouteSamples.sourceA] (mkQuery None None (Some "-77.04"%string) None None None))
     = 400
  /\ status (api_shows (P := Reference.platform) RouteSamples.world
               [RouteSamples.sourceA] (mkQuery (Some "north"%string) None
                                               (Some "-77.04"%string) None None None))
     = 400.
Proof. repeat split. Qed.

(** C5. Whatever one provider's fetch does, the route answers: a provider
    whose fetch throws contributes no event and a summary with [ok: false]
    and its error message; every enabled provider gets a summary, in
    order; and the events of every provider that answered are among the
    events collected, from which the response is made (the 200 answer
    holds all of them that the weekday cutoff does not drop). *)
Theorem provider_failure_contained {P : Platform}
    (w : World) (sources : list Source) (query : Query) (c : Q * Q) :
  requestCoordinates query = Some c ->
  let context := requestContext query c in
  let enabled := filter src_enabled sources in
  let results := runEnabled w sources context in
  let r := api_shows w sources query in
  map (fun run => sm_id (rr_summary run)) results = map src_id enabled
  /\ (enabled <> [] -> responseSummaries r = Some (map rr_summary results))
  /\ (forall source handler err,
         In source enabled ->
         DATASOURCE_HANDLERS w (src_type source) = Some handler ->
         handler source context = Threw err ->
         let run := runDatasourceFetch w source context in
         rr_ok run = false /\ rr_events run = []
         /\ sm_ok (rr_summary run) = false
         /\ sm_error (rr_summary run) = Some (or_else (err_message err) "Request failed")
         /\ In (rr_summary run) (map rr_summary results))
  /\ (forall source handler result events,
         In source enabled ->
         DATASOURCE_HANDLERS w (src_type source) = Some handler ->
         handler source context = Returned result ->
         hr_events result = Some events ->
         status r = 200
         /\ (forall e, In e events -> In e (collectedEvents w sources context))
         /\ exists out, responseEvents r = Some out
                        /\ forall e, In e (collectedEvents w sources context) ->
                                     isWeekdayBeforeCutoff e = false -> In e out).
Proof.
  intros Hc. cbv zeta.
  pose proof (api_shows_dispatch w sources query c Hc) as D. cbv zeta in D.
  split; [|split; [|split]].
  - unfold runEnabled. rewrite map_map. apply map_ext_in.
    intros s _. unfold runDatasourceFetch.
    destruct (DATASOURCE_HANDLERS w (src_type s)) as [h|]; [|reflexivity].
    destruct (h s (requestContext query c)); reflexivity.
  - intros Hne. rewrite D.
    destruct (filter src_enabled sources) as [|first others]; [congruence|].
    destruct (existsb rr_ok _); [reflexivity|].
    destruct (existsb has_missing_key _); reflexivity.
  - intros source handler err Hin Hh Ht.
    assert (E : runDatasourceFetch w source (requestContext query c)
                = mkRun source false [] [] false
                    (mkSummary (src_id source) (src_name source) (src_type source) false None
                       (err_status err) (Some (or_else (err_message err) "Request failed")))
                    (Some err)).
    { unfold runDatasourceFetch. rewrite Hh, Ht. reflexivity. }
    repeat split; try (rewrite E; reflexivity).
    unfold runEnabled. rewrite map_map. apply in_map_iff. exists source. auto.
  - intros source handler result events Hin Hh Hr He.
    assert (E : runDatasourceFetch w source (requestContext query c)
                = mkRun source true events (hr_segments result) (hr_cached result)
                    (mkSummary (src_id source) (src_name source) (src_type source) true
                       (Some (List.length events)) None None)
                    None).
    { unfold runDatasourceFetch. rewrite Hh, Hr, He. reflexivity. }
    assert (R : In (runDatasourceFetch w source (requestContext query c))
                   (runEnabled w sources (requestContext query c))).
    { unfold runEnabled. apply in_map_iff. exists source. auto. }
    assert (Ok : existsb rr_ok (runEnabled w sources (requestContext query c)) = true).
    { apply existsb_exists. eexists. split; [exact R|]. rewrite E. reflexivity. }
    rewrite Ok in D.
    destruct (filter src_enabled sources) as [|first others]; [contradiction|].
    rewrite D. split; [reflexivity|]. split.
    + intros e Hevent. unfold collectedEvents.
      apply in_concat. exists events. split; [|exact Hevent].
      apply in_map_iff. eexists. split; [|exact R]. rewrite E. reflexivity.
    + eexists. split; [reflexivity|].
      intros e Hcol Hcut. apply showsEvents_In. split; [exact Hcol|exact Hcut].
Qed.

(** The spec's scenario: A answers with two events, B fails. *)
Lemma provider_failure_contained_witness :
  let r := api_shows (P := Reference.platform) RouteSamples.world
             [RouteSamples.sourceA; RouteSamples.sourceB] RouteSamples.query in
  status r = 200
  /\ (exists out, responseEvents r = Some out
                  /\ In RouteSamples.a1 out /\ In RouteSamples.a2 out)
  /\ (exists summaries, responseSummaries r = Some summaries
                        /\ map sm_id summaries = ["feed-a"; "feed-b"]%string
                        /\ map sm_ok summaries = [true; false]
                        /\ map sm_error summaries = [None; Some "iCal request failed: 503"%string]).
Proof.
  cbv zeta.
  destruct (requestCoordinates (P := Reference.platform) RouteSamples.query) as [c|] eqn:Hc;
    [|vm_compute in Hc; discriminate].
  pose proof (provider_failure_contained (P := Reference.platform) RouteSamples.world
                [RouteSamples.sourceA; RouteSamples.sourceB] RouteSamples.query c Hc) as T.
  cbv zeta in T. destruct T as (_ & Hsum & _ & Hok).
  destruct (Hok RouteSamples.sourceA
              (fun _ _ => Returned (mkHandlerResult (Some [RouteSamples.a1; RouteSamples.a2]) false []))
              (mkHandlerResult (Some [RouteSamples.a1; RouteSamples.a2]) false [])
              [RouteSamples.a1; RouteSamples.a2]) as (Hs & Hcol & out & Ho & Hin);
    try reflexivity; [simpl; auto|].
  split; [exact Hs|split].
  - exists out. split; [exact Ho|].
    split; apply Hin; try reflexivity; apply Hcol; simpl; auto.
  - eexists. split; [apply Hsum; discriminate|].
    repeat split.
Defined.

(** ** The Ticketmaster merge *)

Lemma map_has_In (key : string) (m : EventMap) :
  map_has key m = true <-> In key (map fst m).
Proof.
  induction m as [|[k e] r IH]; simpl.
  - split; [discriminate|tauto].
  - rewrite orb_true_iff, IH. rewrite String.eqb_eq. split; intros [H|H]; auto.
Qed.

Lemma map_has_existsb (key : string) (m : EventMap) :
  map_has key m = existsb (String.eqb key) (map fst m).
Proof. induction m as [|[k e] r IH]; simpl; [reflexivity|now rewrite IH]. Qed.

Lemma firstOccurrences_ext (s1 s2 : list string) (events : list Event) :
  (forall k, existsb (String.eqb k) s1 = existsb (String.eqb k) s2) ->
  firstOccurrences s1 events = firstOccurrences s2 events.
Proof.
  revert s1 s2. induction events as [|e r IH]; intros s1 s2 H; simpl; [reflexivity|].
  destruct (ev_id e) as [key|]; [|now apply IH].
  rewrite (H key). destruct (existsb (String.eqb key) s2); [now apply IH|].
  f_equal. apply IH. intros k. simpl. now rewrite H.
Qed.

(** The loop over one segment's events refines [firstOccurrences]. *)
Lemma addEvents_firstOccurrences (events : list Event) (m : EventMap) :
  map snd (addEvents events m) = map snd m ++ firstOccurrences (map fst m) events.
Proof.
  revert m. induction events as [|e r IH]; intros m; simpl.
  - now rewrite app_nil_r.
  - destruct (ev_id e) as [key|]; [|apply IH].
    rewrite map_has_existsb.
    destruct (existsb (String.eqb key) (map fst m)) eqn:E; [apply IH|].
    rewrite IH. unfold map_set_new. rewrite !map_app. simpl.
    rewrite <- app_assoc. simpl. do 2 f_equal.
    apply firstOccurrences_ext. intros k.
    rewrite existsb_app. simpl. rewrite orb_false_r. apply orb_comm.
Qed.

Lemma addEvents_app (l1 l2 : list Event) (m : EventMap) :
  addEvents (l1 ++ l2) m = addEvents l2 (addEvents l1 m).
Proof.
  revert m. induction l1 as [|e r IH]; intros m; simpl; [reflexivity|].
  destruct (ev_id e) as [key|]; [|apply IH].
  destruct (map_has key m); apply IH.
Qed.

Lemma mergeSegments_from (results : list SegmentOutcome) (st : MergeState) :
  let final := fold_left mergeStep results st in
  ms_combined final = addEvents (segmentEvents results) (ms_combined st)
  /\ ms_successful final = ms_successful st || existsb (fun r => is_returned (snd r)) results
  /\ map (fun s => (ss_key s, ss_ok s)) (ms_summaries final)
     = map (fun s => (ss_key s, ss_ok s)) (ms_summaries st) ++ segmentVerdicts results.
Proof.
  revert st. induction results as [|[segment outcome] rs IH]; intros st.
  - simpl. rewrite orb_false_r, app_nil_r. auto.
  - cbn [fold_left]. cbv zeta.
    destruct (IH (mergeStep st (segment, outcome))) as (C & S & V).
    rewrite C, S, V. unfold segmentEvents, segmentVerdicts.
    cbn [map List.concat fst snd existsb].
    destruct outcome as [r|err]; cbn [mergeStep ms_combined ms_successful ms_summaries is_returned].
    + rewrite addEvents_app. rewrite map_app. cbn [map ss_key ss_ok].
      rewrite <- app_assoc. rewrite orb_true_r. cbn [orb app]. auto.
    + rewrite map_app. cbn [map ss_key ss_ok app]. rewrite <- app_assoc.
      cbn [orb app]. auto.
Qed.

(** What [firstOccurrences] keeps. *)
Lemma firstOccurrences_In (events : list Event) (seen : list string) (e : Event) (k : string) :
  In e (firstOccurrences seen events) /\ ev_id e = Some k <->
  existsb (String.eqb k) seen = false /\ find (has_id k) events = Some e.
Proof.
  revert seen. induction events as [|x r IH]; intros seen; simpl.
  - split; [tauto|intros [_ H]; discriminate].
  - unfold has_id at 1. destruct (ev_id x) as [key|] eqn:Ex.
    + destruct (existsb (String.eqb key) seen) eqn:Es.
      * rewrite IH. destruct (String.eqb_spec k key) as [->|Hne]; [|tauto].
        rewrite Es. split; intros [H _]; discriminate.
      * simpl. destruct (String.eqb_spec k key) as [->|Hne].
        -- split.
           ++ intros [[H|H] Hid].
              ** subst x. split; [exact Es|reflexivity].
              ** exfalso. destruct (proj1 (IH (key :: seen)) (conj H Hid)) as [H' _].
                 simpl in H'. rewrite String.eqb_refl in H'. discriminate.
           ++ intros [_ H]. inversion H; subst x. auto.
        -- pose proof (IH (key :: seen)) as IH'. cbn [existsb] in IH'.
           destruct (String.eqb_spec k key) as [->|_]; [contradiction|].
           cbn [orb] in IH'. rewrite <- IH'.
           split.
           ++ intros [[H|H] Hid]; [subst x; congruence|auto].
           ++ intros [H Hid]. auto.
    + apply IH.
Qed.

Lemma firstOccurrences_unseen (events : list Event) (seen : list string) (e : Event) :
  In e (firstOccurrences seen events) ->
  exists k, ev_id e = Some k /\ existsb (String.eqb k) seen = false.
Proof.
  revert seen. induction events as [|x r IH]; intros seen; simpl; [tauto|].
  destruct (ev_id x) as [key|] eqn:Ex; [|apply IH].
  destruct (existsb (String.eqb key) seen) eqn:Es; [apply IH|].
  intros [H|H].
  - subst x. exists key. auto.
  - destruct (IH _ H) as (k & Hk & Hs). exists k. split; [exact Hk|].
    simpl in Hs. apply orb_false_iff in Hs. tauto.
Qed.

Lemma firstOccurrences_NoDup (events : list Event) (seen : list string) :
  NoDup (map ev_id (firstOccurrences seen events)).
Proof.
  revert seen. induction events as [|x r IH]; intros seen; simpl; [constructor|].
  destruct (ev_id x) as [key|] eqn:Ex; [|apply IH].
  destruct (existsb (String.eqb key) seen) eqn:Es; [apply IH|].
  simpl. constructor; [|apply IH].
  rewrite Ex. intros Hin. apply in_map_iff in Hin. destruct Hin as (e & He & Hin).
  destruct (firstOccurrences_unseen _ _ _ Hin) as (k & Hk & Hs).
  rewrite Hk in He. inversion He; subst k.
  simpl in Hs. rewrite String.eqb_refl in Hs. discriminate.
Qed.

(** C6. The adapter merges the segments' events by id, the first
    occurrence of an id winning, in request order.  When at least one
    segment answers it returns that list with one ok/error summary per
    segment; when none does it throws the typed error
    [ticketmaster_fetch_failed] (status 502) carrying the summaries. *)
Theorem segment_merge (w : TmWorld) (radiusMiles : Q) (lookaheadDays : Z)
    (segments : list Segment) (allowCache : bool) :
  tm_api_key w <> EmptyString ->
  allowCache = false \/ tm_cached w = None ->
  let resolved := match segments with [] => TICKETMASTER_SEGMENTS | _ => segments end in
  let segmentResults := map (fun segment => (segment, tm_fetch_segment w segment)) resolved in
  let events := segmentEvents segmentResults in
  let answer := fetchTicketmasterEvents w radiusMiles lookaheadDays segments allowCache in
  (existsb (fun r => is_returned (snd r)) segmentResults = true ->
   exists fetched,
     answer = Returned fetched
     /\ tf_cached fetched = false
     /\ tp_events (tf_payload fetched) = firstOccurrences [] events
     /\ NoDup (map ev_id (tp_events (tf_payload fetched)))
     /\ (forall k e, In e (tp_events (tf_payload fetched)) /\ ev_id e = Some k
                     <-> find (has_id k) events = Some e)
     /\ map (fun s => (ss_key s, ss_ok s)) (tp_segments (tf_payload fetched))
        = segmentVerdicts segmentResults)
  /\ (existsb (fun r => is_returned (snd r)) segmentResults = false ->
      exists err,
        answer = Threw err
        /\ err_code err = Some "ticketmaster_fetch_failed"%string
        /\ err_status err = Some 502
        /\ map (fun s => (ss_key s, ss_ok s)) (err_segments err)
           = segmentVerdicts segmentResults).
Proof.
  intros Hkey Hcache. cbv zeta.
  set (resolved := match segments with [] => TICKETMASTER_SEGMENTS | _ => segments end).
  set (segmentResults := map (fun segment => (segment, tm_fetch_segment w segment)) resolved).
  destruct (mergeSegments_from segmentResults (mkMergeState [] [] false)) as (C & S & V).
  cbv zeta in C, S, V. cbn [ms_combined ms_successful ms_summaries map app orb] in C, S, V.
  fold (mergeSegments segmentResults) in C, S, V.
  assert (Ev : map snd (ms_combined (mergeSegments segmentResults))
               = firstOccurrences [] (segmentEvents segmentResults)).
  { rewrite C. rewrite addEvents_firstOccurrences. reflexivity. }
  assert (Pick : (if allowCache then tm_cached w else None) = None).
  { destruct Hcache as [->| ->]; [reflexivity|now destruct allowCache]. }
  unfold fetchTicketmasterEvents.
  apply non_empty_true in Hkey. rewrite Hkey. cbn [negb]. rewrite Pick.
  fold resolved. fold segmentResults. rewrite S.
  split; intros Hok; rewrite Hok; cbn [negb].
  - eexists. split; [reflexivity|]. cbn [tf_cached tf_payload tp_events tp_segments].
    rewrite Ev. split; [reflexivity|split; [reflexivity|split; [|split]]].
    + apply firstOccurrences_NoDup.
    + intros k e. rewrite firstOccurrences_In. cbn [existsb]. tauto.
    + exact V.
  - eexists. split; [reflexivity|]. cbn [err_code err_status err_segments].
    repeat split. exact V.
Qed.

(** Both segments answer and E2 is listed twice: the first listing is
    kept.  Music fails: the comedy events are returned with an error
    summary for music.  Both fail: the typed error. *)
Lemma segment_merge_witness :
  (exists fetched,
      fetchTicketmasterEvents MergeSamples.bothAnswer 50 14 [] false = Returned fetched
      /\ tp_events (tf_payload fetched)
         = [MergeSamples.rock; MergeSamples.variety; MergeSamples.standup])
  /\ (exists fetched,
         fetchTicketmasterEvents MergeSamples.musicFails 50 14 [] false = Returned fetched
         /\ tp_events (tf_payload fetched) = [MergeSamples.varietyAgain; MergeSamples.standup]
         /\ map (fun s => (ss_key s, ss_ok s)) (tp_segments (tf_payload fetched))
            = [("music", false); ("comedy", true)]%string)
  /\ (exists err,
         fetchTicketmasterEvents MergeSamples.allFail 50 14 [] false = Threw err
         /\ err_code err = Some "ticketmaster_fetch_failed"%string).
Proof.
  split; [|split].
  - destruct (proj1 (segment_merge MergeSamples.bothAnswer 50 14 [] false
                       ltac:(discriminate) (or_introl eq_refl)) eq_refl)
      as (fetched & A & _ & E & _).
    exists fetched. split; [exact A|exact E].
  - destruct (proj1 (segment_merge MergeSamples.musicFails 50 14 [] false
                       ltac:(discriminate) (or_introl eq_refl)) eq_refl)
      as (fetched & A & _ & E & _ & _ & V).
    exists fetched. split; [exact A|split; [exact E|exact V]].
  - destruct (proj2 (segment_merge MergeSamples.allFail 50 14 [] false
                       ltac:(discriminate) (or_introl eq_refl)) eq_refl)
      as (err & A & Cd & _).
    exists err. split; [exact A|exact Cd].
Defined.

(** ** What the adapters put in [start] *)






Section StartFacts.
Context {P : Platform}.
Variable localTime : Z -> Z -> Z -> Z -> Z -> Z -> option Z.











End StartFacts.



(** ** What the adapters put in [genres] *)

Lemma set_add_In (x g : string) (s : list string) :
  In g (set_add x s) <-> g = x \/ In g s.
Proof.
  unfold set_add. destruct (existsb (String.eqb x) s) eqn:E.
  - split; [auto|]. intros [->|H]; [|exact H].
    apply existsb_exists in E. destruct E as (y & Hy & Heq).
    apply String.eqb_eq in Heq. now subst y.
  - rewrite in_app_iff. simpl. split; intros [H|H]; auto.
    + destruct H as [H|[]]; auto.
Qed.

Lemma set_add_NoDup (x : string) (s : list string) : NoDup s -> NoDup (set_add x s).
Proof.
  intros H. unfold set_add. destruct (existsb (String.eqb x) s) eqn:E; [exact H|].
  apply NoDup_app; [exact H|constructor; [intros []|constructor]|].
  intros a Ha [Hx|[]]. subst a.
  assert (existsb (String.eqb x) s = true); [|congruence].
  apply existsb_exists. exists x. split; [exact Ha|apply String.eqb_refl].
Qed.

Lemma add_names (names set : list string) :
  let result := fold_left (fun set' name => set_add name set') names set in
  (NoDup set -> NoDup result) /\ (forall g, In g result <-> In g set \/ In g names).
Proof.
  revert set. induction names as [|n r IH]; intros set; simpl.
  - split; [auto|]. intros g. tauto.
  - destruct (IH (set_add n set)) as [N I]. split.
    + intros H. apply N. now apply set_add_NoDup.
    + intros g. rewrite I, set_add_In. intuition congruence.
Qed.

Lemma add_classifications (l : list Classification) (set : list string) :
  let result :=
    fold_left (fun set cls => fold_left (fun set' name => set_add name set')
                                        (classificationNames cls) set) l set in
  (NoDup set -> NoDup result)
  /\ (forall g, In g result <->
                In g set \/ exists cls, In cls l /\ In g (classificationNames cls)).
Proof.
  revert set. induction l as [|cls r IH]; intros set; simpl.
  - split; [auto|]. intros g. split; [auto|]. intros [H|(c & [] & _)]. exact H.
  - destruct (add_names (classificationNames cls) set) as [N1 I1].
    destruct (IH (fold_left (fun set' name => set_add name set')
                            (classificationNames cls) set)) as [N2 I2].
    split.
    + intros H. apply N2. now apply N1.
    + intros g. rewrite I2, I1. split.
      * intros [[H|H]|(c & Hc & Hg)]; auto.
        -- right. exists cls. auto.
        -- right. exists c. auto.
      * intros [H|(c & [Hc|Hc] & Hg)]; auto.
        -- subst c. auto.
        -- right. exists c. auto.
Qed.

Lemma existsb_readsMuseum (genres : list string) :
  existsb (fun genre => String.eqb (toLowerCase (trim genre)) "museum") genres = true
  <-> Exists readsMuseum genres.
Proof.
  rewrite existsb_exists, Exists_exists. unfold readsMuseum.
  split; intros (g & Hg & E); exists g; split; auto; now apply String.eqb_eq.
Qed.

Lemma notDateLike_Forall (categories : list string) :
  Forall (fun g => isCategoryDateLike g = false) (notDateLike categories).
Proof.
  apply Forall_forall. intros g Hg. apply filter_In in Hg.
  destruct Hg as [_ Hg]. now apply negb_true_iff in Hg.
Qed.

Lemma notDateLike_count (categories : list string) (g : string) :
  isCategoryDateLike g = false ->
  count_occ string_dec (notDateLike categories) g = count_occ string_dec categories g.
Proof.
  intros Hg. unfold notDateLike.
  induction categories as [|c r IH]; [reflexivity|]. cbn [filter].
  destruct (isCategoryDateLike c) eqn:E; cbn [negb count_occ].
  - destruct (string_dec c g) as [->|_]; [congruence|exact IH].
  - destruct (string_dec c g); now rewrite IH.
Qed.

Lemma rssGenres_spec (sourceId : string) (parsedCategories categoryTags : list string) :
  rssGenres sourceId parsedCategories categoryTags
  = let kept := notDateLike (rssCategories sourceId parsedCategories categoryTags) in
    if String.eqb sourceId "smithsonian"
    then if existsb (fun genre => String.eqb (toLowerCase (trim genre)) "museum") kept
         then kept else kept ++ ["Museum"%string]
    else kept.
Proof.
  unfold rssGenres, rssCategories, notDateLike.
  destruct (String.eqb sourceId "smithsonian"); [|reflexivity].
  destruct parsedCategories; reflexivity.
Qed.

Lemma singleton_distinct (genre : string) : genresDistinctAsClaimed [genre].
Proof.
  intros i j a b Ha Hb Hij.
  destruct i as [|i]; [|destruct i; discriminate Ha].
  destruct j as [|j]; [congruence|destruct j; discriminate Hb].
Qed.

(** C9, amended. The genres of a Ticketmaster event are the trimmed,
    non-empty classification names, each listed once: no two entries are
    the same string (names that differ only in case are different strings
    and are both kept).  The genres of a Sixth & I event are likewise
    listed once each.  The genres of an RSS item are its categories that
    do not look like a date, in the order and as often as the feed lists
    them, followed for the Smithsonian feed by ['Museum'] unless one of
    them reads "museum"; the genres of an iCal event are its categories
    that do not look like a date, as often as the feed lists them.  A
    scraped event has the one genre of its venue, so no two of its
    genres are equal, up to case or otherwise. *)
Theorem genres_distinct {P : Platform} :
  (forall raw segmentKey event,
      formatTicketmasterEvent raw segmentKey = Returned (Some event) ->
      NoDup (ev_genres event)
      /\ (forall g, In g (ev_genres event) <->
                    exists l cls, raw_classifications raw = Some l
                                  /\ In cls l /\ In g (classificationNames cls)))
  /\ (forall categoryName categoryLink,
         NoDup (sixthAndIGenres categoryName categoryLink)
         /\ (forall g, In g (sixthAndIGenres categoryName categoryLink) <->
                       (g = categoryName /\ categoryName <> EmptyString)
                       \/ (g = "Talks & Entertainment"%string
                           /\ includes "/arts-entertainment/" (toLowerCase categoryLink) = true)
                       \/ (g = "Jewish Life"%string
                           /\ includes "/jewish-life/" (toLowerCase categoryLink) = true)))
  /\ (forall sourceId parsedCategories categoryTags,
         let genres := rssGenres sourceId parsedCategories categoryTags in
         let kept := notDateLike (rssCategories sourceId parsedCategories categoryTags) in
         (sourceId <> "smithsonian"%string \/ Exists readsMuseum kept -> genres = kept)
         /\ (sourceId = "smithsonian"%string -> ~ Exists readsMuseum kept ->
             genres = kept ++ ["Museum"%string])
         /\ Forall (fun g => isCategoryDateLike g = false) genres
         /\ (sourceId = "smithsonian"%string -> Exists readsMuseum genres))
  /\ (forall categories,
         Forall (fun g => isCategoryDateLike g = false) (icalGenres categories)
         /\ (forall g, isCategoryDateLike g = false ->
                       count_occ string_dec (icalGenres categories) g
                       = count_occ string_dec categories g))
  /\ genresDistinctAsClaimed DC_IMPROV_GENRES
  /\ genresDistinctAsClaimed BLACK_CAT_GENRES.
Proof.
  split; [|split; [|split; [|split; [|split]]]]; try apply singleton_distinct.
  - intros raw segmentKey event. unfold formatTicketmasterEvent.
    destruct (raw_id raw) as [id|]; [|discriminate].
    intros H.
    assert (G : ev_genres event = classificationNameSet (raw_classifications raw)).
    { destruct (truthy _); [destruct (ds_dateTime _); [destruct (Date_parse _)|]|];
        inversion H; reflexivity. }
    rewrite G. unfold classificationNameSet.
    destruct (raw_classifications raw) as [l|].
    + destruct (add_classifications l []) as [N I]. split; [apply N; constructor|].
      intros g. rewrite I. split.
      * intros [[]|(cls & Hc & Hg)]. exists l, cls. auto.
      * intros (l' & cls & Hl & Hc & Hg). inversion Hl; subst l'. right. exists cls. auto.
    + split; [constructor|]. intros g. split; [intros []|].
      intros (l & cls & Hl & _). discriminate.
  - intros categoryName categoryLink. unfold sixthAndIGenres.
    match goal with
    | |- NoDup (fold_left _ ?names []) /\ _ => destruct (add_names names []) as [N I]
    end.
    cbv zeta in N, I. split; [apply N; constructor|].
    intros g. rewrite I. rewrite !in_app_iff.
    destruct categoryName as [|c r]; cbn [non_empty];
      destruct (includes "/arts-entertainment/" (toLowerCase categoryLink));
      destruct (includes "/jewish-life/" (toLowerCase categoryLink));
      cbn [In]; intuition (try discriminate; try congruence).
  - intros sourceId parsedCategories categoryTags genres kept.
    assert (G : genres
                = if String.eqb sourceId "smithsonian"
                  then if existsb (fun genre => String.eqb (toLowerCase (trim genre)) "museum")
                                  kept
                       then kept else kept ++ ["Museum"%string]
                  else kept) by apply rssGenres_spec.
    pose proof (existsb_readsMuseum kept) as M.
    pose proof (notDateLike_Forall (rssCategories sourceId parsedCategories categoryTags)) as F.
    fold kept in F.
    destruct (String.eqb_spec sourceId "smithsonian") as [Es|Es].
    + destruct (existsb _ kept) eqn:Ex.
      * rewrite G. split; [reflexivity|]. split; [|split].
        -- intros _ Hn. exfalso. apply Hn, M. reflexivity.
        -- exact F.
        -- intros _. apply M. reflexivity.
      * rewrite G. split; [|split; [|split]].
        -- intros [Hs|He]; [contradiction|]. apply M in He. discriminate.
        -- reflexivity.
        -- apply Forall_app. split; [exact F|]. repeat constructor.
        -- intros _. apply Exists_app. right. constructor. reflexivity.
    + rewrite G. split; [reflexivity|]. split; [|split].
      * intros; contradiction.
      * exact F.
      * intros; contradiction.
  - intros categories. split.
    + apply notDateLike_Forall.
    + intros g Hg. now apply notDateLike_count.
Qed.

Lemma genres_distinct_witness :
  (exists event,
      formatTicketmasterEvent (P := Reference.platform) FormatSamples.rockTwice "music"
      = Returned (Some event)
      /\ ev_genres event = ["Music"; "Rock"; "rock"]%string
      /\ NoDup (ev_genres event))
  /\ rssGenres "smithsonian" ["Talks"; "Talks"]%string ["2024-01-05"]%string
     = ["Talks"; "Talks"; "Museum"]%string.
Proof.
  destruct (genres_distinct (P := Reference.platform)) as (Htm & _ & Hrss & _).
  split.
  - eexists. split; [reflexivity|]. split; [reflexivity|].
    exact (proj1 (Htm FormatSamples.rockTwice "music"%string _ eq_refl)).
  - destruct (Hrss "smithsonian"%string ["Talks"; "Talks"]%string ["2024-01-05"]%string)
      as (_ & Hadd & _).
    apply Hadd; [reflexivity|].
    intros H. apply existsb_readsMuseum in H. vm_compute in H. discriminate.
Defined.

(** C9 as worded fails: "Rock" and "rock" are equal up to case and both
    are in the genres of one Ticketmaster event; and an RSS item that
    lists a category twice has it twice among its genres. *)
Lemma genres_case_counterexample :
  (exists event,
      formatTicketmasterEvent (P := Reference.platform) FormatSamples.rockTwice "music"
      = Returned (Some event)
      /\ ~ genresDistinctAsClaimed (ev_genres event))
  /\ rssGenres "dc-jazz" [] ["Music"; "Music"; "2024-01-05"]%string = ["Music"; "Music"]%string
  /\ ~ genresDistinctAsClaimed (rssGenres "dc-jazz" [] ["Music"; "Music"; "2024-01-05"]%string).
Proof.
  split; [|split].
  - eexists. split; [reflexivity|].
    intros H. apply (H 1%nat 2%nat "Rock"%string "rock"%string); try reflexivity.
    discriminate.
  - reflexivity.
  - intros H. apply (H 0%nat 1%nat "Music"%string "Music"%string); try reflexivity.
    discriminate.
Qed.

(** ** iCal date-times *)

Lemma digit_not_space (c : ascii) : is_digit c = true -> is_space c = false.
Proof.
  destruct c as [[] [] [] [] [] [] [] []]; vm_compute; congruence.
Qed.

Lemma trim_start_digit (c : ascii) (r : string) :
  is_digit c = true -> trim_start (String c r) = String c r.
Proof. intros H. simpl. now rewrite (digit_not_space c H). Qed.

Lemma trim_end_app (a b : string) :
  trim_end b = b -> b <> EmptyString -> trim_end (a ++ b) = (a ++ b)%string.
Proof.
  intros Hb Hne. induction a as [|c a IH]; simpl; [exact Hb|].
  rewrite IH. destruct (a ++ b)%string eqn:E; [|reflexivity].
  destruct a; simpl in E; [contradiction|discriminate].
Qed.

Lemma pad_succ (w : nat) (n : Z) :
  JsDate.pad (S w) n = (JsDate.pad w (n / 10) ++ String (JsDate.digit_char n) EmptyString)%string.
Proof. reflexivity. Qed.

Lemma pad_head (w : nat) (n : Z) :
  exists c r, JsDate.pad (S w) n = String c r /\ is_digit c = true.
Proof.
  revert n. induction w as [|w IH]; intros n.
  - exists (JsDate.digit_char n), EmptyString. split; [reflexivity|apply digit_char_spec].
  - destruct (IH (n / 10)) as (c & r & E & D).
    rewrite pad_succ, E. simpl. eauto.
Qed.

Lemma trim_end_pad (w : nat) (n : Z) : trim_end (JsDate.pad (S w) n) = JsDate.pad (S w) n.
Proof.
  rewrite pad_succ. apply trim_end_app; [|discriminate].
  simpl. now rewrite (digit_not_space _ (proj1 (digit_char_spec n))).
Qed.

Lemma keeps_end_app (a b : string) : keeps_end b -> keeps_end (a ++ b).
Proof.
  intros [Hb Hne]. split; [now apply trim_end_app|].
  destruct a; simpl; [exact Hne|discriminate].
Qed.

Lemma keeps_end_pad (w : nat) (n : Z) : keeps_end (JsDate.pad (S w) n).
Proof.
  split; [apply trim_end_pad|].
  destruct (pad_head w n) as (c & r & E & _). rewrite E. discriminate.
Qed.

Lemma string_app_nil_r (a : string) : (a ++ "")%string = a.
Proof. induction a as [|x a IH]; simpl; [reflexivity|now rewrite IH]. Qed.

(** A literal is not changed by [trim] when its zone part is not. *)
Lemma trim_icalLiteral (y m d h mi s : Z) (zone : string) :
  trim_end zone = zone ->
  trim (icalLiteral y m d h mi s zone) = icalLiteral y m d h mi s zone.
Proof.
  intros Hz. unfold trim, icalLiteral.
  set (rest := (JsDate.pad 2 m ++ JsDate.pad 2 d ++ "T" ++ JsDate.pad 2 h
                ++ JsDate.pad 2 mi ++ JsDate.pad 2 s ++ zone)%string).
  assert (S : trim_start (JsDate.pad 4 y ++ rest) = (JsDate.pad 4 y ++ rest)%string).
  { destruct (pad_head 3 y) as (c & r & E & D). rewrite E.
    apply (trim_start_digit c (r ++ rest) D). }
  rewrite S.
  assert (K : keeps_end (JsDate.pad 2 s ++ zone)).
  { destruct zone as [|z zs].
    - rewrite string_app_nil_r. apply keeps_end_pad.
    - apply keeps_end_app. split; [exact Hz|discriminate]. }
  unfold rest. apply keeps_end_app. do 5 apply keeps_end_app. exact K.
Qed.

Lemma match_ical_literal (y m d h mi s : Z) (zone : string) :
  0 <= y < 10000 -> 0 <= m < 100 -> 0 <= d < 100 ->
  0 <= h < 100 -> 0 <= mi < 100 -> 0 <= s < 100 ->
  zone = EmptyString \/ zone = "Z"%string ->
  match_ical (icalLiteral y m d h mi s zone)
  = Some (mkIcalMatch y m d (Some (h, mi, Some s)) zone).
Proof.
  intros Hy Hm Hd Hh Hmi Hs Hz. unfold match_ical, icalLiteral.
  rewrite digits_pad by (simpl; lia).
  rewrite digits_pad by (simpl; lia).
  rewrite digits_pad by (simpl; lia).
  cbn [append]. unfold ical_time_group.
  rewrite digits_pad by (simpl; lia).
  rewrite digits_pad by (simpl; lia).
  rewrite digits_pad by (simpl; lia).
  destruct Hz as [-> | ->]; reflexivity.
Qed.

Section IcalFacts.
Context {P : Platform}.

Lemma non_empty_icalLiteral (y m d h mi s : Z) (zone : string) :
  non_empty (icalLiteral y m d h mi s zone) = true.
Proof.
  unfold icalLiteral. destruct (pad_head 3 y) as (c & r & E & _). now rewrite E.
Qed.

(** A literal that ends in [Z] is the UTC instant it spells; the zone
    arguments play no part. *)
Lemma ical_utc_literal (y m d h mi s : Z) (tzid fallbackTimeZone : option string) :
  0 <= y < 10000 -> 0 <= m < 100 -> 0 <= d < 100 ->
  0 <= h < 100 -> 0 <= mi < 100 -> 0 <= s < 100 ->
  parseIcalDateTime (icalLiteral y m d h mi s "Z") tzid fallbackTimeZone
  = isoOrThrow (JsDate.Date_UTC y (m - 1) d h mi s).
Proof.
  intros Hy Hm Hd Hh Hmi Hs. unfold parseIcalDateTime.
  rewrite trim_icalLiteral by reflexivity.
  rewrite non_empty_icalLiteral. cbn [negb].
  rewrite match_ical_literal by auto.
  reflexivity.
Qed.

(** A literal with no zone part and a [TZID] goes through the zone
    conversion. *)
Lemma ical_zoned_literal (y m d h mi s : Z) (zone : string)
      (fallbackTimeZone : option string) :
  0 <= y < 10000 -> 0 <= m < 100 -> 0 <= d < 100 ->
  0 <= h < 100 -> 0 <= mi < 100 -> 0 <= s < 100 ->
  zone <> EmptyString ->
  parseIcalDateTime (icalLiteral y m d h mi s EmptyString) (Some zone) fallbackTimeZone
  = Returned (zonedTimeToUtcIso y m d h mi s zone).
Proof.
  intros Hy Hm Hd Hh Hmi Hs Hz. unfold parseIcalDateTime.
  rewrite trim_icalLiteral by reflexivity.
  rewrite non_empty_icalLiteral. cbn [negb].
  rewrite match_ical_literal by auto.
  cbn [m_time m_zone m_year m_month m_day String.eqb non_empty truthy].
  apply non_empty_true in Hz. rewrite Hz. cbv iota. now rewrite Hz.
Qed.

(** The conversion answers [2 * utc - wall], where [utc] reads the
    literal as if it were UTC and [wall] reads the zone's clock at
    [utc] the same way: the zone's offset is taken at [utc], not at
    the instant returned. *)
Lemma zonedTimeToUtcIso_value (y m d h mi s : Z) (zone : string)
      (utc wall : Z) (values : JsDate.Fields) :
  JsDate.Date_UTC y (m - 1) d h mi s = Some utc ->
  wallClock zone utc = Some values ->
  JsDate.Date_UTC (JsDate.f_year values) (JsDate.f_month values - 1) (JsDate.f_day values)
    (JsDate.f_hour values) (JsDate.f_minute values) (JsDate.f_second values) = Some wall ->
  zonedTimeToUtcIso y m d h mi s zone
  = option_map JsDate.toISOString (JsDate.TimeClip (utc - (wall - utc))).
Proof. intros H1 H2 H3. unfold zonedTimeToUtcIso. now rewrite H1, H2, H3. Qed.
End IcalFacts.

(** The spec's scenario away from a clock change: 19:00 in New York on
    2024-01-05 is 00:00Z the next day, and [20240105T190000Z] is 19:00Z;
    the two instants differ. *)
Lemma ical_scenario :
  parseIcalDateTime (P := Reference.platform) "20240105T190000"
    (Some "America/New_York"%string) None
  = Returned (Some "2024-01-06T00:00:00.000Z"%string)
  /\ parseIcalDateTime (P := Reference.platform) "20240105T190000Z" None None
     = Returned (Some "2024-01-05T19:00:00.000Z"%string).
Proof. split; reflexivity. Qed.

(** C8, where the code departs from it.  On 2024-03-10 New York clocks
    went from 02:00 EST to 03:00 EDT at 07:00Z.  The literal
    [20240310T033000] with [TZID=America/New_York] is 07:30Z, the instant
    at which a New York clock reads 03:30; [parseIcalDateTime] returns
    08:30Z, at which it reads 04:30. *)
Theorem ical_dst_divergence :
  parseIcalDateTime (P := Reference.platform) (icalLiteral 2024 3 10 3 30 0 EmptyString)
    (Some "America/New_York"%string) None
  = Returned (Some "2024-03-10T08:30:00.000Z"%string)
  /\ icalLiteral 2024 3 10 3 30 0 EmptyString = "20240310T033000"%string
  /\ (exists t, Reference.iso_parse "2024-03-10T07:30:00.000Z" = Some t
                /\ wallClockReads (P := Reference.platform) "America/New_York" t 2024 3 10 3 30 0)
  /\ (exists t, Reference.iso_parse "2024-03-10T08:30:00.000Z" = Some t
                /\ wallClockReads (P := Reference.platform) "America/New_York" t 2024 3 10 4 30 0).
Proof.
  split; [reflexivity|split; [reflexivity|split]]; eexists; split; reflexivity.
Qed.

(** ** The calendar *)

Lemma WeekDay_epoch : JsDate.WeekDay 0 = 4.
Proof. reflexivity. Qed.

(** The next day is the next day of the week. *)
Lemma WeekDay_next (t : Z) :
  JsDate.WeekDay (t + JsDate.msPerDay) = (JsDate.WeekDay t + 1) mod 7.
Proof.
  unfold JsDate.WeekDay, JsDate.Day, JsDate.msPerDay.
  replace (t + 86400000) with (t + 1 * 86400000) by lia.
  rewrite Z.div_add by lia.
  rewrite Zplus_mod_idemp_l. f_equal. lia.
Qed.

(** 1970-01-01 was a Thursday, 2000-02-29 a Tuesday, 2024-01-02 a
    Tuesday and 2024-01-06 a Saturday. *)
Lemma weekday_known_dates :
  weekdayOf (mkParts 1970 1 1 None None) = Some 4
  /\ weekdayOf (mkParts 2000 2 29 None None) = Some 2
  /\ weekdayOf (mkParts 2024 1 2 None None) = Some 2
  /\ weekdayOf (mkParts 2024 1 6 None None) = Some 6.
Proof. repeat split. Qed.

(** From 1900-01-01 to 2100-12-31 the day number of the calendar date of
    a day is that day. *)
Lemma civil_round_trip_1900_2100 :
  forallb civil_round_trip (day_range (JsDate.MakeDay 1900 0 1) (Z.to_nat 73414)) = true.
Proof. vm_compute. reflexivity. Qed.

Lemma toISOString_examples :
  JsDate.toISOString 0 = "1970-01-01T00:00:00.000Z"%string
  /\ JsDate.toISOString 1704222000000 = "2024-01-02T19:00:00.000Z"%string
  /\ JsDate.toISOString (-1) = "1969-12-31T23:59:59.999Z"%string
  /\ JsDate.toISOString 951782400000 = "2000-02-29T00:00:00.000Z"%string.
Proof. repeat split. Qed.

(** ** The cutoff on the timestamps the adapters write *)

Lemma non_empty_trim_digit (c : ascii) (r : string) :
  is_digit c = true -> non_empty (trim (String c r)) = true.
Proof.
  intros D. unfold trim. rewrite trim_start_digit by exact D.
  cbn [trim_end]. rewrite (digit_not_space c D).
  destruct (trim_end r); reflexivity.
Qed.

(** X2. For an event whose local start is [YYYY-MM-DDTHH:MM:00] and whose
    source is missing, empty or ['ticketmaster'], the cutoff answers
    [true] exactly when that date is a weekday and that time is before
    16:30. *)
Lemma cutoff_on_timestamp (event : Event) (utc : option string) (y m d h mi wd : Z) :
  0 <= y < 10000 -> 0 <= m < 100 -> 0 <= d < 100 -> 0 <= h < 100 -> 0 <= mi < 100 ->
  ev_start event = Some (mkStart (Some (localTimestamp y m d h mi)) utc) ->
  subjectSource (ev_source event) ->
  weekdayOf (mkParts y m d (Some h) (Some mi)) = Some wd ->
  isWeekdayBeforeCutoff event = true <-> isWeekday wd /\ beforeCutoff h mi.
Proof.
  intros Hy Hm Hd Hh Hmi Hstart Hsrc Hwd.
  assert (Hp : startParts event = Some (mkParts y m d (Some h) (Some mi))).
  { unfold startParts, getEventStartValue. rewrite Hstart. cbn [st_local].
    assert (NE : non_empty (trim (localTimestamp y m d h mi)) = true).
    { unfold localTimestamp. destruct (pad_head 3 y) as (c & r & E & D).
      rewrite E. apply non_empty_trim_digit. exact D. }
    rewrite NE. now apply parse_localTimestamp. }
  rewrite isWeekdayBeforeCutoff_true. split.
  - intros [_ (p & wd' & h' & mi' & Hp' & Hw & Hweek & Hh' & Hm' & Hb)].
    rewrite Hp in Hp'. inversion Hp'; subst p. cbn in Hh', Hm'.
    inversion Hh'; inversion Hm'; subst. rewrite Hwd in Hw. inversion Hw; subst. auto.
  - intros [Hweek Hb]. split; [exact Hsrc|].
    exists (mkParts y m d (Some h) (Some mi)), wd, h, mi. auto 10.
Qed.

(** An event without a source is cut off like a Ticketmaster event. *)
Lemma unsourced_matinee_cut :
  isWeekdayBeforeCutoff Samples.unsourcedMatinee = true
  /\ isWeekdayBeforeCutoff Samples.tuesdayMatinee = true
  /\ isWeekdayBeforeCutoff Samples.rssMatinee = false.
Proof. repeat split. Qed.

(** The cutoff reads a timestamp [YYYY-MM-DDTHH:MM:00] in [start.local]
    field by field. *)
Lemma startParts_localTimestamp (event : Event) (utc : option string) (y m d h mi : Z) :
  0 <= y < 10000 -> 0 <= m < 100 -> 0 <= d < 100 -> 0 <= h < 100 -> 0 <= mi < 100 ->
  ev_start event = Some (mkStart (Some (localTimestamp y m d h mi)) utc) ->
  startParts event = Some (mkParts y m d (Some h) (Some mi)).
Proof.
  intros Hy Hm Hd Hh Hmi Hstart.
  unfold startParts, getEventStartValue. rewrite Hstart. cbn [st_local].
  assert (NE : non_empty (trim (localTimestamp y m d h mi)) = true).
  { unfold localTimestamp. destruct (pad_head 3 y) as (c & r & E & D).
    rewrite E. apply non_empty_trim_digit. exact D. }
  rewrite NE. now apply parse_localTimestamp.
Qed.

(** C10. The cutoff exempts an event by its source only when the source
    is a non-empty string other than ['ticketmaster']: such an event is
    never excluded.  With a missing or empty source the predicate answers
    as it does for the same event marked ['ticketmaster'], and such an
    event is excluded: when its local start is [YYYY-MM-DDTHH:MM:00] the
    predicate answers [true] exactly when that date is a weekday and that
    time is before 16:30.  The predicate answers [true] only for an event
    of a subject source whose start string parses to a date that is a
    weekday, with an explicit hour and minute before the cutoff. *)
Theorem cutoff_source_scope (event : Event) :
  (forall s, ev_source event = Some s -> s <> EmptyString -> s <> "ticketmaster"%string ->
             isWeekdayBeforeCutoff event = false)
  /\ (ev_source event = None \/ ev_source event = Some EmptyString ->
      isWeekdayBeforeCutoff event
      = isWeekdayBeforeCutoff (withSource event (Some "ticketmaster"%string)))
  /\ (forall utc y m d h mi wd,
        0 <= y < 10000 -> 0 <= m < 100 -> 0 <= d < 100 -> 0 <= h < 100 -> 0 <= mi < 100 ->
        ev_start event = Some (mkStart (Some (localTimestamp y m d h mi)) utc) ->
        ev_source event = None \/ ev_source event = Some EmptyString
        \/ ev_source event = Some "ticketmaster"%string ->
        weekdayOf (mkParts y m d (Some h) (Some mi)) = Some wd ->
        (isWeekdayBeforeCutoff event = true <-> isWeekday wd /\ beforeCutoff h mi))
  /\ (isWeekdayBeforeCutoff event = true <->
      subjectSource (ev_source event)
      /\ exists p wd h mi, startParts event = Some p
                           /\ weekdayOf p = Some wd /\ isWeekday wd
                           /\ p_hour p = Some h /\ p_minute p = Some mi
                           /\ beforeCutoff h mi).
Proof.
  split; [|split; [|split]].
  - intros s Hsrc Hne Hntm. apply isWeekdayBeforeCutoff_false. intros T.
    apply isWeekdayBeforeCutoff_true in T. destruct T as [[S|[S|S]] _];
      rewrite Hsrc in S; inversion S; congruence.
  - intros Hsrc.
    destruct (isWeekdayBeforeCutoff event) eqn:E.
    + symmetry. apply isWeekdayBeforeCutoff_true.
      apply isWeekdayBeforeCutoff_true in E. destruct E as [_ E].
      split; [right; right; reflexivity|exact E].
    + symmetry. apply isWeekdayBeforeCutoff_false. intros T.
      apply isWeekdayBeforeCutoff_true in T. destruct T as [_ T].
      assert (isWeekdayBeforeCutoff event = true); [|congruence].
      apply isWeekdayBeforeCutoff_true. split; [|exact T].
      destruct Hsrc as [H|H]; [left|right; left]; exact H.
  - intros utc y m d h mi wd Hy Hm Hd Hh Hmi Hstart Hsrc Hwd.
    pose proof (startParts_localTimestamp event utc y m d h mi Hy Hm Hd Hh Hmi Hstart) as Hp.
    rewrite isWeekdayBeforeCutoff_true. split.
    + intros [_ (p & wd' & h' & mi' & Hp' & Hw & Hweek & Hh' & Hm' & Hb)].
      rewrite Hp in Hp'. inversion Hp'; subst p. cbn in Hh', Hm'.
      inversion Hh'; inversion Hm'; subst. rewrite Hwd in Hw. inversion Hw; subst. auto.
    + intros [Hweek Hb]. split; [exact Hsrc|].
      exists (mkParts y m d (Some h) (Some mi)), wd, h, mi. auto 10.
  - apply isWeekdayBeforeCutoff_true.
Qed.

(** An event without a source is cut off like a Ticketmaster event: a
    Tuesday 15:00 show with no source is excluded. *)
Lemma cutoff_source_scope_witness :
  isWeekdayBeforeCutoff Samples.unsourcedMatinee = true
  /\ isWeekdayBeforeCutoff Samples.unsourcedMatinee
     = isWeekdayBeforeCutoff (withSource Samples.unsourcedMatinee (Some "ticketmaster"%string))
  /\ isWeekdayBeforeCutoff Samples.rssMatinee = false.
Proof.
  destruct (cutoff_source_scope Samples.unsourcedMatinee) as (_ & Hsame & Hcut & _).
  destruct (cutoff_source_scope Samples.rssMatinee) as (Hexempt & _).
  split; [|split].
  - apply (Hcut None 2024 1 2 15 0 2); try lia.
    + reflexivity.
    + left. reflexivity.
    + reflexivity.
    + split; [unfold isWeekday; lia|left; unfold WEEKDAY_CUTOFF_HOUR; lia].
  - apply Hsame. left. reflexivity.
  - apply (Hexempt "smithsonian"%string); [reflexivity|discriminate|discriminate].
Defined.

(** ** Ties keep their order *)

Section SortStable.
Context {A : Type} (cmp : A -> A -> comparison) (p : A -> bool).
Hypothesis tied : forall x y, p x = true -> p y = true -> cmp x y <> Gt.

Lemma insert_sorted_filter (x : A) (l : list A) :
  filter p (insert_sorted cmp x l) = filter p (x :: l).
Proof.
  induction l as [|y r IH]; [reflexivity|].
  cbn [insert_sorted]. destruct (cmp x y) eqn:E; try reflexivity.
  cbn [filter] in *. rewrite IH.
  destruct (p x) eqn:Px, (p y) eqn:Py; try reflexivity.
  exfalso. now apply (tied x y).
Qed.

Lemma js_sort_filter (l : list A) : filter p (js_sort cmp l) = filter p l.
Proof.
  induction l as [|x r IH]; [reflexivity|].
  cbn [js_sort]. rewrite insert_sorted_filter. cbn [filter]. now rewrite IH.
Qed.
End SortStable.

(** X4. Events that tie with one another on both keys come out in the
    order they went in. *)
Lemma sort_stable {P : Platform} (p : Event -> bool) (events : list Event) :
  (forall x y, p x = true -> p y = true -> event_le x y) ->
  filter p (sortEventsByTimeAndDistance events) = filter p events.
Proof.
  intros H. apply js_sort_filter. intros x y Px Py.
  apply compareEvents_le. now apply H.
Qed.

(** ** iCal literals never make [toISOString] throw *)

Lemma DaysBeforeMonth_range (leap : bool) (mn : Z) :
  0 <= JsDate.DaysBeforeMonth leap mn <= 335.
Proof.
  unfold JsDate.DaysBeforeMonth.
  assert (B : 0 <= match mn with
                   | 0 => 0 | 1 => 31 | 2 => 59 | 3 => 90 | 4 => 120 | 5 => 151
                   | 6 => 181 | 7 => 212 | 8 => 243 | 9 => 273 | 10 => 304 | _ => 334
                   end <= 334).
  { destruct mn as [|q|q]; [lia| |lia].
    repeat (destruct q as [q|q|]; try lia). }
  destruct (leap && (2 <=? mn)); lia.
Qed.

Lemma Date_UTC_valid (y m d h mi s : Z) :
  0 <= y < 10000 -> -1 <= m < 100 -> 0 <= d < 100 ->
  0 <= h < 100 -> 0 <= mi < 100 -> 0 <= s < 100 ->
  exists t, JsDate.Date_UTC y m d h mi s = Some t.
Proof.
  intros Hy Hm Hd Hh Hmi Hs.
  unfold JsDate.Date_UTC, JsDate.TimeClip.
  set (t := JsDate.MakeDate _ _).
  assert (B : Z.abs t <= 8640000000000000).
  { unfold t, JsDate.MakeDate, JsDate.MakeTime, JsDate.MakeDay, JsDate.msPerDay,
      JsDate.DayFromYear.
    pose proof (DaysBeforeMonth_range
                  (JsDate.InLeapYear (JsDate.MakeFullYear y + m / 12)) (m mod 12)) as D.
    assert (F : 0 <= JsDate.MakeFullYear y <= 9999).
    { unfold JsDate.MakeFullYear. destruct ((0 <=? y) && (y <=? 99)) eqn:E; [|lia].
      apply andb_true_iff in E. destruct E as [E1 E2]. apply Z.leb_le in E2. lia. }
    set (fy := JsDate.MakeFullYear y) in *. clearbody fy.
    set (dbm := JsDate.DaysBeforeMonth _ _) in *. clearbody dbm.
    assert (Q : -1 <= m / 12 < 9).
    { split; [apply Z.div_le_lower_bound; lia|apply Z.div_lt_upper_bound; lia]. }
    set (q := m / 12) in *. clearbody q.
    apply Z.abs_le. Z.to_euclidean_division_equations. lia. }
  apply Z.leb_le in B. rewrite B. eauto.
Qed.

(** X1. A well-formed literal ending in [Z] yields the timestamp of the
    UTC instant it spells, whatever zone is passed along, and does not
    throw. *)
Lemma ical_utc_literal_returns {P : Platform} (y m d h mi s : Z)
      (tzid fallbackTimeZone : option string) :
  0 <= y < 10000 -> 0 <= m < 100 -> 0 <= d < 100 ->
  0 <= h < 100 -> 0 <= mi < 100 -> 0 <= s < 100 ->
  exists t,
    JsDate.Date_UTC y (m - 1) d h mi s = Some t
    /\ parseIcalDateTime (icalLiteral y m d h mi s "Z") tzid fallbackTimeZone
       = Returned (Some (JsDate.toISOString t)).
Proof.
  intros Hy Hm Hd Hh Hmi Hs.
  destruct (Date_UTC_valid y (m - 1) d h mi s) as [t Ht]; try lia.
  exists t. split; [exact Ht|].
  rewrite ical_utc_literal by assumption. now rewrite Ht.
Qed.

(** ** When the zone conversion is right *)

(** The instant returned reads the literal on the zone's clock exactly
    when the zone's offset is the same there as at [utc]: with [off] the
    offset found at [utc] and [off'] the offset in force at the instant
    returned, [utc - off + off' = utc] iff [off' = off]. *)
Lemma zoned_conversion_condition {P : Platform} (y m d h mi s : Z) (zone : string)
      (utc off off' : Z) (values : JsDate.Fields) :
  JsDate.Date_UTC y (m - 1) d h mi s = Some utc ->
  wallClock zone utc = Some values ->
  JsDate.Date_UTC (JsDate.f_year values) (JsDate.f_month values - 1) (JsDate.f_day values)
    (JsDate.f_hour values) (JsDate.f_minute values) (JsDate.f_second values)
  = Some (utc + off) ->
  JsDate.TimeClip (utc - off) = Some (utc - off) ->
  zonedTimeToUtcIso y m d h mi s zone = Some (JsDate.toISOString (utc - off))
  /\ ((utc - off) + off' = utc <-> off' = off).
Proof.
  intros H1 H2 H3 H4. split; [|lia].
  rewrite (zonedTimeToUtcIso_value y m d h mi s zone utc (utc + off) values H1 H2 H3).
  replace (utc - (utc + off - utc)) with (utc - off) by lia.
  now rewrite H4.
Qed.

(** ** Further examples *)

Lemma ical_utc_literal_returns_witness :
  exists t,
    JsDate.Date_UTC 2024 (1 - 1) 5 19 0 0 = Some t
    /\ parseIcalDateTime (P := Reference.platform) (icalLiteral 2024 1 5 19 0 0 "Z")
         (Some "America/New_York"%string) None
       = Returned (Some (JsDate.toISOString t)).
Proof.
  apply (ical_utc_literal_returns (P := Reference.platform) 2024 1 5 19 0 0
           (Some "America/New_York"%string) None); lia.
Defined.

Lemma cutoff_on_timestamp_witness :
  isWeekdayBeforeCutoff Samples.tuesdayMatinee = true <-> isWeekday 2 /\ beforeCutoff 15 0.
Proof.
  apply (cutoff_on_timestamp Samples.tuesdayMatinee None 2024 1 2 15 0 2); try lia.
  - reflexivity.
  - right. right. reflexivity.
  - reflexivity.
Defined.

(** X3. Without a key the adapter throws [ticketmaster_api_key_missing]
    (status 500) before any cache read or request. *)
Lemma fetch_without_key (w : TmWorld) (radiusMiles : Q) (lookaheadDays : Z)
      (segments : list Segment) (allowCache : bool) :
  tm_api_key w = EmptyString ->
  fetchTicketmasterEvents w radiusMiles lookaheadDays segments allowCache
  = Threw (mkError "Ticketmaster API key missing" (Some 500)
                   (Some "ticketmaster_api_key_missing"%string) []).
Proof. intros H. unfold fetchTicketmasterEvents. now rewrite H. Qed.

Lemma fetch_without_key_witness :
  fetchTicketmasterEvents (w_ticketmaster RouteSamples.world) 50 14 [] true
  = Threw (mkError "Ticketmaster API key missing" (Some 500)
                   (Some "ticketmaster_api_key_missing"%string) []).
Proof. apply (fetch_without_key (w_ticketmaster RouteSamples.world) 50 14 [] true). reflexivity. Defined.

(** Two events with neither a time nor a distance tie; they come out in
    the order they went in. *)
Lemma sort_stable_witness :
  filter (unplaced (P := Reference.platform))
         (sortEventsByTimeAndDistance (P := Reference.platform)
            [SortSamples.undated; SortSamples.third; SortSamples.undatedToo])
  = [SortSamples.undated; SortSamples.undatedToo].
Proof.
  rewrite (sort_stable (P := Reference.platform) (unplaced (P := Reference.platform)));
    [reflexivity|].
  intros x y Hx Hy. unfold unplaced in Hx, Hy. unfold event_le, distance_le.
  destruct (resolvedTime x); [discriminate|].
  destruct (resolvedTime y); [discriminate|].
  destruct (ev_distance x); [discriminate|].
  destruct (ev_distance y); [discriminate|].
  exact I.
Defined.

(** ** Sorting and the cutoff compose *)

Section SortCompose.
Context {P : Platform}.

Lemma insert_sorted_head (x : Event) (l : list Event) :
  Forall (event_le x) l -> insert_sorted compareEvents x l = x :: l.
Proof.
  intros H. destruct l as [|y r]; [reflexivity|].
  inversion H as [|? ? Hy _]; subst. cbn [insert_sorted].
  apply compareEvents_le in Hy. destruct (compareEvents x y); congruence.
Qed.

Lemma sorted_fixed (l : list Event) :
  StronglySorted event_le l -> sortEventsByTimeAndDistance l = l.
Proof.
  unfold sortEventsByTimeAndDistance.
  induction 1 as [|x r Hr IH Hx]; [reflexivity|].
  cbn [js_sort]. rewrite IH. now apply insert_sorted_head.
Qed.

Lemma sortEvents_StronglySorted (events : list Event) :
  StronglySorted event_le (sortEventsByTimeAndDistance events).
Proof.
  apply Sorted_StronglySorted.
  - intros a b c. apply event_le_trans.
  - apply sortEvents_Sorted.
Qed.

Lemma filter_head_sorted (p : Event -> bool) (x : Event) (l : list Event) :
  Forall (event_le x) l ->
  filter p (x :: l) = if p x then insert_sorted compareEvents x (filter p l) else filter p l.
Proof.
  intros H. cbn [filter]. destruct (p x); [|reflexivity].
  symmetry. apply insert_sorted_head.
  rewrite Forall_forall in *. intros z Hz. apply filter_In in Hz. now apply H.
Qed.

Lemma insert_sorted_filter_sorted (p : Event -> bool) (x : Event) (l : list Event) :
  StronglySorted event_le l ->
  filter p (insert_sorted compareEvents x l)
  = if p x then insert_sorted compareEvents x (filter p l) else filter p l.
Proof.
  induction 1 as [|y r Hr IH Hy]; [cbn; destruct (p x); reflexivity|].
  assert (Hle : compareEvents x y <> Gt -> Forall (event_le x) (y :: r)).
  { intros Hc. apply compareEvents_le in Hc. constructor; [exact Hc|].
    rewrite Forall_forall in *. intros z Hz.
    apply (event_le_trans x y z Hc). now apply Hy. }
  cbn [insert_sorted]. destruct (compareEvents x y) eqn:E.
  - apply filter_head_sorted, Hle. congruence.
  - apply filter_head_sorted, Hle. congruence.
  - cbn [filter]. rewrite IH.
    destruct (p y), (p x); cbn [insert_sorted]; rewrite ?E; reflexivity.
Qed.

Lemma sort_filter_commute (p : Event -> bool) (events : list Event) :
  filter p (sortEventsByTimeAndDistance events)
  = sortEventsByTimeAndDistance (filter p events).
Proof.
  unfold sortEventsByTimeAndDistance.
  induction events as [|x r IH]; [reflexivity|].
  cbn [js_sort filter].
  rewrite insert_sorted_filter_sorted by apply sortEvents_StronglySorted.
  fold (sortEventsByTimeAndDistance r). unfold sortEventsByTimeAndDistance.
  rewrite IH. destruct (p x); reflexivity.
Qed.

Lemma filter_twice {A : Type} (p : A -> bool) (l : list A) :
  filter p (filter p l) = filter p l.
Proof.
  induction l as [|x r IH]; [reflexivity|].
  cbn [filter]. destruct (p x) eqn:E; cbn [filter]; rewrite ?E, IH; reflexivity.
Qed.

(** X5. Sorting and the weekday cutoff commute, and each changes nothing
    when applied again: a list that went through the cutoff and the sort
    (in a handler, a preview or an earlier answer) goes through the two
    of them unchanged. *)
Theorem cutoff_sort_compose (events : list Event) :
  applyWeekdayCutoff (sortEventsByTimeAndDistance events)
  = sortEventsByTimeAndDistance (applyWeekdayCutoff events)
  /\ sortEventsByTimeAndDistance (sortEventsByTimeAndDistance events)
     = sortEventsByTimeAndDistance events
  /\ applyWeekdayCutoff (applyWeekdayCutoff events) = applyWeekdayCutoff events
  /\ showsEvents (showsEvents events) = showsEvents events.
Proof.
  assert (C : forall l, applyWeekdayCutoff (sortEventsByTimeAndDistance l)
                        = sortEventsByTimeAndDistance (applyWeekdayCutoff l))
    by (intros l; apply sort_filter_commute).
  assert (S : forall l, sortEventsByTimeAndDistance (sortEventsByTimeAndDistance l)
                        = sortEventsByTimeAndDistance l)
    by (intros l; apply sorted_fixed, sortEvents_StronglySorted).
  assert (F : forall l, applyWeekdayCutoff (applyWeekdayCutoff l) = applyWeekdayCutoff l)
    by (intros l; apply filter_twice).
  repeat split; auto.
  unfold showsEvents. now rewrite C, F, S.
Qed.
End SortCompose.

(** ** The [cached] flag and the segments of an answer *)

Lemma collect_flags_from (results : list RunResult) (st : Collected) :
  let final := fold_left collectStep results st in
  c_cached final = c_cached st && forallb answeredFromCache results
  /\ c_segments final =
     match c_segments st with
     | Some s => Some s
     | None => option_map rr_segments (find reportsSegments results)
     end.
Proof.
  revert st. induction results as [|r rs IH]; intros st; cbn [fold_left forallb find].
  - rewrite andb_true_r. destruct (c_segments st); auto.
  - destruct (IH (collectStep st r)) as (C & S). rewrite C, S.
    unfold collectStep, answeredFromCache, reportsSegments.
    destruct (rr_ok r); cbn [c_cached c_segments andb].
    + rewrite andb_assoc. split; [reflexivity|].
      destruct (c_segments st); [reflexivity|].
      destruct (rr_segments r) eqn:E; cbn [option_map]; rewrite ?E; reflexivity.
    + rewrite andb_false_r. split; [reflexivity|].
      destruct (c_segments st); reflexivity.
Qed.

(** X6. A 200 answer of [/api/shows] is marked [cached] exactly when
    every enabled provider answered, and answered from its cache: one
    failed provider or one fresh fetch clears the flag.  Its [segments]
    are those of the first provider, in source order, that answered with
    a non-empty list of them. *)
Theorem shows_cached_flag {P : Platform} (w : World) (sources : list Source) (query : Query)
    (c : Q * Q) (payload : Payload) :
  requestCoordinates query = Some c ->
  responsePayload (api_shows w sources query) = Some payload ->
  let results := runEnabled w sources (requestContext query c) in
  pl_cached payload = forallb answeredFromCache results
  /\ pl_segments payload = option_map rr_segments (find reportsSegments results).
Proof.
  intros Hc Hp results.
  pose proof (api_shows_dispatch w sources query c Hc) as D. cbv zeta in D.
  fold results in D. rewrite D in Hp.
  destruct (collect_flags_from results (mkCollected [] [] false None true)) as (C & S).
  cbv zeta in C, S. cbn [c_cached c_segments andb] in C, S. fold (collect results) in C, S.
  destruct (filter src_enabled sources) as [|first others]; [discriminate|].
  destruct (existsb rr_ok results).
  - cbn in Hp. inversion Hp; subst payload. cbn [pl_cached pl_segments]. auto.
  - destruct (existsb has_missing_key results); discriminate.
Qed.

(** ** Previews *)

Lemma normalizePositiveInteger_range (value : option string) (min max n : Z) :
  min <= max -> normalizePositiveInteger value min max = Some n -> min <= n <= max.
Proof.
  unfold normalizePositiveInteger. intros Hm.
  destruct value as [s|]; [|discriminate].
  destruct (non_empty s); cbn [negb]; [|discriminate].
  destruct (parseInt10 s) as [q| | |]; try discriminate.
  destruct (Qfloor q <=? 0); [discriminate|].
  intros H. inversion H. lia.
Qed.

Lemma previewLimit_range (value : option string) : 1 <= previewLimit value <= 100.
Proof.
  unfold previewLimit.
  destruct (normalizePositiveInteger value 1 100) as [n|] eqn:E; [|lia].
  apply normalizePositiveInteger_range in E; [|lia].
  destruct (Z.eqb_spec n 0); lia.
Qed.

Lemma slice_to_firstn {A : Type} (l : list A) (n : Z) :
  0 <= n -> slice_to l n = firstn (Z.to_nat n) l.
Proof.
  intros Hn. unfold slice_to.
  destruct (Z.ltb_spec n 0) as [H|_]; [lia|].
  destruct (Z.le_gt_cases n (Z.of_nat (List.length l))) as [L|L].
  - now rewrite Z.min_l.
  - rewrite Z.min_r by lia. rewrite Nat2Z.id.
    rewrite firstn_all. symmetry. apply firstn_all2. lia.
Qed.

Section PreviewFacts.
Context {P : Platform}.

Lemma eventPreview_spec (now : Z) (source : Source) (context : PreviewContext)
    (events : list Event) (segments : option (list SegmentSummary)) (p : Preview) :
  1 <= pc_limit context ->
  pr_preview (eventPreview now source context events segments) = EventPreview p ->
  let n := Z.to_nat (pc_limit context) in
  pv_events p = firstn n (showsEvents events)
  /\ pv_total p = List.length (showsEvents events)
  /\ pv_truncated p = Nat.ltb n (List.length (showsEvents events)).
Proof.
  intros Hl H. unfold eventPreview in H. cbn [pr_preview] in H.
  inversion H; subst p; clear H. cbn [pv_events pv_total pv_truncated].
  destruct (Z.eqb_spec (pc_limit context) 0) as [E|_]; [lia|].
  fold (showsEvents events). rewrite slice_to_firstn by lia.
  repeat split. rewrite length_firstn.
  set (n := Z.to_nat (pc_limit context)). set (len := List.length (showsEvents events)).
  destruct (Nat.ltb_spec n len) as [L|L].
  - rewrite Nat.min_l by lia. apply Nat.ltb_lt. exact L.
  - rewrite Nat.min_r by lia. apply Nat.ltb_irrefl.
Qed.

(** X7. A preview that succeeds with events shows the first [limit]
    events of the list the source's provider answered the preview's
    fetch with, after the weekday cutoff and the sort, where [limit] is
    the [limit] parameter read as a positive integer, brought into
    1..100, and 25 when it is missing or unreadable; [total] counts the
    whole list after the cutoff and [truncated] tells whether events
    were left out.  So no preview holds more than 100 events and none
    holds an event the cutoff drops. *)
Theorem preview_window (w : PreviewWorld) (source : option Source) (query : Query)
    (limitParam : option string) (result : PreviewResult) (p : Preview) :
  api_datasource_preview w source query limitParam = (200, PreviewOk result) ->
  pr_preview result = EventPreview p ->
  let n := Z.to_nat (previewLimit limitParam) in
  (1 <= n <= 100)%nat
  /\ (exists source' events,
        source = Some source'
        /\ fetchedForPreview w source' (previewContext query limitParam) = Some events
        /\ pv_events p = firstn n (showsEvents events)
        /\ pv_total p = List.length (showsEvents events)
        /\ pv_truncated p = Nat.ltb n (List.length (showsEvents events)))
  /\ (List.length (pv_events p) <= 100)%nat
  /\ Forall (fun event => isWeekdayBeforeCutoff event = false) (pv_events p).
Proof.
  intros Hr Hp n.
  pose proof (previewLimit_range limitParam) as Hl.
  assert (Hn : (1 <= n <= 100)%nat) by (unfold n; lia).
  assert (E : exists source' events,
             source = Some source'
             /\ fetchedForPreview w source' (previewContext query limitParam) = Some events
             /\ pv_events p = firstn n (showsEvents events)
             /\ pv_total p = List.length (showsEvents events)
             /\ pv_truncated p = Nat.ltb n (List.length (showsEvents events))).
  { unfold api_datasource_preview in Hr.
    destruct source as [source|]; [|discriminate].
    exists source.
    match type of Hr with (if ?c then _ else _) = _ => destruct c end; [discriminate|].
    fold (previewContext query limitParam) in Hr.
    set (context := previewContext query limitParam) in *.
    assert (Hc : 1 <= pc_limit context) by (subst context; cbn [previewContext pc_limit]; lia).
    assert (Hn' : n = Z.to_nat (pc_limit context)) by reflexivity.
    destruct (fetchDatasourcePreview w (Some source) context) as [r|e] eqn:F;
      [|inversion Hr].
    inversion Hr; subst r; clear Hr.
    unfold fetchDatasourcePreview, PREVIEW_HANDLERS in F. unfold fetchedForPreview.
    destruct (String.eqb (src_type source) "ticketmaster").
    { unfold ticketmasterPreview in F.
      destruct (fetchTicketmasterEvents _ _ _ _ _) as [fetched|]; [|discriminate].
      inversion F as [F']. rewrite <- F' in Hp.
      exists (tp_events (tf_payload fetched)). rewrite Hn'.
      split; [reflexivity|]. split; [reflexivity|].
      exact (eventPreview_spec _ _ _ _ _ _ Hc Hp). }
    destruct (String.eqb (src_type source) "blackcat").
    { unfold feedPreview in F. destruct (pw_blackcat w context) as [events|]; [|discriminate].
      inversion F as [F']. rewrite <- F' in Hp. exists events. rewrite Hn'.
      split; [reflexivity|]. split; [reflexivity|].
      exact (eventPreview_spec _ _ _ _ _ _ Hc Hp). }
    destruct (String.eqb (src_type source) "ical").
    { unfold feedPreview in F. destruct (pw_ical w source context) as [events|]; [|discriminate].
      inversion F as [F']. rewrite <- F' in Hp. exists events. rewrite Hn'.
      split; [reflexivity|]. split; [reflexivity|].
      exact (eventPreview_spec _ _ _ _ _ _ Hc Hp). }
    destruct (String.eqb (src_type source) "rss").
    { unfold feedPreview in F. destruct (pw_rss w source context) as [events|]; [|discriminate].
      inversion F as [F']. rewrite <- F' in Hp. exists events. rewrite Hn'.
      split; [reflexivity|]. split; [reflexivity|].
      exact (eventPreview_spec _ _ _ _ _ _ Hc Hp). }
    destruct (String.eqb (src_type source) "json"); [|discriminate].
    unfold jsonPreview in F. destruct (pw_json w source); [|discriminate].
    inversion F as [F']. rewrite <- F' in Hp. discriminate. }
  split; [exact Hn|]. split; [exact E|].
  destruct E as (source' & events & _ & _ & Ev & _ & _). rewrite Ev. split.
  - rewrite length_firstn. lia.
  - apply Forall_forall. intros e He. assert (He' : In e (showsEvents events))
      by (rewrite <- (firstn_skipn n); apply in_or_app; now left).
    clear He. rename He' into He.
    apply showsEvents_In in He. tauto.
Qed.
End PreviewFacts.

Section PreviewRefusals.
Context {P : Platform}.

(** X8. What the preview route refuses: an unknown datasource is a 404;
    a Ticketmaster source without readable coordinates is a 400
    [missing_coordinates], and with them but without an API key a 500
    [ticketmaster_api_key_missing]; a source whose type has no preview
    (such as [dcimprov], which can be fetched but not previewed) is a
    400 [preview_not_supported], with or without coordinates. *)
Theorem preview_refusals (w : PreviewWorld) (query : Query) (limitParam : option string) :
  api_datasource_preview w None query limitParam
  = (404, PreviewError "datasource_not_found" None)
  /\ (forall source,
        src_type source = "ticketmaster"%string ->
        requestCoordinates query = None ->
        api_datasource_preview w (Some source) query limitParam
        = (400, PreviewError "missing_coordinates" None))
  /\ (forall source,
        src_type source = "ticketmaster"%string ->
        requestCoordinates query <> None ->
        tm_api_key (pw_ticketmaster w) = EmptyString ->
        api_datasource_preview w (Some source) query limitParam
        = (500, PreviewError "ticketmaster_api_key_missing"
                  (Some "Ticketmaster API key missing"%string)))
  /\ (forall source,
        PREVIEW_HANDLERS w (src_type source) = None ->
        api_datasource_preview w (Some source) query limitParam
        = (400, PreviewError "preview_not_supported"
                  (Some "Preview not supported for this datasource type"%string)))
  /\ PREVIEW_HANDLERS w "dcimprov" = None.
Proof.
  split; [reflexivity|].
  unfold api_datasource_preview, requestCoordinates.
  split; [|split; [|split]].
  - intros source Ht Hc. rewrite Ht.
    change (String.eqb "ticketmaster" "ticketmaster") with true.
    destruct (finite_coordinate (normalizeCoordinate (nullish_or (q_lat query) (q_latitude query)) 4));
      [|reflexivity].
    destruct (finite_coordinate (normalizeCoordinate (nullish_or (q_lon query) (q_longitude query)) 4));
      [discriminate|reflexivity].
  - intros source Ht Hc Hk. rewrite Ht.
    change (String.eqb "ticketmaster" "ticketmaster") with true.
    destruct (finite_coordinate (normalizeCoordinate (nullish_or (q_lat query) (q_latitude query)) 4));
      [|congruence].
    destruct (finite_coordinate (normalizeCoordinate (nullish_or (q_lon query) (q_longitude query)) 4));
      [|congruence].
    cbn [andb negb].
    unfold fetchDatasourcePreview, PREVIEW_HANDLERS. rewrite Ht.
    change (String.eqb "ticketmaster" "ticketmaster") with true. cbv iota.
    unfold ticketmasterPreview, fetchTicketmasterEvents. rewrite Hk. reflexivity.
  - intros source Hn.
    assert (Ht : String.eqb (src_type source) "ticketmaster" = false).
    { unfold PREVIEW_HANDLERS in Hn.
      destruct (String.eqb (src_type source) "ticketmaster"); [discriminate|reflexivity]. }
    rewrite Ht. cbn [andb].
    unfold fetchDatasourcePreview. rewrite Hn. reflexivity.
  - reflexivity.
Qed.
End PreviewRefusals.

(** ** The look-ahead window *)

Section LookaheadFacts.
Context {P : Platform}.

Lemma validDate_falsy (iso : option string) : truthy iso = false -> validDate iso = None.
Proof.
  destruct iso as [s|]; [|reflexivity]. cbn [truthy validDate]. now intros ->.
Qed.

Lemma isEventInLookahead_span (now : Z) (startIso endIso : option string) (days : Z) :
  isEventInLookahead now startIso endIso days
  = match eventSpan startIso endIso with
    | None => true
    | Some (s, e) =>
        negb (match JsDate.TimeClip (windowEnd now days) with
              | Some w => w <? s
              | None => false
              end)
        && negb (e <? now)
    end.
Proof.
  unfold isEventInLookahead, eventSpan, windowEnd, JsDate.msPerDay.
  replace (now + days * 24 * 60 * 60 * 1000) with (now + days * 86400000) by lia.
  destruct (truthy startIso) eqn:Ts, (truthy endIso) eqn:Te; cbn [negb andb].
  4: now rewrite (validDate_falsy _ Ts), (validDate_falsy _ Te).
  all: destruct (validDate startIso) as [s|], (validDate endIso) as [e|];
    try reflexivity;
    destruct (JsDate.TimeClip (now + days * 86400000)) as [w|]; cbn [negb andb];
    repeat match goal with |- context [?a <? ?b] => destruct (a <? b) end; reflexivity.
Qed.

(** X9. The look-ahead filter keeps an event exactly when it starts no
    later than the end of the window and ends no earlier than now, where
    a missing or unreadable end counts as the start and the other way
    round; an event with no readable time at all is always kept.  So an
    event in progress is kept, and one that started before now without a
    readable end is dropped. *)
Theorem lookahead_window (now : Z) (startIso endIso : option string) (days : Z) :
  isTimeValue (windowEnd now days) ->
  isEventInLookahead now startIso endIso days = true
  <-> match eventSpan startIso endIso with
      | None => True
      | Some (s, e) => s <= windowEnd now days /\ now <= e
      end.
Proof.
  intros Hw. rewrite isEventInLookahead_span.
  unfold JsDate.TimeClip. unfold isTimeValue in Hw.
  destruct (Z.leb_spec (Z.abs (windowEnd now days)) 8640000000000000) as [_|H]; [|lia].
  destruct (eventSpan startIso endIso) as [[s e]|]; [|tauto].
  rewrite andb_true_iff, !negb_true_iff, !Z.ltb_ge. tauto.
Qed.

(** X10. A longer look-ahead never drops an event a shorter one keeps,
    as long as the shorter window ends at an instant a [Date] can
    hold. *)
Theorem lookahead_monotone (now : Z) (startIso endIso : option string) (days days' : Z) :
  isTimeValue (windowEnd now days) ->
  days <= days' ->
  isEventInLookahead now startIso endIso days = true ->
  isEventInLookahead now startIso endIso days' = true.
Proof.
  intros Hw Hd. rewrite !isEventInLookahead_span.
  destruct (eventSpan startIso endIso) as [[s e]|]; [|auto].
  unfold JsDate.TimeClip, isTimeValue, windowEnd, JsDate.msPerDay in *.
  destruct (Z.leb_spec (Z.abs (now + days * 86400000)) 8640000000000000) as [_|H]; [|lia].
  rewrite !andb_true_iff, !negb_true_iff, Z.ltb_ge. intros [Hs He]. split; [|exact He].
  destruct (Z.abs (now + days' * 86400000) <=? 8640000000000000); [|reflexivity].
  apply Z.ltb_ge. lia.
Qed.
End LookaheadFacts.

(** ** Instances *)

Lemma shows_cached_flag_witness :
  exists payload,
    responsePayload (api_shows (P := Reference.platform) RouteSamples.world
                       [RouteSamples.sourceA; RouteSamples.sourceB] RouteSamples.query)
    = Some payload
    /\ pl_cached payload = false /\ pl_segments payload = None.
Proof.
  destruct (requestCoordinates (P := Reference.platform) RouteSamples.query) as [c|] eqn:Hc;
    [|vm_compute in Hc; discriminate].
  destruct (responsePayload (api_shows (P := Reference.platform) RouteSamples.world
              [RouteSamples.sourceA; RouteSamples.sourceB] RouteSamples.query))
    as [payload|] eqn:Hp; [|vm_compute in Hp; discriminate].
  exists payload. split; [reflexivity|].
  destruct (shows_cached_flag (P := Reference.platform) RouteSamples.world
              [RouteSamples.sourceA; RouteSamples.sourceB] RouteSamples.query c payload Hc Hp)
    as [C S].
  rewrite C, S. split; reflexivity.
Defined.

Lemma preview_window_witness :
  exists result p,
    api_datasource_preview (P := Reference.platform) PreviewSamples.world
      (Some RouteSamples.sourceA) PreviewSamples.withoutCoordinates (Some "1"%string)
    = (200, PreviewOk result)
    /\ pr_preview result = EventPreview p
    /\ pv_events p
       = firstn 1 (showsEvents (P := Reference.platform) [RouteSamples.a1; RouteSamples.a2])
    /\ pv_total p = 2%nat
    /\ pv_truncated p = true
    /\ (List.length (pv_events p) <= 100)%nat.
Proof.
  destruct (api_datasource_preview (P := Reference.platform) PreviewSamples.world
              (Some RouteSamples.sourceA) PreviewSamples.withoutCoordinates (Some "1"%string))
    as [code answer] eqn:Hr.
  destruct answer as [error message|result]; [vm_compute in Hr; inversion Hr|].
  assert (Hcode : code = 200) by (vm_compute in Hr; inversion Hr; reflexivity).
  subst code.
  destruct (pr_preview result) as [p|contentType truncated raw] eqn:Hp;
    [|vm_compute in Hr; inversion Hr as [Hres]; rewrite <- Hres in Hp; discriminate Hp].
  destruct (preview_window (P := Reference.platform) PreviewSamples.world
              (Some RouteSamples.sourceA) PreviewSamples.withoutCoordinates (Some "1"%string)
              result p Hr Hp) as (_ & (source' & events & Hs & Hf & He & Ht & Htr) & Hlen & _).
  inversion Hs; subst source'.
  assert (Hev : events = [RouteSamples.a1; RouteSamples.a2])
    by (vm_compute in Hf; inversion Hf; reflexivity).
  subst events.
  exists result, p. repeat split; auto.
Defined.

Lemma preview_refusals_witness :
  api_datasource_preview (P := Reference.platform) PreviewSamples.world
    (Some RouteSamples.keyless) PreviewSamples.withoutCoordinates None
  = (400, PreviewError "missing_coordinates" None)
  /\ api_datasource_preview (P := Reference.platform) PreviewSamples.world
       (Some RouteSamples.keyless) RouteSamples.query None
     = (500, PreviewError "ticketmaster_api_key_missing"
               (Some "Ticketmaster API key missing"%string))
  /\ api_datasource_preview (P := Reference.platform) PreviewSamples.world
       (Some PreviewSamples.improv) PreviewSamples.withoutCoordinates None
     = (400, PreviewError "preview_not_supported"
               (Some "Preview not supported for this datasource type"%string)).
Proof.
  split; [|split].
  - apply (preview_refusals (P := Reference.platform) PreviewSamples.world
             PreviewSamples.withoutCoordinates None); reflexivity.
  - apply (preview_refusals (P := Reference.platform) PreviewSamples.world
             RouteSamples.query None); [reflexivity| |reflexivity].
    vm_compute. discriminate.
  - apply (preview_refusals (P := Reference.platform) PreviewSamples.world
             PreviewSamples.withoutCoordinates None). reflexivity.
Defined.

Lemma lookahead_window_witness :
  isEventInLookahead (P := Reference.platform) 1704222000000
    (Some "2024-01-06T20:00:00.000Z"%string) None 14 = true.
Proof.
  apply (lookahead_window (P := Reference.platform)).
  - unfold isTimeValue. vm_compute. discriminate.
  - vm_compute. split; discriminate.
Defined.

Lemma lookahead_monotone_witness :
  isEventInLookahead (P := Reference.platform) 1704222000000
    (Some "2024-01-03T10:00:00.000Z"%string) None 14 = true.
Proof.
  apply (lookahead_monotone (P := Reference.platform) _ _ _ 1 14).
  - unfold isTimeValue. vm_compute. discriminate.
  - lia.
  - reflexivity.
Defined.

(** ** Identifiers *)

Lemma is_hyphen_true (c : ascii) : is_hyphen c = true <-> c = "-"%char.
Proof. unfold is_hyphen. apply Ascii.eqb_eq. Qed.

Section Shapes.
Variable class : ascii -> bool.

Lemma slice_head_forall (n : nat) (s : string) :
  string_forall class s = true -> string_forall class (slice_head n s) = true.
Proof.
  revert s. induction n as [|n IH]; intros [|c r]; cbn; auto.
  rewrite !andb_true_iff. intros [Hc Hr]. auto.
Qed.

Lemma slice_head_length (n : nat) (s : string) : (String.length (slice_head n s) <= n)%nat.
Proof.
  revert s. induction n as [|n IH]; intros [|c r]; cbn; try lia.
  specialize (IH r). lia.
Qed.

Lemma slice_head_starts (p : ascii -> bool) (n : nat) (s : string) :
  starts_with p s = false -> starts_with p (slice_head n s) = false.
Proof. destruct n, s; cbn; auto. Qed.

Lemma slice_head_no_double (n : nat) (s : string) :
  no_double_hyphen s = true -> no_double_hyphen (slice_head n s) = true.
Proof.
  revert s. induction n as [|n IH]; intros [|c r]; cbn [slice_head no_double_hyphen]; auto.
  rewrite !andb_true_iff, !negb_true_iff, !andb_false_iff. intros [Hc Hr].
  split; [|now apply IH].
  destruct Hc as [Hc|Hc]; [now left|right]. now apply slice_head_starts.
Qed.

Lemma slice_head_all (n : nat) (s : string) :
  (String.length s <= n)%nat -> slice_head n s = s.
Proof.
  revert s. induction n as [|n IH]; intros [|c r]; cbn; intros H; try reflexivity; try lia.
  f_equal. apply IH. lia.
Qed.

Lemma drop_start_forall (p : ascii -> bool) (s : string) :
  string_forall class s = true -> string_forall class (drop_start p s) = true.
Proof.
  induction s as [|c r IH]; cbn [drop_start string_forall]; auto.
  rewrite andb_true_iff. intros [Hc Hr].
  destruct (p c); [auto|]. cbn. now rewrite Hc, Hr.
Qed.

Lemma drop_start_starts (p : ascii -> bool) (s : string) :
  starts_with p (drop_start p s) = false.
Proof.
  induction s as [|c r IH]; cbn [drop_start]; [reflexivity|].
  destruct (p c) eqn:E; [exact IH|]. exact E.
Qed.

Lemma drop_start_no_double (p : ascii -> bool) (s : string) :
  no_double_hyphen s = true -> no_double_hyphen (drop_start p s) = true.
Proof.
  induction s as [|c r IH]; cbn [drop_start]; auto.
  destruct (p c); [|auto]. cbn [no_double_hyphen]. rewrite andb_true_iff. tauto.
Qed.

Lemma drop_start_length (p : ascii -> bool) (s : string) :
  (String.length (drop_start p s) <= String.length s)%nat.
Proof.
  induction s as [|c r IH]; cbn [drop_start]; [lia|].
  destruct (p c); cbn [String.length] in *; lia.
Qed.

Lemma drop_start_id (p : ascii -> bool) (s : string) :
  starts_with p s = false -> drop_start p s = s.
Proof. destruct s as [|c r]; cbn; [reflexivity|]. now intros ->. Qed.

Lemma drop_end_cons (p : ascii -> bool) (c : ascii) (r : string) :
  drop_end p (String c r) = EmptyString
  \/ drop_end p (String c r) = String c (drop_end p r).
Proof.
  cbn [drop_end]. destruct (drop_end p r) eqn:E.
  - destruct (p c); auto.
  - auto.
Qed.

Lemma drop_end_forall (p : ascii -> bool) (s : string) :
  string_forall class s = true -> string_forall class (drop_end p s) = true.
Proof.
  induction s as [|c r IH]; [auto|].
  cbn [string_forall]. rewrite andb_true_iff. intros [Hc Hr].
  destruct (drop_end_cons p c r) as [E|E]; rewrite E; [reflexivity|].
  cbn. now rewrite Hc, IH.
Qed.

Lemma drop_end_starts (p q : ascii -> bool) (s : string) :
  starts_with q s = false -> starts_with q (drop_end p s) = false.
Proof.
  destruct s as [|c r]; [auto|]. intros H.
  destruct (drop_end_cons p c r) as [E|E]; rewrite E; [reflexivity|exact H].
Qed.

Lemma drop_end_no_double (p : ascii -> bool) (s : string) :
  no_double_hyphen s = true -> no_double_hyphen (drop_end p s) = true.
Proof.
  induction s as [|c r IH]; [auto|].
  cbn [no_double_hyphen]. rewrite andb_true_iff, negb_true_iff, andb_false_iff.
  intros [Hc Hr].
  destruct (drop_end_cons p c r) as [E|E]; rewrite E; [reflexivity|].
  cbn [no_double_hyphen]. rewrite IH by exact Hr. rewrite andb_true_r, negb_true_iff.
  apply andb_false_iff. destruct Hc as [Hc|Hc]; [now left|right].
  now apply drop_end_starts.
Qed.

Lemma drop_end_length (p : ascii -> bool) (s : string) :
  (String.length (drop_end p s) <= String.length s)%nat.
Proof.
  induction s as [|c r IH]; [cbn; lia|].
  destruct (drop_end_cons p c r) as [E|E]; rewrite E; cbn [String.length]; lia.
Qed.

Lemma drop_end_id (p : ascii -> bool) (s : string) :
  ends_with p s = false -> drop_end p s = s.
Proof.
  induction s as [|c r IH]; [reflexivity|].
  cbn [ends_with drop_end]. destruct r as [|d r'].
  - cbn. now intros ->.
  - intros H. rewrite (IH H). reflexivity.
Qed.

Lemma strip_hyphens_shape (s : string) :
  string_forall class s = true -> no_double_hyphen s = true ->
  string_forall class (strip_hyphens s) = true
  /\ starts_with is_hyphen (strip_hyphens s) = false
  /\ no_double_hyphen (strip_hyphens s) = true.
Proof.
  intros Hc Hd. unfold strip_hyphens. split; [|split].
  - now apply drop_end_forall, drop_start_forall.
  - apply drop_end_starts, drop_start_starts.
  - now apply drop_end_no_double, drop_start_no_double.
Qed.
End Shapes.

Lemma replace_each_forall (keep class : ascii -> bool) (s : string) :
  (forall c, keep c = true -> class c = true) -> class "-"%char = true ->
  string_forall class (replace_each keep s) = true.
Proof.
  intros Hk Hh. induction s as [|c r IH]; [reflexivity|].
  cbn. rewrite IH, andb_true_r. destruct (keep c) eqn:E; auto.
Qed.

Lemma replace_each_id (keep : ascii -> bool) (s : string) :
  string_forall keep s = true -> replace_each keep s = s.
Proof.
  induction s as [|c r IH]; [reflexivity|].
  cbn. rewrite andb_true_iff. intros [-> Hr]. now rewrite IH.
Qed.

Lemma replace_runs_class (keep class : ascii -> bool) (b : bool) (s : string) :
  (forall c, keep c = true -> class c = true) -> class "-"%char = true ->
  string_forall class (replace_runs keep b s) = true.
Proof.
  intros Hk Hh. revert b. induction s as [|c r IH]; intros b; [reflexivity|].
  cbn [replace_runs]. destruct (keep c) eqn:E.
  - cbn. now rewrite (Hk c E), IH.
  - destruct b; [now apply IH|]. cbn. now rewrite Hh, IH.
Qed.

Lemma replace_runs_no_double (keep : ascii -> bool) (b : bool) (s : string) :
  (forall c, keep c = true -> is_hyphen c = false) ->
  no_double_hyphen (replace_runs keep b s) = true
  /\ (b = true -> starts_with is_hyphen (replace_runs keep b s) = false).
Proof.
  intros Hk. revert b. induction s as [|c r IH]; intros b; [now split|].
  cbn [replace_runs]. destruct (keep c) eqn:E.
  - destruct (IH false) as [Hd _]. split.
    + cbn [no_double_hyphen]. now rewrite (Hk c E), Hd.
    + intros _. cbn. now apply Hk.
  - destruct (IH true) as [Hd Hs]. destruct b.
    + split; [exact Hd|exact Hs].
    + split; [|discriminate].
      cbn [no_double_hyphen]. rewrite Hd, (Hs eq_refl), andb_false_r. reflexivity.
Qed.

Lemma replace_runs_id (keep : ascii -> bool) (b : bool) (s : string) :
  (forall c, keep c = false -> is_hyphen c = true) ->
  no_double_hyphen s = true ->
  (b = true -> starts_with is_hyphen s = false) ->
  replace_runs keep b s = s.
Proof.
  intros Hk. revert b. induction s as [|c r IH]; intros b Hd Hb; [reflexivity|].
  cbn [no_double_hyphen] in Hd. apply andb_true_iff in Hd. destruct Hd as [Hc Hr].
  cbn [replace_runs]. destruct (keep c) eqn:E.
  - f_equal. apply IH; [exact Hr|discriminate].
  - pose proof (Hk c E) as Hh. destruct b.
    + cbn in Hb. rewrite Hb in Hh by reflexivity. discriminate.
    + apply is_hyphen_true in Hh as Hh'. rewrite <- Hh'. f_equal.
      apply IH; [exact Hr|]. intros _. rewrite Hh in Hc. cbn in Hc.
      now apply negb_true_iff in Hc.
Qed.

Lemma id_char_fixed (c : ascii) :
  is_id_char c = true -> lower_char c = c /\ is_space c = false.
Proof.
  destruct c as [[] [] [] [] [] [] [] []]; vm_compute; intros H;
    try discriminate H; split; reflexivity.
Qed.

Lemma lower_alnum_not_hyphen (c : ascii) : is_lower_alnum c = true -> is_hyphen c = false.
Proof.
  destruct c as [[] [] [] [] [] [] [] []]; vm_compute; intros H;
    try discriminate H; reflexivity.
Qed.

Lemma toLowerCase_id (s : string) :
  string_forall is_id_char s = true -> toLowerCase s = s.
Proof.
  induction s as [|c r IH]; [reflexivity|].
  cbn [string_forall toLowerCase]. rewrite andb_true_iff. intros [Hc Hr].
  destruct (id_char_fixed c Hc) as [-> _]. now rewrite IH.
Qed.

Lemma trim_end_id (s : string) :
  string_forall is_id_char s = true -> trim_end s = s.
Proof.
  induction s as [|c r IH]; [reflexivity|].
  cbn [string_forall trim_end]. rewrite andb_true_iff. intros [Hc Hr].
  rewrite (IH Hr). destruct (id_char_fixed c Hc) as [_ ->]. now destruct r.
Qed.

Lemma trim_id (s : string) :
  string_forall is_id_char s = true -> trim s = s.
Proof.
  intros H. unfold trim.
  assert (E : trim_start s = s).
  { destruct s as [|c r]; [reflexivity|].
    cbn [string_forall] in H. apply andb_true_iff in H. destruct H as [Hc _].
    cbn. now destruct (id_char_fixed c Hc) as [_ ->]. }
  rewrite E. now apply trim_end_id.
Qed.

Lemma wellShaped_slice (class : ascii -> bool) (n : nat) (s : string) :
  string_forall class s = true -> starts_with is_hyphen s = false ->
  no_double_hyphen s = true ->
  wellShaped class n (slice_head n s).
Proof.
  intros Hc Hs Hd. repeat split.
  - now apply slice_head_forall.
  - now apply slice_head_starts.
  - now apply slice_head_no_double.
  - apply slice_head_length.
Qed.

Lemma normalizeDatasourceId_shape (value : option string) :
  wellShaped is_id_char 64 (normalizeDatasourceId value).
Proof.
  unfold normalizeDatasourceId.
  destruct value as [s|]; [|repeat split; cbn; lia].
  destruct (non_empty s); cbn [negb]; [|repeat split; cbn; lia].
  set (mapped := replace_each is_id_char (toLowerCase (trim s))).
  set (collapsed := replace_runs (fun c => negb (is_hyphen c)) false mapped).
  assert (Hm : string_forall is_id_char mapped = true)
    by (apply replace_each_forall; [auto|reflexivity]).
  assert (Hc : string_forall is_id_char collapsed = true).
  { unfold collapsed. clear -Hm. generalize false.
    induction mapped as [|c r IH]; intros b; [reflexivity|].
    cbn [string_forall] in Hm. apply andb_true_iff in Hm. destruct Hm as [Hc Hr].
    cbn [replace_runs]. destruct (negb (is_hyphen c)).
    - cbn. now rewrite Hc, IH.
    - destruct b; [now apply IH|]. cbn. now rewrite IH. }
  assert (Hd : no_double_hyphen collapsed = true).
  { apply replace_runs_no_double. intros c H. now apply negb_true_iff in H. }
  destruct (strip_hyphens_shape is_id_char collapsed Hc Hd) as (A & B & C).
  now apply wellShaped_slice.
Qed.

Lemma normalizeDatasourceId_fixed (s : string) :
  wellShaped is_id_char 64 s -> ends_with is_hyphen s = false ->
  normalizeDatasourceId (Some s) = s.
Proof.
  intros (Hc & Hs & Hd & Hl) He. unfold normalizeDatasourceId.
  destruct s as [|c r] eqn:Es; [reflexivity|]. rewrite <- Es in *.
  replace (non_empty s) with true by now rewrite Es. cbn [negb].
  rewrite (trim_id s Hc), (toLowerCase_id s Hc), (replace_each_id _ s Hc).
  rewrite replace_runs_id; [|intros ch H; now apply negb_false_iff in H|exact Hd|discriminate].
  unfold strip_hyphens. rewrite (drop_start_id _ s Hs), (drop_end_id _ s He).
  now apply slice_head_all.
Qed.

(** X11. A datasource id, however it was typed, is normalised to at most
    64 characters among [a-z], [0-9], hyphen and underscore, with no
    hyphen at the head and no two hyphens in a row.  An id that has this
    shape and does not end in a hyphen is its own normal form, so
    normalising is idempotent except on a result that the cut at 64
    characters left ending in a hyphen. *)
Theorem datasource_id_normal_form (value : option string) :
  let id := normalizeDatasourceId value in
  wellShaped is_id_char 64 id
  /\ (ends_with is_hyphen id = false -> normalizeDatasourceId (Some id) = id)
  /\ (forall s, wellShaped is_id_char 64 s -> ends_with is_hyphen s = false ->
                normalizeDatasourceId (Some s) = s).
Proof.
  cbv zeta. split; [apply normalizeDatasourceId_shape|].
  split; [|exact normalizeDatasourceId_fixed].
  intros He. apply normalizeDatasourceId_fixed; [apply normalizeDatasourceId_shape|exact He].
Qed.

Lemma slug_runs_shape (s : string) :
  wellShaped is_slug_char 80
    (slice_head 80 (strip_hyphens (replace_runs is_lower_alnum false s))).
Proof.
  set (replaced := replace_runs is_lower_alnum false s).
  assert (Hc : string_forall is_slug_char replaced = true).
  { apply replace_runs_class; [|reflexivity].
    intros c H. unfold is_slug_char. now rewrite H. }
  assert (Hd : no_double_hyphen replaced = true)
    by (apply replace_runs_no_double, lower_alnum_not_hyphen).
  destruct (strip_hyphens_shape is_slug_char replaced Hc Hd) as (A & B & C).
  now apply wellShaped_slice.
Qed.

Lemma or_else_shape (n : nat) (s fallback : string) :
  wellShaped is_slug_char n s -> wellShaped is_slug_char n fallback ->
  fallback <> EmptyString ->
  or_else s fallback <> EmptyString /\ wellShaped is_slug_char n (or_else s fallback).
Proof.
  intros Hs Hf Hn. unfold or_else. destruct s; cbn [non_empty]; [auto|].
  split; [discriminate|exact Hs].
Qed.

Lemma before_T_app (d t : string) :
  before_T (d ++ String "T" t)%string = before_T d.
Proof.
  induction d as [|c r IH]; cbn [append before_T].
  - reflexivity.
  - destruct (Ascii.eqb c "T"); [reflexivity|]. now rewrite IH.
Qed.

Lemma before_T_free (s : string) :
  string_forall (fun c => negb (Ascii.eqb c "T")) (before_T s) = true.
Proof.
  induction s as [|c r IH]; [reflexivity|].
  cbn [before_T]. destruct (Ascii.eqb c "T") eqn:E; [reflexivity|].
  cbn [string_forall]. now rewrite E, IH.
Qed.

Lemma datePart_app (d t1 t2 : string) :
  datePart (Some (d ++ String "T" t1)%string) = datePart (Some (d ++ String "T" t2)%string).
Proof.
  unfold datePart. rewrite !before_T_app.
  now destruct d.
Qed.

(** X12. The id of a feed or scraped event is the source id (or the
    scraper's name), a slug and the date part of the start, joined by
    [::], with the first 40 characters of the address after its scheme
    appended for a scraped show.  The slug is never empty, has at most
    80 characters among [a-z], [0-9] and hyphen, does not start with a
    hyphen and has no two hyphens in a row, so it holds no [:]. *)
Theorem event_id_shape :
  (forall sourceId guid title startIso link,
      exists sl,
        buildRssEventId sourceId guid title startIso link
        = (sourceId ++ "::" ++ sl ++ "::" ++ datePart startIso)%string
        /\ sl <> EmptyString /\ wellShaped is_slug_char 80 sl)
  /\ (forall prefix name localIso url,
         exists sl rest,
           buildScrapedEventId prefix name localIso url
           = (prefix ++ "::" ++ sl ++ "::" ++ datePart localIso ++ rest)%string
           /\ sl <> EmptyString /\ wellShaped is_slug_char 80 sl
           /\ (rest = EmptyString
               \/ exists u, rest = ("::" ++ u)%string /\ (String.length u <= 40)%nat)).
Proof.
  assert (Fe : wellShaped is_slug_char 80 "event") by (repeat split; cbn; lia).
  assert (Fs : wellShaped is_slug_char 80 "show") by (repeat split; cbn; lia).
  split.
  - intros sourceId guid title startIso link. unfold buildRssEventId, slug.
    eexists. split; [reflexivity|].
    apply or_else_shape; [apply slug_runs_shape|exact Fe|discriminate].
  - intros prefix name localIso url. unfold buildScrapedEventId.
    eexists. eexists. split; [reflexivity|].
    destruct (or_else_shape 80 _ "show" (slug_runs_shape
                (match name with Some s => toLowerCase s | None => "show"%string end))
                Fs ltac:(discriminate)) as [A B].
    split; [exact A|]. split; [exact B|].
    destruct (non_empty _); [right|now left].
    eexists. split; [reflexivity|].
    destruct url as [u|]; [|cbn; lia].
    destruct (non_empty u); [apply slice_head_length|cbn; lia].
Qed.

(** X13. Event ids do not tell times of day or letter case apart: two
    feed items, or two scraped shows, that differ only in the time after
    the [T] of their start, or only in the case of the letters the slug
    is made from, get the same id. *)
Theorem event_id_collisions :
  (forall sourceId guid title link d t1 t2,
      buildRssEventId sourceId guid title (Some (d ++ String "T" t1)%string) link
      = buildRssEventId sourceId guid title (Some (d ++ String "T" t2)%string) link)
  /\ (forall prefix name url d t1 t2,
         buildScrapedEventId prefix name (Some (d ++ String "T" t1)%string) url
         = buildScrapedEventId prefix name (Some (d ++ String "T" t2)%string) url)
  /\ (forall sourceId a b title startIso link,
         a <> EmptyString -> b <> EmptyString -> same_ignoring_case a b ->
         buildRssEventId sourceId (Some a) title startIso link
         = buildRssEventId sourceId (Some b) title startIso link)
  /\ (forall prefix a b localIso url,
         same_ignoring_case a b ->
         buildScrapedEventId prefix (Some a) localIso url
         = buildScrapedEventId prefix (Some b) localIso url).
Proof.
  split; [|split; [|split]].
  - intros. unfold buildRssEventId. now rewrite (datePart_app d t1 t2).
  - intros. unfold buildScrapedEventId. now rewrite (datePart_app d t1 t2).
  - intros sourceId a b title startIso link Ha Hb H.
    unfold buildRssEventId, first_truthy, slug. cbn [truthy].
    apply non_empty_true in Ha, Hb. rewrite Ha, Hb. cbv iota. rewrite Ha, Hb.
    unfold same_ignoring_case in H. now rewrite H.
  - intros prefix a b localIso url H. unfold buildScrapedEventId.
    unfold same_ignoring_case in H. now rewrite H.
Qed.

Lemma datasource_id_normal_form_witness :
  normalizeDatasourceId (Some "  My Feed / DC!! "%string) = "my-feed-dc"%string
  /\ normalizeDatasourceId (Some "my-feed-dc"%string) = "my-feed-dc"%string.
Proof.
  split; [reflexivity|].
  apply (proj2 (proj2 (datasource_id_normal_form None))).
  - repeat split; cbn; lia.
  - reflexivity.
Defined.

(** The cut at 64 characters can leave a hyphen at the end: the normal
    form of such an id is not a fixed point. *)
Lemma normalizeDatasourceId_cut :
  let id := normalizeDatasourceId
              (Some "aaaaaaaaaaaaaaaaaaaaaaaaaaaaaaaaaaaaaaaaaaaaaaaaaaaaaaaaaaaaaaa-b"%string) in
  ends_with is_hyphen id = true
  /\ normalizeDatasourceId (Some id) <> id.
Proof. cbv zeta. split; [reflexivity|]. vm_compute. discriminate. Qed.

Lemma event_id_collisions_witness :
  buildRssEventId "smithsonian" (Some "Jazz-Night"%string) None
    (Some "2024-01-06T20:00:00.000Z"%string) None
  = buildRssEventId "smithsonian" (Some "JAZZ-NIGHT"%string) None
      (Some "2024-01-06T20:00:00.000Z"%string) None.
Proof.
  apply event_id_collisions; [discriminate|discriminate|reflexivity].
Defined.

(** ** The in-memory cache of the Eventbrite proxy *)

Lemma cache_delete_keys (key : string) (m : MemoryCache) :
  NoDup (cacheKeys m) ->
  cacheKeys (cache_delete key m) = remove string_dec key (cacheKeys m).
Proof.
  intros Hn. induction m as [|[k e] rest IH]; [reflexivity|].
  cbn [cacheKeys map fst] in Hn. fold (cacheKeys rest) in Hn.
  inversion Hn as [|? ? Hk Hr]; subst.
  cbn [cache_delete cacheKeys map fst remove]. fold (cacheKeys rest).
  destruct (String.eqb_spec k key) as [E|E].
  - subst k. destruct (string_dec key key) as [_|C]; [|contradiction].
    symmetry. now apply notin_remove.
  - destruct (string_dec key k) as [C|_]; [congruence|].
    cbn [cacheKeys map fst]. fold (cacheKeys (cache_delete key rest)).
    now rewrite IH.
Qed.

Lemma cache_delete_In (key k : string) (m : MemoryCache) :
  In k (cacheKeys (cache_delete key m)) -> In k (cacheKeys m).
Proof.
  induction m as [|[k' e] rest IH]; [auto|].
  cbn [cache_delete]. destruct (String.eqb k' key).
  - cbn. auto.
  - cbn. intros [H|H]; auto.
Qed.

Lemma cache_delete_NoDup (key : string) (m : MemoryCache) :
  NoDup (cacheKeys m) -> NoDup (cacheKeys (cache_delete key m)).
Proof.
  induction m as [|[k e] rest IH]; [auto|].
  cbn [cacheKeys map fst]. fold (cacheKeys rest). intros Hn.
  inversion Hn as [|? ? Hk Hr]; subst.
  cbn [cache_delete]. destruct (String.eqb k key); [exact Hr|].
  cbn [cacheKeys map fst]. fold (cacheKeys (cache_delete key rest)).
  constructor; [|now apply IH]. intros H. apply Hk. now apply cache_delete_In in H.
Qed.

Lemma cache_delete_absent (key : string) (m : MemoryCache) :
  NoDup (cacheKeys m) -> cache_get key (cache_delete key m) = None.
Proof.
  induction m as [|[k e] rest IH]; [auto|].
  cbn [cacheKeys map fst]. fold (cacheKeys rest). intros Hn.
  inversion Hn as [|? ? Hk Hr]; subst.
  cbn [cache_delete]. destruct (String.eqb_spec k key) as [E|E].
  - subst k. clear -Hk. induction rest as [|[k' e'] r IH]; [reflexivity|].
    cbn [cache_get]. destruct (String.eqb_spec k' key) as [E|E].
    + exfalso. apply Hk. cbn. now left.
    + apply IH. intros H. apply Hk. cbn. now right.
  - cbn [cache_get]. destruct (String.eqb_spec k key); [contradiction|]. now apply IH.
Qed.

Lemma cache_delete_other (key k : string) (m : MemoryCache) :
  k <> key -> cache_get key (cache_delete k m) = cache_get key m.
Proof.
  intros Hk. induction m as [|[k' e] rest IH]; [reflexivity|].
  cbn [cache_delete cache_get]. destruct (String.eqb_spec k' k) as [E|E].
  - subst k'. destruct (String.eqb_spec k key); [contradiction|reflexivity].
  - cbn [cache_get]. now rewrite IH.
Qed.

Lemma cache_delete_length (key : string) (m : MemoryCache) :
  (List.length (cache_delete key m) <= List.length m)%nat.
Proof.
  induction m as [|[k e] rest IH]; [auto|].
  cbn [cache_delete]. destruct (String.eqb k key); cbn [List.length]; lia.
Qed.

Lemma cache_delete_present (key : string) (m : MemoryCache) :
  In key (cacheKeys m) -> S (List.length (cache_delete key m)) = List.length m.
Proof.
  induction m as [|[k e] rest IH]; [intros []|].
  cbn [cache_delete cacheKeys map fst In]. fold (cacheKeys rest).
  destruct (String.eqb_spec k key) as [E|E]; [reflexivity|].
  intros [H|H]; [contradiction|]. cbn [List.length]. now rewrite IH.
Qed.

Lemma cache_get_In (key : string) (m : MemoryCache) :
  cache_get key m <> None <-> In key (cacheKeys m).
Proof.
  induction m as [|[k e] rest IH]; [cbn; tauto|].
  cbn [cache_get cacheKeys map fst In]. fold (cacheKeys rest).
  destruct (String.eqb_spec k key) as [E|E].
  - split; [now left|discriminate].
  - rewrite IH. tauto.
Qed.

Lemma cache_set_present (key : string) (entry : CacheEntry) (m : MemoryCache) :
  In key (cacheKeys m) -> cacheKeys (cache_set key entry m) = cacheKeys m.
Proof.
  induction m as [|[k e] rest IH]; [intros []|].
  cbn [cache_set cacheKeys map fst In]. fold (cacheKeys rest).
  destruct (String.eqb_spec k key) as [E|E]; [reflexivity|].
  intros [H|H]; [contradiction|].
  cbn [cacheKeys map fst]. fold (cacheKeys (cache_set key entry rest)). now rewrite IH.
Qed.

Lemma cache_set_absent (key : string) (entry : CacheEntry) (m : MemoryCache) :
  ~ In key (cacheKeys m) -> cache_set key entry m = m ++ [(key, entry)].
Proof.
  induction m as [|[k e] rest IH]; [reflexivity|].
  cbn [cache_set cacheKeys map fst In]. fold (cacheKeys rest). intros H.
  destruct (String.eqb_spec k key) as [E|E]; [tauto|].
  cbn [app]. rewrite IH; tauto.
Qed.

Lemma cache_get_set (key : string) (entry : CacheEntry) (m : MemoryCache) :
  cache_get key (cache_set key entry m) = Some entry.
Proof.
  induction m as [|[k e] rest IH]; cbn [cache_set cache_get].
  - now rewrite String.eqb_refl.
  - destruct (String.eqb_spec k key) as [E|E]; cbn [cache_get].
    + subst k. now rewrite String.eqb_refl.
    + destruct (String.eqb_spec k key); [contradiction|exact IH].
Qed.

Lemma cacheKeys_app (a b : MemoryCache) : cacheKeys (a ++ b) = cacheKeys a ++ cacheKeys b.
Proof. apply map_app. Qed.

Lemma cacheKeys_length (m : MemoryCache) : List.length (cacheKeys m) = List.length m.
Proof. apply length_map. Qed.

(** What a write does to the keys. *)
Lemma setEventbriteCacheEntry_keys (now : Z) (key : string) (value : CachedResponse)
    (m : MemoryCache) :
  (List.length m <= EVENTBRITE_CACHE_MAX_ENTRIES)%nat ->
  NoDup (cacheKeys m) ->
  cacheKeys (setEventbriteCacheEntry now key value m)
  = if in_dec string_dec key (cacheKeys m) then cacheKeys m
    else if Nat.ltb (List.length m) EVENTBRITE_CACHE_MAX_ENTRIES then cacheKeys m ++ [key]
    else match cacheKeys m with
         | oldest :: rest => if non_empty oldest then rest ++ [key] else cacheKeys m ++ [key]
         | [] => [key]
         end.
Proof.
  intros Hl Hn. unfold setEventbriteCacheEntry. cbv zeta.
  destruct (in_dec string_dec key (cacheKeys m)) as [Hin|Hin].
  - pose proof (cache_set_present key (mkCacheEntry now value) m Hin) as E.
    assert (L : List.length (cache_set key (mkCacheEntry now value) m) = List.length m)
      by (rewrite <- !cacheKeys_length; now rewrite E).
    rewrite L. destruct (Nat.ltb_spec EVENTBRITE_CACHE_MAX_ENTRIES (List.length m)); [lia|].
    exact E.
  - rewrite (cache_set_absent key _ m Hin). rewrite length_app. cbn [List.length].
    destruct (Nat.ltb_spec (List.length m) EVENTBRITE_CACHE_MAX_ENTRIES) as [H|H].
    + destruct (Nat.ltb_spec EVENTBRITE_CACHE_MAX_ENTRIES (List.length m + 1)); [lia|].
      rewrite cacheKeys_app. reflexivity.
    + destruct (Nat.ltb_spec EVENTBRITE_CACHE_MAX_ENTRIES (List.length m + 1)); [|lia].
      destruct m as [|[k e] rest];
        [exfalso; unfold EVENTBRITE_CACHE_MAX_ENTRIES in H; cbn in H; lia|].
      cbn [app cacheKeys map fst]. fold (cacheKeys rest).
      destruct (non_empty k).
      * cbn [cache_delete]. rewrite String.eqb_refl.
        rewrite cacheKeys_app. reflexivity.
      * cbn [cacheKeys map fst]. fold (cacheKeys (rest ++ [(key, mkCacheEntry now value)])).
        rewrite cacheKeys_app. reflexivity.
Qed.

(** What a read does to the keys. *)
Lemma getEventbriteCacheEntry_keys (now : Z) (key : string) (m : MemoryCache) :
  NoDup (cacheKeys m) ->
  cacheKeys (snd (getEventbriteCacheEntry now key m))
  = match fst (getEventbriteCacheEntry now key m) with
    | Some _ => remove string_dec key (cacheKeys m) ++ [key]
    | None => remove string_dec key (cacheKeys m)
    end
  \/ (cache_get key m = None /\ snd (getEventbriteCacheEntry now key m) = m).
Proof.
  intros Hn. unfold getEventbriteCacheEntry.
  destruct (cache_get key m) as [entry|] eqn:G; [left|right; now split].
  pose proof (cache_delete_keys key m Hn) as D.
  destruct (EVENTBRITE_CACHE_TTL_MS <? now - ce_timestamp entry); cbn [fst snd].
  - exact D.
  - rewrite cache_set_absent.
    + rewrite cacheKeys_app, D. reflexivity.
    + rewrite D. apply remove_In.
Qed.

Lemma remove_keys_facts (key : string) (ks : list string) :
  NoDup ks -> Forall (fun k => k <> EmptyString) ks ->
  NoDup (remove string_dec key ks)
  /\ Forall (fun k => k <> EmptyString) (remove string_dec key ks)
  /\ (In key ks -> S (List.length (remove string_dec key ks)) = List.length ks).
Proof.
  intros Hn Hf. induction ks as [|k r IH]; [repeat split; [constructor|constructor|intros []]|].
  inversion Hn as [|? ? Hk Hr]; subst. inversion Hf as [|? ? Hk' Hr']; subst.
  destruct (IH Hr Hr') as (A & B & C). cbn [remove].
  destruct (string_dec key k) as [E|E].
  - subst k. rewrite (notin_remove string_dec r key Hk).
    repeat split; auto.
  - repeat split.
    + constructor; [|exact A]. intros H. apply in_remove in H. tauto.
    + constructor; assumption.
    + intros [H|H]; [congruence|]. cbn [List.length]. now rewrite C.
Qed.

Lemma cacheStep_invariant (m : MemoryCache) (op : CacheOp) :
  cacheInvariant m -> namedWrite op -> cacheInvariant (cacheStep m op).
Proof.
  unfold cacheInvariant. rewrite <- !cacheKeys_length.
  intros (Hn & Hf & Hl) Hw. destruct op as [now key|now key value]; cbn [cacheStep].
  - destruct (getEventbriteCacheEntry_keys now key m Hn) as [E|[_ E]];
      [|rewrite E; auto].
    destruct (remove_keys_facts key (cacheKeys m) Hn Hf) as (A & B & C).
    assert (Hin : fst (getEventbriteCacheEntry now key m) <> None -> In key (cacheKeys m)).
    { unfold getEventbriteCacheEntry. destruct (cache_get key m) eqn:G.
      - intros _. apply cache_get_In. congruence.
      - cbn. congruence. }
    rewrite E. destruct (fst (getEventbriteCacheEntry now key m)).
    + assert (Hk : In key (cacheKeys m)) by (apply Hin; discriminate).
      repeat split.
      * apply NoDup_app; [exact A|repeat constructor; intros []|].
        intros x Hx [Hy|[]]. subst x. now apply remove_In in Hx.
      * apply Forall_app. split; [exact B|]. constructor; [|constructor].
        rewrite Forall_forall in Hf. now apply Hf.
      * rewrite length_app. cbn [List.length]. specialize (C Hk). lia.
    + repeat split; auto.
      pose proof (remove_length_le string_dec (cacheKeys m) key). lia.
  - cbn in Hw. rewrite cacheKeys_length in Hl.
    rewrite (setEventbriteCacheEntry_keys now key value m Hl Hn).
    rewrite <- cacheKeys_length in Hl.
    destruct (in_dec string_dec key (cacheKeys m)) as [Hin|Hin]; [auto|].
    assert (Happ : forall ks, NoDup ks -> Forall (fun k => k <> EmptyString) ks ->
                     ~ In key ks ->
                     NoDup (ks ++ [key]) /\ Forall (fun k => k <> EmptyString) (ks ++ [key])).
    { intros ks N F I. split.
      - apply NoDup_app; [exact N|repeat constructor; intros []|].
        intros x Hx [Hy|[]]. now subst x.
      - apply Forall_app. split; [exact F|]. constructor; [exact Hw|constructor]. }
    rewrite <- cacheKeys_length.
    destruct (Nat.ltb_spec (List.length (cacheKeys m)) EVENTBRITE_CACHE_MAX_ENTRIES) as [H|H].
    + destruct (Happ _ Hn Hf Hin) as [A B]. repeat split; auto.
      rewrite length_app. cbn [List.length]. lia.
    + destruct (cacheKeys m) as [|k r] eqn:Ek.
      * repeat split; [repeat constructor; intros []|repeat constructor; exact Hw|].
        cbn. unfold EVENTBRITE_CACHE_MAX_ENTRIES. lia.
      * inversion Hn as [|? ? Hk Hr]; subst. inversion Hf as [|? ? Hk' Hr']; subst.
        apply non_empty_true in Hk'. rewrite Hk'.
        destruct (Happ r Hr Hr') as [A B]; [cbn in Hin; tauto|].
        repeat split; auto. rewrite length_app. cbn [List.length] in *. lia.
Qed.

(** X14. Whatever reads and writes the proxy makes, its in-memory cache
    never holds more than 200 entries, as long as no write uses the
    empty string as its key (the eviction skips an oldest key that is
    empty). *)
Theorem cache_bounded (ops : list CacheOp) :
  Forall namedWrite ops ->
  cacheInvariant (fold_left cacheStep ops [])
  /\ (List.length (fold_left cacheStep ops []) <= 200)%nat.
Proof.
  intros H.
  assert (I : cacheInvariant (fold_left cacheStep ops [])).
  { assert (I0 : cacheInvariant []).
    { repeat split; [constructor|constructor|cbn; unfold EVENTBRITE_CACHE_MAX_ENTRIES; lia]. }
    revert I0. generalize (@nil (string * CacheEntry)) as m.
    induction H as [|op ops Hop Hops IH]; intros m I0; [exact I0|].
    cbn [fold_left]. apply IH. now apply cacheStep_invariant. }
  split; [exact I|]. apply I.
Qed.

Lemma set_then_get (now : Z) (key : string) (value : CachedResponse) (m : MemoryCache) :
  (List.length m <= EVENTBRITE_CACHE_MAX_ENTRIES)%nat ->
  cache_get key (setEventbriteCacheEntry now key value m) = Some (mkCacheEntry now value).
Proof.
  intros Hl. unfold setEventbriteCacheEntry. cbv zeta.
  pose proof (cache_get_set key (mkCacheEntry now value) m) as G.
  destruct (Nat.ltb_spec EVENTBRITE_CACHE_MAX_ENTRIES
              (List.length (cache_set key (mkCacheEntry now value) m))) as [H|H]; [|exact G].
  destruct (in_dec string_dec key (cacheKeys m)) as [Hin|Hin].
  - pose proof (cache_set_present key (mkCacheEntry now value) m Hin) as E.
    rewrite <- cacheKeys_length, E, cacheKeys_length in H. lia.
  - rewrite (cache_set_absent key _ m Hin) in *.
    destruct m as [|[k e] rest]; [cbn in H; unfold EVENTBRITE_CACHE_MAX_ENTRIES in H; lia|].
    cbn [app]. destruct (non_empty k); [|exact G].
    rewrite cache_delete_other; [exact G|].
    intros ->. apply Hin. cbn. now left.
Qed.

(** X15. What the proxy writes to its in-memory cache it reads back
    under the same key for 24 hours; a read after that returns nothing
    and removes the entry, so that no later read, whatever the clock
    says then, returns it. *)
Theorem cache_round_trip (now now' : Z) (key : string) (value : CachedResponse)
    (m : MemoryCache) :
  cacheInvariant m -> key <> EmptyString ->
  let written := setEventbriteCacheEntry now key value m in
  (now' - now <= EVENTBRITE_CACHE_TTL_MS ->
   fst (getEventbriteCacheEntry now' key written) = Some value)
  /\ (EVENTBRITE_CACHE_TTL_MS < now' - now ->
      fst (getEventbriteCacheEntry now' key written) = None
      /\ forall later,
           fst (getEventbriteCacheEntry later key
                  (snd (getEventbriteCacheEntry now' key written))) = None).
Proof.
  intros I Hk written.
  assert (G : cache_get key written = Some (mkCacheEntry now value))
    by (apply set_then_get, I).
  assert (I' : cacheInvariant written)
    by (apply (cacheStep_invariant m (CacheWrite now key value) I Hk)).
  unfold getEventbriteCacheEntry. rewrite G. cbn [ce_timestamp ce_value].
  split; intros H.
  - destruct (Z.ltb_spec EVENTBRITE_CACHE_TTL_MS (now' - now)); [lia|reflexivity].
  - destruct (Z.ltb_spec EVENTBRITE_CACHE_TTL_MS (now' - now)); [|lia].
    cbn [fst snd]. split; [reflexivity|]. intros later.
    rewrite cache_delete_absent by apply I'. reflexivity.
Qed.

(** X16. The cache evicts in order of last use, where a hit counts as a
    use and an overwrite does not: a write under a new key into a full
    cache drops the key at the head and appends the new one; a read that
    hits moves its key to the end; a write under a key that is present
    leaves the order of the keys as it is. *)
Theorem cache_eviction_order (now : Z) (key : string) (m : MemoryCache) :
  cacheInvariant m ->
  (forall value,
      key <> EmptyString -> ~ In key (cacheKeys m) ->
      List.length m = EVENTBRITE_CACHE_MAX_ENTRIES ->
      cacheKeys (setEventbriteCacheEntry now key value m) = tl (cacheKeys m) ++ [key])
  /\ (fst (getEventbriteCacheEntry now key m) <> None ->
      cacheKeys (snd (getEventbriteCacheEntry now key m))
      = remove string_dec key (cacheKeys m) ++ [key])
  /\ (forall value,
         In key (cacheKeys m) ->
         cacheKeys (setEventbriteCacheEntry now key value m) = cacheKeys m).
Proof.
  intros (Hn & Hf & Hl). split; [|split].
  - intros value Hk Hin Hfull.
    rewrite (setEventbriteCacheEntry_keys now key value m Hl Hn).
    destruct (in_dec string_dec key (cacheKeys m)); [contradiction|].
    destruct (Nat.ltb_spec (List.length m) EVENTBRITE_CACHE_MAX_ENTRIES); [lia|].
    destruct (cacheKeys m) as [|k r] eqn:E.
    + apply (f_equal (@List.length string)) in E. rewrite cacheKeys_length in E.
      rewrite Hfull in E. discriminate E.
    + inversion Hf as [|? ? Hk' _]; subst. apply non_empty_true in Hk'.
      now rewrite Hk'.
  - intros Hhit.
    destruct (getEventbriteCacheEntry_keys now key m Hn) as [E|[G _]].
    + rewrite E. destruct (fst (getEventbriteCacheEntry now key m)); [reflexivity|].
      now contradiction Hhit.
    + exfalso. apply Hhit. unfold getEventbriteCacheEntry. now rewrite G.
  - intros value Hin.
    rewrite (setEventbriteCacheEntry_keys now key value m Hl Hn).
    destruct (in_dec string_dec key (cacheKeys m)); [reflexivity|contradiction].
Qed.

Lemma cache_bounded_witness :
  (List.length (fold_left cacheStep
                  [CacheWrite 0 "a" CacheSamples.answer; CacheRead 1 "a";
                   CacheWrite 2 "b" CacheSamples.answer] []) <= 200)%nat.
Proof.
  apply cache_bounded.
  repeat constructor; discriminate.
Defined.

(** With the empty string as a key the bound is lost: once it is the
    oldest key nothing is evicted any more. *)
Lemma cache_unbounded_with_empty_key :
  List.length (fold_left cacheStep
                 (CacheWrite 0 EmptyString CacheSamples.answer :: CacheSamples.fill 200) [])
  = 201%nat.
Proof. vm_compute. reflexivity. Qed.

Lemma cacheInvariant_two : cacheInvariant CacheSamples.two.
Proof.
  repeat split.
  - repeat constructor; cbn; intuition discriminate.
  - repeat constructor; discriminate.
  - cbn. unfold EVENTBRITE_CACHE_MAX_ENTRIES. lia.
Qed.

Lemma cache_round_trip_witness :
  fst (getEventbriteCacheEntry 3600000 "c"
         (setEventbriteCacheEntry 0 "c" CacheSamples.answer CacheSamples.two))
  = Some CacheSamples.answer.
Proof.
  apply (cache_round_trip 0 3600000 "c" CacheSamples.answer CacheSamples.two).
  - exact cacheInvariant_two.
  - discriminate.
  - vm_compute. discriminate.
Defined.

Lemma cache_eviction_order_witness :
  cacheKeys (snd (getEventbriteCacheEntry 10 "a" CacheSamples.two)) = ["b"; "a"]%string.
Proof.
  apply (cache_eviction_order 10 "a" CacheSamples.two).
  - exact cacheInvariant_two.
  - vm_compute. discriminate.
Defined.

(** ** The leaderboard *)

Section SortedOutput.
Context {A : Type} (cmp : A -> A -> comparison) (le : A -> A -> Prop) (D : A -> Prop).
Hypothesis cmp_le : forall a b, D a -> D b -> (cmp a b <> Gt <-> le a b).
Hypothesis le_total : forall a b, D a -> D b -> le a b \/ le b a.
Hypothesis le_trans : forall a b c, D a -> D b -> D c -> le a b -> le b c -> le a c.

Lemma insert_sorted_domain (x : A) (l : list A) :
  D x -> Forall D l -> Forall D (insert_sorted cmp x l).
Proof.
  intros Hx Hl. apply Forall_forall. intros y Hy.
  apply (Permutation_in y (Permutation_sym (insert_sorted_perm cmp x l))) in Hy.
  destruct Hy as [<-|Hy]; [exact Hx|]. rewrite Forall_forall in Hl. now apply Hl.
Qed.

Lemma insert_sorted_strongly (x : A) (l : list A) :
  D x -> Forall D l -> StronglySorted le l -> StronglySorted le (insert_sorted cmp x l).
Proof.
  intros Hx Hl Hs. induction Hs as [|y r Hr IH Hy]; cbn [insert_sorted].
  - repeat constructor.
  - inversion Hl as [|? ? Dy Dr]; subst.
    assert (Below : cmp x y <> Gt -> StronglySorted le (x :: y :: r)).
    { intros Hc. apply (cmp_le x y Hx Dy) in Hc.
      constructor; [now constructor|]. constructor; [exact Hc|].
      rewrite Forall_forall in *. intros z Hz.
      apply (le_trans x y z Hx Dy (Dr z Hz) Hc). now apply Hy. }
    destruct (cmp x y) eqn:E; try (apply Below; congruence).
    constructor; [now apply IH|].
    assert (Hyx : le y x).
    { destruct (le_total x y Hx Dy) as [L|L]; [|exact L].
      apply (cmp_le x y Hx Dy) in L. congruence. }
    apply Forall_forall. intros z Hz.
    apply (Permutation_in z (Permutation_sym (insert_sorted_perm cmp x r))) in Hz.
    destruct Hz as [<-|Hz]; [exact Hyx|]. rewrite Forall_forall in Hy. now apply Hy.
Qed.

Lemma js_sort_domain (l : list A) : Forall D l -> Forall D (js_sort cmp l).
Proof.
  intros H. apply Forall_forall. intros x Hx. apply js_sort_In in Hx.
  rewrite Forall_forall in H. now apply H.
Qed.

Lemma js_sort_strongly (l : list A) : Forall D l -> StronglySorted le (js_sort cmp l).
Proof.
  induction 1 as [|x r Hx Hr IH]; cbn [js_sort]; [constructor|].
  apply insert_sorted_strongly; [exact Hx|now apply js_sort_domain|exact IH].
Qed.
End SortedOutput.

Lemma compareScores_le (a b : ScoreEntry) :
  comparable a -> comparable b -> (compareScores a b <> Gt <-> ranks_before a b).
Proof.
  unfold comparable, compareScores, ranks_before, num_le, sub_sign.
  destruct (se_score a) as [x| | |], (se_score b) as [y| | |]; intros Ha Hb;
    try congruence; try (split; [auto|discriminate]); try (split; [congruence|tauto]).
  rewrite <- Qle_alt. reflexivity.
Qed.

Lemma ranks_before_total (a b : ScoreEntry) :
  comparable a -> comparable b -> ranks_before a b \/ ranks_before b a.
Proof.
  unfold comparable, ranks_before, num_le.
  destruct (se_score a) as [x| | |], (se_score b) as [y| | |]; intros Ha Hb;
    try congruence; auto.
  destruct (Qlt_le_dec x y); [right; now apply Qlt_le_weak|left; assumption].
Qed.

Lemma ranks_before_trans (a b c : ScoreEntry) :
  comparable a -> comparable b -> comparable c ->
  ranks_before a b -> ranks_before b c -> ranks_before a c.
Proof.
  unfold comparable, ranks_before, num_le.
  destruct (se_score a) as [x| | |], (se_score b) as [y| | |], (se_score c) as [z| | |];
    intros Ha Hb Hc; try congruence; try tauto.
  intros H1 H2. now apply (Qle_trans z y x).
Qed.

Lemma firstn_skipn_sorted {A : Type} (le : A -> A -> Prop) (n : nat) (l : list A) :
  StronglySorted le l ->
  forall a b, In a (firstn n l) -> In b (skipn n l) -> le a b.
Proof.
  intros Hs. revert n. induction Hs as [|x r Hr IH Hx]; intros n a b.
  - rewrite firstn_nil. intros [].
  - destruct n as [|n]; [intros []|].
    cbn [firstn skipn]. intros [<-|Ha] Hb.
    + rewrite Forall_forall in Hx. apply Hx.
      rewrite <- (firstn_skipn n r). apply in_or_app. now right.
    + now apply (IH n).
Qed.

Lemma post_score_accepted (body : ScoreBody) (leaderboard : list ScoreEntry) :
  snd (post_score body leaderboard)
  = match acceptedEntry body with
    | [] => leaderboard
    | _ => js_sort compareScores (leaderboard ++ acceptedEntry body)
    end.
Proof.
  unfold post_score, acceptedEntry.
  destruct (sb_playerName body), (sb_score body); reflexivity.
Qed.

Lemma leaderboard_from (posts : list ScoreBody) (start : list ScoreEntry) (p : ScoreEntry -> bool) :
  Forall comparableBody posts -> Forall comparable start ->
  StronglySorted ranks_before start ->
  (forall x y, p x = true -> p y = true -> compareScores x y <> Gt) ->
  let final := fold_left (fun leaderboard body => snd (post_score body leaderboard))
                 posts start in
  StronglySorted ranks_before final
  /\ Forall comparable final
  /\ Permutation final (start ++ List.concat (map acceptedEntry posts))
  /\ filter p final = filter p (start ++ List.concat (map acceptedEntry posts)).
Proof.
  intros Hp. revert start. induction Hp as [|body posts Hb Hposts IH]; intros start Hd Hs Htie.
  - cbn. rewrite app_nil_r. auto.
  - cbn [fold_left map List.concat]. rewrite post_score_accepted.
    assert (Hacc : Forall comparable (acceptedEntry body)).
    { unfold acceptedEntry, comparableBody, comparable in *.
      destruct (sb_playerName body), (sb_score body); repeat constructor.
      cbn. congruence. }
    destruct (acceptedEntry body) as [|e es] eqn:Ea.
    + cbn [app]. now apply IH.
    + rewrite <- Ea in *. clear Ea.
      assert (Hall : Forall comparable (start ++ acceptedEntry body))
        by (apply Forall_app; now split).
      destruct (IH (js_sort compareScores (start ++ acceptedEntry body))) as (A & B & C & F).
      * now apply js_sort_domain.
      * apply (js_sort_strongly compareScores ranks_before comparable);
          [apply compareScores_le|apply ranks_before_total|apply ranks_before_trans|exact Hall].
      * exact Htie.
      * split; [exact A|]. split; [exact B|]. split.
        -- rewrite C, app_assoc. apply Permutation_app_tail.
           apply Permutation_sym, js_sort_perm.
        -- rewrite F, !filter_app, app_assoc. f_equal.
           rewrite <- filter_app. now apply js_sort_filter.
Qed.

(** X17. The leaderboard.  After any posts to [/score] whose scores are
    numbers that can be compared, the leaderboard holds exactly the
    posts that carried a string name and a number, ordered by score from
    the highest down, posts that tie in the order they came in;
    [/leaderboard] returns its first ten entries, and none of the other
    entries ranks before any of those.  A post without a string name or
    without a number is answered 400 and leaves the leaderboard as it
    was. *)
Theorem leaderboard_ranking (posts : list ScoreBody) (p : ScoreEntry -> bool) :
  Forall comparableBody posts ->
  (forall x y, p x = true -> p y = true -> ranks_before x y) ->
  let board := leaderboardAfter posts in
  let accepted := List.concat (map acceptedEntry posts) in
  StronglySorted ranks_before board
  /\ Permutation board accepted
  /\ filter p board = filter p accepted
  /\ get_leaderboard board = firstn 10 board
  /\ (forall a b, In a (get_leaderboard board) -> In b (skipn 10 board) -> ranks_before a b)
  /\ (forall body leaderboard,
         acceptedEntry body = [] ->
         post_score body leaderboard = (400, "invalid"%string, leaderboard)).
Proof.
  intros Hp Htie board accepted.
  destruct (leaderboard_from posts [] p Hp) as (A & B & C & F);
    [constructor|constructor| |].
  { intros x y Px Py. pose proof (Htie x y Px Py) as H.
    apply compareScores_le; [| |exact H];
      unfold ranks_before, num_le, comparable in *;
      destruct (se_score x), (se_score y); try discriminate; tauto. }
  cbn [app] in C, F. fold (leaderboardAfter posts) in A, B, C, F. fold board in A, B, C, F.
  assert (G : get_leaderboard board = firstn 10 board)
    by (unfold get_leaderboard; now rewrite slice_to_firstn by lia).
  split; [exact A|]. split; [exact C|]. split; [exact F|]. split; [exact G|]. split.
  - rewrite G. now apply firstn_skipn_sorted.
  - intros body leaderboard H. unfold post_score, acceptedEntry in *.
    destruct (sb_playerName body), (sb_score body); try discriminate; reflexivity.
Qed.

(** ** The daily location *)

Lemma string_length_app (a b : string) :
  String.length (a ++ b) = (String.length a + String.length b)%nat.
Proof. induction a as [|c r IH]; cbn; [reflexivity|]. now rewrite IH. Qed.

Lemma pad_length (w : nat) (n : Z) : String.length (JsDate.pad w n) = w.
Proof.
  revert n. induction w as [|w IH]; intros n; [reflexivity|].
  cbn [JsDate.pad]. rewrite string_length_app, IH. cbn. lia.
Qed.

Lemma slice_head_app (n : nat) (a b : string) :
  (n <= String.length a)%nat -> slice_head n (a ++ b) = slice_head n a.
Proof.
  revert a. induction n as [|n IH]; intros a H; [now destruct a|].
  destruct a as [|c r]; [cbn in H; lia|].
  cbn [append slice_head]. f_equal. apply IH. cbn in H. lia.
Qed.

Lemma hash_chars_range (s : string) (seed : Z) :
  0 <= seed < 2 ^ 32 -> 0 <= hash_chars seed s < 2 ^ 32.
Proof.
  revert seed. induction s as [|c r IH]; intros seed H; [exact H|].
  cbn [hash_chars]. apply IH. apply Z.mod_pos_bound. lia.
Qed.

Lemma dailySeed_day (now now' : Z) :
  JsDate.Day now = JsDate.Day now' -> dailySeed now = dailySeed now'.
Proof.
  intros H. unfold dailySeed, JsDate.toISOString, JsDate.fields_of_time. rewrite H.
  destruct (JsDate.civil_of_day (JsDate.Day now')) as [[y m] d]. cbn [JsDate.f_year JsDate.f_month JsDate.f_day].
  set (date := (JsDate.year_string y ++ "-" ++ JsDate.pad 2 m ++ "-" ++ JsDate.pad 2 d)%string).
  assert (L : (10 <= String.length date)%nat).
  { unfold date. rewrite !string_length_app, !pad_length.
    assert (4 <= String.length (JsDate.year_string y))%nat; [|cbn; lia].
    unfold JsDate.year_string.
    destruct ((0 <=? y) && (y <=? 9999)); [rewrite pad_length; lia|].
    destruct (y <? 0); rewrite string_length_app, pad_length; cbn; lia. }
  assert (E : forall rest,
             (JsDate.year_string y ++ "-" ++ JsDate.pad 2 m ++ "-" ++ JsDate.pad 2 d ++ rest
              = date ++ rest)%string).
  { intros rest. unfold date. now rewrite !string_app_assoc. }
  rewrite !E, !slice_head_app by exact L. reflexivity.
Qed.

(** X18. The location of the day is one of the configured locations
    whenever there is one, it is [undefined] when there is none, and it
    is the same at any two instants of one UTC day; the seed it is drawn
    with is a 32-bit unsigned number. *)
Theorem daily_location (locations : list string) (now now' : Z) :
  0 <= dailySeed now < 2 ^ 32
  /\ (locations <> [] ->
      exists loc, pickLocation locations now = Some loc /\ In loc locations)
  /\ (locations = [] -> pickLocation locations now = None)
  /\ (JsDate.Day now = JsDate.Day now' ->
      pickLocation locations now = pickLocation locations now').
Proof.
  assert (R : 0 <= dailySeed now < 2 ^ 32) by (apply hash_chars_range; lia).
  split; [exact R|]. split; [|split].
  - intros Hne. unfold pickLocation.
    destruct locations as [|l0 r] eqn:E; [contradiction|]. rewrite <- E in *.
    assert (Hlen : 0 < Z.of_nat (List.length locations)) by (rewrite E; cbn; lia).
    pose proof (Z.mod_pos_bound (dailySeed now) _ Hlen) as B.
    destruct (nth_error locations
                (Z.to_nat (dailySeed now mod Z.of_nat (List.length locations)))) as [loc|] eqn:N.
    + exists loc. split; [reflexivity|]. now apply nth_error_In in N.
    + apply nth_error_None in N. lia.
  - intros ->. reflexivity.
  - intros H. unfold pickLocation. now rewrite (dailySeed_day now now' H).
Qed.

Lemma leaderboard_ranking_witness :
  let board := leaderboardAfter
                 [GameSamples.ann; GameSamples.bob; GameSamples.nameless; GameSamples.cy] in
  map se_playerName board = ["bob"; "ann"; "cy"]%string
  /\ StronglySorted ranks_before board
  /\ map se_playerName (filter GameSamples.scoredTen board) = ["ann"; "cy"]%string.
Proof.
  cbv zeta. split; [reflexivity|].
  destruct (leaderboard_ranking
              [GameSamples.ann; GameSamples.bob; GameSamples.nameless; GameSamples.cy]
              GameSamples.scoredTen) as (A & _ & F & _).
  - repeat constructor; discriminate.
  - intros x y. unfold GameSamples.scoredTen, ranks_before, num_le.
    destruct (se_score x) as [q| | |], (se_score y) as [q'| | |]; try discriminate.
    intros Hx Hy. apply Qeq_bool_iff in Hx, Hy. rewrite Hx, Hy. apply Qle_refl.
  - split; [exact A|]. now rewrite F.
Defined.

Lemma daily_location_witness :
  pickLocation ["FRA"; "PER"; "NPL"]%string 1704222000000
  = pickLocation ["FRA"; "PER"; "NPL"]%string 1704239999000.
Proof.
  apply (daily_location ["FRA"; "PER"; "NPL"]%string 1704222000000 1704239999000).
  reflexivity.
Defined.

(** ** Unfolding iCal lines *)

Lemma no_line_break_cons (c : ascii) (r : string) :
  no_line_break (String c r) = true ->
  Ascii.eqb c CR = false /\ Ascii.eqb c LF = false /\ no_line_break r = true.
Proof.
  unfold no_line_break. cbn [string_forall].
  rewrite andb_true_iff, negb_true_iff, orb_false_iff. tauto.
Qed.

Lemma replace_crlf_cons (c : ascii) (r : string) :
  Ascii.eqb c CR = false -> replace_crlf (String c r) = String c (replace_crlf r).
Proof.
  intros H. cbn [replace_crlf]. rewrite H. now destruct r.
Qed.

Lemma replace_crlf_app (a x : string) :
  no_line_break a = true -> replace_crlf (a ++ x) = (a ++ replace_crlf x)%string.
Proof.
  induction a as [|c r IH]; [reflexivity|].
  intros H. apply no_line_break_cons in H. destruct H as (Hc & _ & Hr).
  cbn [append]. rewrite replace_crlf_cons by exact Hc. now rewrite IH.
Qed.

Lemma replace_cr_app (a x : string) :
  no_line_break a = true -> replace_cr (a ++ x) = (a ++ replace_cr x)%string.
Proof.
  induction a as [|c r IH]; [reflexivity|].
  intros H. apply no_line_break_cons in H. destruct H as (Hc & _ & Hr).
  cbn [append replace_cr]. rewrite Hc. now rewrite IH.
Qed.

Lemma split_lines_app (a s : string) :
  no_line_break a = true ->
  split_lines (a ++ String LF s) = a :: split_lines s.
Proof.
  induction a as [|c r IH]; [reflexivity|].
  intros H. apply no_line_break_cons in H. destruct H as (_ & Hc & Hr).
  cbn [append split_lines]. rewrite Hc. now rewrite IH.
Qed.

(** The line breaks of a text whose lines are [raws], each closed by
    [ending], read back. *)
Lemma split_lines_text (ending : string) (raws : list string) :
  lineEnding ending ->
  Forall (fun raw => no_line_break raw = true /\ non_empty raw = true) raws ->
  split_lines (replace_cr (replace_crlf
     (concat_strings (map (fun raw => (raw ++ ending)%string) raws))))
  = raws ++ [EmptyString].
Proof.
  intros He. induction 1 as [|raw rest [Hb Hn] Hrest IH]; [reflexivity|].
  cbn [map concat_strings fold_right]. fold (concat_strings (map (fun raw => (raw ++ ending)%string) rest)).
  set (tail := concat_strings (map (fun raw => (raw ++ ending)%string) rest)) in *.
  rewrite string_app_assoc, replace_crlf_app by exact Hb.
  assert (E : replace_cr (replace_crlf (ending ++ tail))
              = String LF (replace_cr (replace_crlf tail))).
  { destruct He as [-> | [-> | ->]].
    - reflexivity.
    - cbn [append]. rewrite replace_crlf_cons by reflexivity. reflexivity.
    - cbn [append].
      assert (Ht : starts_with (fun c => Ascii.eqb c LF) tail = false).
      { unfold tail. destruct Hrest as [|raw' rest' [Hb' Hn'] _]; [reflexivity|].
        cbn [map concat_strings fold_right]. destruct raw' as [|c r]; [discriminate|].
        cbn. now apply no_line_break_cons in Hb'. }
      destruct tail as [|d r]; [reflexivity|]. cbn [starts_with] in Ht.
      change (replace_crlf (String CR (String d r)))
        with (if Ascii.eqb CR CR && Ascii.eqb d LF then String LF (replace_crlf r)
              else String CR (replace_crlf (String d r))).
      rewrite Ht, andb_false_r. reflexivity. }
  rewrite replace_cr_app by exact Hb. rewrite E.
  rewrite split_lines_app by exact Hb. now rewrite IH.
Qed.

Lemma append_to_last_snoc (lines : list string) (last more : string) :
  append_to_last (lines ++ [last]) more = lines ++ [(last ++ more)%string].
Proof.
  induction lines as [|l r IH]; [reflexivity|].
  cbn [app append_to_last]. rewrite IH.
  destruct (r ++ [last]) eqn:E; [now destruct r|reflexivity].
Qed.

Lemma unfold_pieces (pieces : list string) (lines : list string) (current : string) :
  fold_left unfoldStep (map (String " ") pieces) (lines ++ [current])
  = lines ++ [(current ++ concat_strings pieces)%string].
Proof.
  revert current. induction pieces as [|p ps IH]; intros current.
  - cbn. now rewrite string_app_nil_r.
  - cbn [map fold_left]. unfold unfoldStep at 2.
    change (Ascii.eqb " " " ") with true. cbn [orb].
    destruct (lines ++ [current]) eqn:E; [now destruct lines|]. rewrite <- E.
    cbn [slice_from_1]. rewrite append_to_last_snoc, IH.
    cbn [concat_strings fold_right]. now rewrite string_app_assoc.
Qed.

Lemma unfold_lines (lines : list FoldedLine) (tail done : list string) :
  Forall wellFolded lines ->
  fold_left unfoldStep (List.concat (map pieceLines lines) ++ tail) done
  = fold_left unfoldStep tail (done ++ map contentLine lines).
Proof.
  intros H. revert done. induction H as [|line rest Hl Hrest IH]; intros done.
  - cbn. now rewrite app_nil_r.
  - cbn [map List.concat]. unfold pieceLines at 1.
    rewrite <- !app_assoc. cbn [app fold_left].
    destruct Hl as (_ & _ & Hn & Hs).
    assert (E : unfoldStep done (fl_first line) = done ++ [fl_first line]).
    { unfold unfoldStep. destruct (fl_first line) as [|c r]; [discriminate|].
      cbn [starts_with] in Hs. now rewrite Hs. }
    rewrite E, fold_left_app, unfold_pieces, IH.
    rewrite <- app_assoc. reflexivity.
Qed.

Lemma pieceLines_unbroken (lines : list FoldedLine) :
  Forall wellFolded lines ->
  Forall (fun raw => no_line_break raw = true /\ non_empty raw = true)
         (List.concat (map pieceLines lines)).
Proof.
  induction 1 as [|line rest (Hb & Hp & Hn & _) _ IH]; [constructor|].
  cbn [map List.concat]. apply Forall_app. split; [|exact IH].
  unfold pieceLines. constructor; [now split|].
  apply Forall_forall. intros raw Hr. apply in_map_iff in Hr.
  destruct Hr as (piece & <- & Hin). rewrite Forall_forall in Hp.
  split; [|reflexivity]. unfold no_line_break. cbn [string_forall].
  change (no_line_break piece = true). now apply Hp.
Qed.

(** X19. Unfolding undoes folding.  A feed text in which every content
    line is written as its pieces on lines of their own, the pieces
    after the first behind one space, unfolds to the content lines, with
    CRLF, LF or CR as the line ending. *)
Theorem unfold_folded (ending : string) (lines : list FoldedLine) :
  lineEnding ending ->
  Forall wellFolded lines ->
  unfoldIcalLines (Some (foldedText ending lines)) = map contentLine lines.
Proof.
  intros He Hl. unfold unfoldIcalLines.
  destruct (non_empty (foldedText ending lines)) eqn:Hn; cbn [negb].
  - unfold foldedText.
    rewrite (split_lines_text ending _ He (pieceLines_unbroken lines Hl)).
    rewrite (unfold_lines lines [EmptyString] [] Hl). reflexivity.
  - destruct lines as [|line rest]; [reflexivity|]. exfalso.
    inversion Hl as [|? ? (_ & _ & Hf & _) _]; subst.
    unfold foldedText in Hn. cbn [map List.concat pieceLines app concat_strings fold_right] in Hn.
    destruct (fl_first line); discriminate.
Qed.

Lemma unfold_folded_witness :
  unfoldIcalLines
    (Some (foldedText (String CR (String LF EmptyString))
             [IcalSamples.summary; IcalSamples.closing]))
  = ["SUMMARY:JazzNight at the Hall"; "END:VEVENT"]%string.
Proof.
  apply (unfold_folded (String CR (String LF EmptyString))
           [IcalSamples.summary; IcalSamples.closing]).
  - now left.
  - repeat constructor.
Defined.

(** ** One Ticketmaster segment *)

Section SegmentFacts.
Context {P : Platform}.

Lemma formatTicketmasterEvent_fields (raw : TmRaw) (key : string) (event : Event) :
  formatTicketmasterEvent raw key = Returned (Some event) ->
  ev_id event = raw_id raw /\ raw_id raw <> None
  /\ ev_source event = Some "ticketmaster"%string
  /\ ev_segment event = (if non_empty key then Some key else None)
  /\ ev_start event <> None.
Proof.
  unfold formatTicketmasterEvent.
  destruct (raw_id raw) as [id|]; [|discriminate].
  destruct (truthy _).
  - destruct (ds_dateTime _) as [dt|].
    + destruct (Date_parse dt); [|discriminate].
      intros H. inversion H. cbn. repeat split; discriminate.
    + intros H. inversion H. cbn. repeat split; discriminate.
  - intros H. inversion H. cbn. repeat split; discriminate.
Qed.

Lemma formatTicketmasterEvent_none (raw : TmRaw) (key : string) :
  formatTicketmasterEvent raw key = Returned None -> raw_id raw = None.
Proof.
  unfold formatTicketmasterEvent.
  destruct (raw_id raw) as [id|]; [|reflexivity].
  destruct (truthy _); [destruct (ds_dateTime _) as [dt|];
                        [destruct (Date_parse dt)|]|]; discriminate.
Qed.

Lemma formatTicketmasterEvent_throws (raw : TmRaw) (key : string) (e : JsError) :
  formatTicketmasterEvent raw key = Threw e ->
  e = mkError "Invalid time value" None None [].
Proof.
  unfold formatTicketmasterEvent.
  destruct (raw_id raw) as [id|]; [|discriminate].
  destruct (truthy _); [destruct (ds_dateTime _) as [dt|];
                        [destruct (Date_parse dt)|]|]; try discriminate.
  intros H. now inversion H.
Qed.

Lemma formatTicketmasterEvent_unreadable (raw : TmRaw) (key : string) :
  unreadableTime raw ->
  formatTicketmasterEvent raw key = Threw (mkError "Invalid time value" None None []).
Proof.
  intros (Hid & st & dt & Hs & Hd & Hn & Hp). unfold formatTicketmasterEvent.
  destruct (raw_id raw) as [id|]; [|contradiction].
  rewrite Hs, Hd. cbn [truthy]. now rewrite Hn, Hp.
Qed.

Lemma formatAll_events (raws : list TmRaw) (key : string) (events : list Event) :
  formatAll raws key = Returned events ->
  map ev_id events = filter has_some (map raw_id raws)
  /\ Forall (fun event =>
               ev_source event = Some "ticketmaster"%string
               /\ ev_segment event = (if non_empty key then Some key else None)
               /\ ev_id event <> None /\ ev_start event <> None) events.
Proof.
  revert events. induction raws as [|raw rest IH]; intros events; cbn [formatAll].
  - intros H. inversion H. split; [reflexivity|constructor].
  - destruct (formatTicketmasterEvent raw key) as [formatted|] eqn:F; [|discriminate].
    destruct (formatAll rest key) as [others|]; [|discriminate].
    destruct (IH others eq_refl) as [Ids Tags].
    intros H. inversion H; subst events; clear H.
    destruct formatted as [f|].
    + destruct (formatTicketmasterEvent_fields raw key f F) as (A & B & C & D & E).
      cbn [map filter]. destruct (raw_id raw) as [id|] eqn:R; [|contradiction].
      cbn [has_some map]. rewrite A, Ids.
      split; [reflexivity|]. constructor; [|exact Tags].
      repeat split; auto. rewrite A. discriminate.
    + apply formatTicketmasterEvent_none in F. cbn [map filter]. rewrite F. cbn [has_some].
      now split.
Qed.

Lemma formatAll_unreadable (raws : list TmRaw) (key : string) :
  Exists unreadableTime raws ->
  formatAll raws key = Threw (mkError "Invalid time value" None None []).
Proof.
  induction 1 as [raw rest H|raw rest H IH]; cbn [formatAll].
  - now rewrite (formatTicketmasterEvent_unreadable raw key H).
  - destruct (formatTicketmasterEvent raw key) as [formatted|e] eqn:F.
    + now rewrite IH.
    + now rewrite (formatTicketmasterEvent_throws raw key e F).
Qed.

(** X20. The events one segment request returns are the raw events that
    carry an id, in their order, each tagged with the source
    [ticketmaster] and the segment's key and carrying a [start]; the
    status is the one of the response. *)
Theorem segment_events_tagged (response : TmResponse) (segment : Segment)
    (result : SegmentResult) :
  fetchTicketmasterSegment response segment = Returned result ->
  tr_ok response = true
  /\ sr_status result = tr_status response
  /\ exists raws,
       tr_events response = Some raws
       /\ map ev_id (sr_events result) = filter has_some (map raw_id raws)
       /\ Forall (fun event =>
                    ev_source event = Some "ticketmaster"%string
                    /\ ev_segment event
                       = (if non_empty (seg_key segment) then Some (seg_key segment) else None)
                    /\ ev_id event <> None /\ ev_start event <> None)
                 (sr_events result).
Proof.
  unfold fetchTicketmasterSegment.
  destruct (tr_ok response); cbn [negb]; [|discriminate].
  destruct (tr_events response) as [raws|]; [|discriminate].
  destruct (formatAll raws (seg_key segment)) as [events|] eqn:F; [|discriminate].
  intros H. inversion H; subst result; clear H. cbn [sr_status sr_events].
  split; [reflexivity|]. split; [reflexivity|].
  exists raws. split; [reflexivity|]. now apply formatAll_events.
Qed.

(** X21. One raw event with an id and a [dateTime] that [Date] cannot
    read makes the whole segment request fail: it throws
    [Invalid time value], an error without a status, and returns none of
    the segment's events; merged with the other segments, the segment
    shows as failed and adds no event. *)
Theorem segment_fails_on_unreadable_time (response : TmResponse) (segment : Segment)
    (raws : list TmRaw) (st : MergeState) :
  tr_ok response = true ->
  tr_events response = Some raws ->
  Exists unreadableTime raws ->
  fetchTicketmasterSegment response segment
  = Threw (mkError "Invalid time value" None None [])
  /\ let merged := mergeStep st (segment, fetchTicketmasterSegment response segment) in
     ms_combined merged = ms_combined st
     /\ ms_successful merged = ms_successful st
     /\ ms_summaries merged
        = ms_summaries st
          ++ [mkSegmentSummary (seg_key segment) (seg_description segment) false None None
                (Some "Invalid time value"%string)].
Proof.
  intros Hok Hev Hbad.
  assert (E : fetchTicketmasterSegment response segment
              = Threw (mkError "Invalid time value" None None [])).
  { unfold fetchTicketmasterSegment. rewrite Hok, Hev. cbn [negb].
    now rewrite (formatAll_unreadable raws (seg_key segment) Hbad). }
  split; [exact E|]. rewrite E. cbn. repeat split.
Qed.
End SegmentFacts.

Lemma segment_events_tagged_witness :
  exists result,
    fetchTicketmasterSegment (P := Reference.platform) SegmentSamples.healthy
      SegmentSamples.music = Returned result
    /\ sr_status result = 200
    /\ List.length (sr_events result) = 2%nat.
Proof.
  destruct (fetchTicketmasterSegment (P := Reference.platform) SegmentSamples.healthy
              SegmentSamples.music) as [result|] eqn:E; [|vm_compute in E; discriminate].
  exists result. split; [reflexivity|].
  destruct (segment_events_tagged (P := Reference.platform) SegmentSamples.healthy
              SegmentSamples.music result E) as (_ & S & raws & R & Ids & _).
  split; [exact S|].
  inversion R; subst raws. rewrite <- (length_map ev_id), Ids. reflexivity.
Defined.

Lemma segment_fails_on_unreadable_time_witness :
  fetchTicketmasterSegment (P := Reference.platform) SegmentSamples.poisoned
    SegmentSamples.music
  = Threw (mkError "Invalid time value" None None []).
Proof.
  apply (segment_fails_on_unreadable_time (P := Reference.platform) SegmentSamples.poisoned
           SegmentSamples.music
           [FormatSamples.rockTwice; SegmentSamples.undatable]
           (mkMergeState [] [] false)).
  - reflexivity.
  - reflexivity.
  - right. left. split; [discriminate|].
    exists (mkDatesStart (Some "soon"%string) None None), "soon"%string.
    repeat split.
Defined.

(** ** Times of day on the 12-hour clock *)

Lemma remove_dots_app (a b : string) :
  remove_dots (a ++ b) = (remove_dots a ++ remove_dots b)%string.
Proof.
  induction a as [|c r IH]; [reflexivity|].
  cbn [append remove_dots]. destruct (Ascii.eqb c "."); cbn [append]; now rewrite IH.
Qed.

Lemma toLowerCase_app (a b : string) :
  toLowerCase (a ++ b) = (toLowerCase a ++ toLowerCase b)%string.
Proof. induction a as [|c r IH]; [reflexivity|]. cbn. now rewrite IH. Qed.

Lemma plain_char (c : ascii) :
  is_digit c = true \/ is_space c = true \/ c = ":"%char ->
  Ascii.eqb c "." = false /\ lower_char c = c /\ meridiem_here (String c EmptyString) = None
  /\ forall r, meridiem_here (String c r) = None.
Proof.
  destruct c as [[] [] [] [] [] [] [] []]; vm_compute;
    intros [H|[H|H]]; try discriminate H; repeat split.
Qed.

Lemma plain_string (s : string) :
  string_forall plain s = true -> toLowerCase (remove_dots s) = s.
Proof.
  induction s as [|c r IH]; [reflexivity|].
  cbn [string_forall]. rewrite andb_true_iff. intros [Hc Hr].
  assert (H : is_digit c = true \/ is_space c = true \/ c = ":"%char).
  { unfold plain in Hc. apply orb_true_iff in Hc. destruct Hc as [Hc|Hc].
    - apply orb_true_iff in Hc. tauto.
    - right. right. now apply Ascii.eqb_eq. }
  destruct (plain_char c H) as (A & B & _).
  cbn [remove_dots]. rewrite A. cbn [toLowerCase]. now rewrite B, IH.
Qed.

Lemma string_forall_app (p : ascii -> bool) (a b : string) :
  string_forall p (a ++ b) = string_forall p a && string_forall p b.
Proof.
  induction a as [|c r IH]; [reflexivity|].
  cbn [append string_forall]. now rewrite IH, andb_assoc.
Qed.

Lemma string_forall_weaken (p q : ascii -> bool) (s : string) :
  (forall c, p c = true -> q c = true) ->
  string_forall p s = true -> string_forall q s = true.
Proof.
  intros H. induction s as [|c r IH]; [reflexivity|].
  cbn [string_forall]. rewrite !andb_true_iff. intros [Hc Hr]. auto.
Qed.

Lemma pad_digits (w : nat) (n : Z) : string_forall is_digit (JsDate.pad w n) = true.
Proof.
  revert n. induction w as [|w IH]; intros n; [reflexivity|].
  cbn [JsDate.pad]. rewrite string_forall_app, IH. cbn [string_forall].
  now destruct (digit_char_spec n) as [-> _].
Qed.

Lemma meridiem_after_spaces_skip (spacing rest : string) (pm : bool) :
  string_forall is_space spacing = true ->
  meridiem_here rest = Some pm ->
  meridiem_after_spaces (spacing ++ rest) = Some pm.
Proof.
  intros Hs Hm. induction spacing as [|c r IH].
  - cbn [append]. destruct rest; cbn [meridiem_after_spaces]; now rewrite Hm.
  - cbn [string_forall] in Hs. apply andb_true_iff in Hs. destruct Hs as [Hc Hr].
    destruct (plain_char c (or_intror (or_introl Hc))) as (_ & _ & _ & N).
    cbn [append meridiem_after_spaces]. rewrite N, Hc. now apply IH.
Qed.

Lemma time_tail_clock (h minute : Z) (spacing rest : string) (pm : bool) :
  0 <= minute < 60 ->
  string_forall is_space spacing = true ->
  meridiem_here rest = Some pm ->
  time_tail h (String ":" (JsDate.pad 2 minute ++ spacing ++ rest))
  = Some (h, Some minute, pm).
Proof.
  intros Hm Hs Hr. unfold time_tail, minute_group.
  rewrite expect_same, digits_pad by (cbn; lia).
  now rewrite (meridiem_after_spaces_skip spacing rest pm Hs Hr).
Qed.

Lemma time_at_one (d : ascii) (rest : string) (found : Z * option Z * bool) :
  is_digit d = true ->
  time_tail (digit_val d) (String ":" rest) = Some found ->
  time_at (String d (String ":" rest)) = Some found.
Proof.
  intros Hd Ht. unfold time_at, digits. cbn [digits_from]. rewrite Hd.
  change (is_digit ":") with false. cbv iota.
  replace (10 * 0 + digit_val d) with (digit_val d) by lia. exact Ht.
Qed.

Lemma time_at_two (d1 d2 : ascii) (rest : string) (found : Z * option Z * bool) :
  is_digit d1 = true -> is_digit d2 = true ->
  time_tail (10 * digit_val d1 + digit_val d2) rest = Some found ->
  time_at (String d1 (String d2 rest)) = Some found.
Proof.
  intros H1 H2 Ht. unfold time_at, digits. cbn [digits_from]. rewrite H1, H2.
  replace (10 * (10 * 0 + digit_val d1) + digit_val d2)
    with (10 * digit_val d1 + digit_val d2) by lia.
  now rewrite Ht.
Qed.

Lemma time_search_here (s : string) (found : Z * option Z * bool) :
  time_at s = Some found -> time_search s = Some found.
Proof. intros H. destruct s; cbn [time_search]; now rewrite H. Qed.

Lemma hour_cases (hour : Z) :
  0 <= hour < 24 ->
  In hour [0; 1; 2; 3; 4; 5; 6; 7; 8; 9; 10; 11; 12; 13; 14; 15; 16; 17; 18; 19; 20;
           21; 22; 23].
Proof. intros H. cbn. lia. Qed.

(** X22. A time of day written on the 12-hour clock is read back as the
    hour of the day it denotes: for every hour 0..23 and minute 0..59,
    the hour written as 1..12, a colon, the minutes in two digits, any
    white space and [am] or [pm] in any case, with or without dots,
    parses to that hour and minute; so [12:05 am] is hour 0 and
    [12:05 pm] is hour 12. *)
Theorem dcimprov_time_round_trip (hour minute : Z) (spacing meridiem : string) :
  0 <= hour < 24 -> 0 <= minute < 60 ->
  string_forall is_space spacing = true ->
  meridiemOf hour meridiem ->
  parseDcImprovTime (Some (clockText hour minute spacing meridiem)) = Some (hour, minute).
Proof.
  intros Hh Hm Hs Hmer. unfold parseDcImprovTime, clockText, meridiemOf in *.
  assert (Hd : string_forall is_digit (number_string (hour12 hour)) = true
               /\ non_empty (number_string (hour12 hour)) = true).
  { apply hour_cases in Hh. cbn [In] in Hh.
    repeat (destruct Hh as [<-|Hh]; [split; reflexivity|]). contradiction. }
  destruct Hd as [Hd Hne].
  assert (Hnon : non_empty (number_string (hour12 hour) ++ ":" ++ JsDate.pad 2 minute
                              ++ spacing ++ meridiem) = true).
  { destruct (number_string (hour12 hour)); [discriminate|reflexivity]. }
  rewrite Hnon. cbn [negb].
  assert (Hplain : string_forall plain
                     (number_string (hour12 hour) ++ ":" ++ JsDate.pad 2 minute ++ spacing)
                   = true).
  { rewrite !string_forall_app.
    rewrite (string_forall_weaken is_digit plain _ ltac:(intros c H; unfold plain; now rewrite H) Hd).
    rewrite (string_forall_weaken is_digit plain _ ltac:(intros c H; unfold plain; now rewrite H)
               (pad_digits 2 minute)).
    rewrite (string_forall_weaken is_space plain _
               ltac:(intros c H; unfold plain; rewrite H; now rewrite orb_true_r) Hs).
    reflexivity. }
  replace (number_string (hour12 hour) ++ ":" ++ JsDate.pad 2 minute ++ spacing ++ meridiem)%string
    with ((number_string (hour12 hour) ++ ":" ++ JsDate.pad 2 minute ++ spacing) ++ meridiem)%string
    by now rewrite !string_app_assoc.
  rewrite remove_dots_app, toLowerCase_app, (plain_string _ Hplain), Hmer.
  rewrite !string_app_assoc.
  apply hour_cases in Hh. cbn [In] in Hh.
  repeat (destruct Hh as [<-|Hh];
    [ (match type of Hmer with
       | _ = (if ?h <? 12 then _ else _) =>
           rewrite (time_search_here _ (hour12 h, Some minute, negb (h <? 12)))
       end;
       [reflexivity|];
       first
         [ apply time_at_one; [reflexivity|];
           apply time_tail_clock; [exact Hm|exact Hs|reflexivity]
         | apply (time_at_two "1"); [reflexivity|reflexivity|];
           apply time_tail_clock; [exact Hm|exact Hs|reflexivity] ])
    | ]).
  contradiction.
Qed.

Lemma dcimprov_time_round_trip_witness :
  parseDcImprovTime (Some "7:30 P.M."%string) = Some (19, 30).
Proof.
  apply (dcimprov_time_round_trip 19 30 " " "P.M.").
  - lia.
  - lia.
  - reflexivity.
  - reflexivity.
Defined.

(** The hour is not checked against the clock: two digits before [pm]
    are taken as they stand. *)
Lemma parseDcImprovTime_unchecked :
  parseDcImprovTime (Some "Doors 13pm"%string) = Some (25, 0).
Proof. reflexivity. Qed.

(** ** The list of datasources *)

Lemma keep_some_In {A : Type} (l : list (option A)) (a : A) :
  In a (keep_some l) <-> In (Some a) l.
Proof.
  induction l as [|[b|] r IH]; cbn; [tauto| |].
  - rewrite IH. split; intros [H|H]; auto; left; congruence.
  - rewrite IH. split; [auto|]. intros [H|H]; [discriminate|exact H].
Qed.

Lemma or_else_non_empty (v fallback : string) :
  fallback <> EmptyString -> or_else v fallback <> EmptyString.
Proof.
  intros H. unfold or_else. destruct v; cbn [non_empty]; [exact H|discriminate].
Qed.

Lemma normalizeDatasource_wellFormed (raw : RawDatasource) (fallbackId : option string)
    (source : Datasource) :
  normalizeDatasource raw fallbackId = Some source -> wellFormedSource source.
Proof.
  unfold normalizeDatasource.
  set (id := normalizeDatasourceId _).
  destruct (non_empty id) eqn:E; cbn [negb]; [|discriminate].
  apply non_empty_true in E.
  intros H. inversion H; subst source; clear H.
  unfold wellFormedSource. cbn [ds_id ds_name ds_type].
  split; [exact E|]. split; [apply normalizeDatasourceId_shape|]. split.
  - unfold trimmed_or. destruct (rd_name raw); [now apply or_else_non_empty|exact E].
  - apply or_else_non_empty. discriminate.
Qed.

Lemma defaults_wellFormed : Forall wellFormedSource buildDefaultDatasources.
Proof.
  repeat constructor; try discriminate; cbn; lia.
Qed.

Lemma firestoreSources_wellFormed (docs : option (list (string * RawDatasource))) :
  Forall wellFormedSource (firestoreSources docs).
Proof.
  apply Forall_forall. intros s Hs. unfold firestoreSources in Hs.
  destruct docs as [documents|]; [|contradiction].
  apply keep_some_In, in_map_iff in Hs. destruct Hs as (doc & Hn & _).
  now apply normalizeDatasource_wellFormed in Hn.
Qed.

Lemma localSources_wellFormed (file : option (list RawDatasource)) :
  Forall wellFormedSource (localSources file).
Proof.
  apply Forall_forall. intros s Hs. unfold localSources in Hs.
  destruct file as [list|]; [|contradiction].
  apply keep_some_In, in_map_iff in Hs. destruct Hs as (raw & Hn & _).
  now apply normalizeDatasource_wellFormed in Hn.
Qed.

Lemma mergeLocal_fold (locals merged : list Datasource) :
  let result := fold_left mergeLocal locals merged in
  incl merged result
  /\ (forall l, In l locals -> exists s, In s result /\ ds_id s = ds_id l)
  /\ (forall s, In s result ->
                In s merged
                \/ (In s locals /\ forall f, In f merged -> ds_id f <> ds_id s)).
Proof.
  revert merged. induction locals as [|l rest IH]; intros merged; cbn [fold_left].
  - split; [apply incl_refl|]. split; [intros l []|]. intros s H. now left.
  - destruct (IH (mergeLocal merged l)) as (A & B & C).
    assert (Hm : incl merged (mergeLocal merged l)).
    { unfold mergeLocal. destruct (existsb _ merged); [apply incl_refl|].
      apply incl_appl, incl_refl. }
    assert (Hl : exists s, In s (mergeLocal merged l) /\ ds_id s = ds_id l).
    { unfold mergeLocal. destruct (existsb _ merged) eqn:E.
      - apply existsb_exists in E. destruct E as (s & Hs & He).
        exists s. split; [exact Hs|]. now apply String.eqb_eq.
      - exists l. split; [apply in_or_app; right; now left|reflexivity]. }
    split; [|split].
    + intros s Hs. apply A, Hm, Hs.
    + intros l' [<-|Hl'].
      * destruct Hl as (s & Hs & He). exists s. split; [now apply A|exact He].
      * now apply B.
    + intros s Hs. destruct (C s Hs) as [H|[H1 H2]].
      * unfold mergeLocal in H. destruct (existsb _ merged) eqn:E; [now left|].
        apply in_app_or in H. destruct H as [H|[<-|[]]]; [now left|].
        right. split; [now left|]. intros f Hf He.
        assert (X : existsb (fun source => String.eqb (ds_id source) (ds_id l)) merged = true).
        { apply existsb_exists. exists f. split; [exact Hf|]. now apply String.eqb_eq. }
        congruence.
      * right. split; [now right|]. intros f Hf. apply H2, Hm, Hf.
Qed.

Lemma find_split {A : Type} (p : A -> bool) (l : list A) (x : A) :
  find p l = Some x ->
  exists before after,
    l = before ++ x :: after /\ Forall (fun y => p y = false) before /\ p x = true.
Proof.
  induction l as [|y l IH]; [discriminate|]. cbn [find].
  destruct (p y) eqn:E.
  - intros H. inversion H; subst. exists [], l. auto.
  - intros H. destruct (IH H) as (before & after & -> & Hb & Hx).
    exists (y :: before), after. auto.
Qed.

Lemma NoDup_map_same {A B : Type} (f : A -> B) (l : list A) (a b : A) :
  NoDup (map f l) -> In a l -> In b l -> f a = f b -> a = b.
Proof.
  induction l as [|x l IH]; [contradiction|].
  cbn [map]. intros ND Ha Hb E. inversion ND as [|? ? Hx ND']; subst.
  destruct Ha as [->|Ha], Hb as [->|Hb]; auto.
  - exfalso. apply Hx. rewrite E. now apply in_map.
  - exfalso. apply Hx. rewrite <- E. now apply in_map.
Qed.

Section DatasourceFacts.
Variable localeCompare : string -> string -> comparison.

Lemma sortDatasources_In (sources : list Datasource) (s : Datasource) :
  In s (sortDatasources localeCompare sources) <-> In s sources.
Proof. apply js_sort_In. Qed.

Lemma readLocalDatasources_spec (file : option (list RawDatasource)) :
  readLocalDatasources file
  = match localSources file with [] => None | l => Some l end.
Proof.
  unfold readLocalDatasources, localSources. destruct file as [list|]; reflexivity.
Qed.

(** The list [loadDatasources] answers with, case by case. *)
Lemma loadDatasources_cases (docs : option (list (string * RawDatasource)))
    (file : option (list RawDatasource)) :
  fst (loadDatasources localeCompare docs file)
  = match firestoreSources docs, localSources file with
    | [], [] => buildDefaultDatasources
    | [], locals => sortDatasources localeCompare locals
    | sources, [] => sortDatasources localeCompare sources
    | sources, locals => sortDatasources localeCompare (fold_left mergeLocal locals sources)
    end.
Proof.
  unfold loadDatasources. rewrite readLocalDatasources_spec. unfold firestoreSources.
  destruct docs as [[|doc documents]|].
  - cbn [map keep_some]. destruct (localSources file); reflexivity.
  - destruct (keep_some _) as [|s sources]; destruct (localSources file); reflexivity.
  - destruct (localSources file); reflexivity.
Qed.

Lemma loadDatasources_wellFormed (docs : option (list (string * RawDatasource)))
    (file : option (list RawDatasource)) :
  Forall wellFormedSource (fst (loadDatasources localeCompare docs file)).
Proof.
  rewrite loadDatasources_cases.
  pose proof (firestoreSources_wellFormed docs) as Wf.
  pose proof (localSources_wellFormed file) as Wl.
  assert (S : forall l, Forall wellFormedSource l ->
                        Forall wellFormedSource (sortDatasources localeCompare l)).
  { intros l H. apply Forall_forall. intros s Hs. apply (proj1 (sortDatasources_In _ _)) in Hs.
    rewrite Forall_forall in H. now apply H. }
  destruct (firestoreSources docs) as [|f stored];
    destruct (localSources file) as [|l locals]; cbv beta iota zeta;
    auto using defaults_wellFormed.
  apply S. apply Forall_forall. intros s Hs.
  destruct (mergeLocal_fold (l :: locals) (f :: stored)) as (_ & _ & C).
  rewrite Forall_forall in Wf, Wl. destruct (C s Hs) as [H|[H _]]; auto.
Qed.

(** X23. The list of datasources is never empty and every datasource in
    it has a normalised, non-empty id, a name and a type.  When the
    collection yields datasources, each of them is in the list, every id
    of the local file is served by some datasource of the list, and a
    local datasource is listed only if no datasource of the collection
    has its id; when it yields none, the list holds the local
    datasources, and the four built-in ones when there are none
    either. *)
Theorem datasources_loaded (docs : option (list (string * RawDatasource)))
    (file : option (list RawDatasource)) :
  let sources := fst (loadDatasources localeCompare docs file) in
  let stored := firestoreSources docs in
  let locals := localSources file in
  sources <> []
  /\ Forall wellFormedSource sources
  /\ (stored <> [] ->
      incl stored sources
      /\ (forall l, In l locals -> exists s, In s sources /\ ds_id s = ds_id l)
      /\ (forall s, In s sources ->
                    In s stored
                    \/ (In s locals /\ forall f, In f stored -> ds_id f <> ds_id s)))
  /\ (stored = [] -> locals <> [] -> Permutation locals sources)
  /\ (stored = [] -> locals = [] -> sources = buildDefaultDatasources).
Proof.
  cbv zeta. rewrite loadDatasources_cases.
  pose proof (firestoreSources_wellFormed docs) as Wf.
  pose proof (localSources_wellFormed file) as Wl.
  destruct (firestoreSources docs) as [|f stored] eqn:Ef;
    destruct (localSources file) as [|l locals] eqn:El; cbv beta iota zeta.
  - split; [discriminate|]. split; [apply defaults_wellFormed|].
    split; [congruence|]. split; [congruence|]. reflexivity.
  - assert (P : Permutation (l :: locals) (sortDatasources localeCompare (l :: locals)))
      by apply js_sort_perm.
    split; [intros E; rewrite E in P; apply Permutation_sym in P;
            now apply Permutation_nil_cons in P|].
    split; [|split; [congruence|split; [auto|congruence]]].
    apply Forall_forall. intros s Hs. apply (proj1 (sortDatasources_In _ _)) in Hs.
    rewrite Forall_forall in Wl. now apply Wl.
  - assert (P : Permutation (f :: stored) (sortDatasources localeCompare (f :: stored)))
      by apply js_sort_perm.
    split; [intros E; rewrite E in P; apply Permutation_sym in P;
            now apply Permutation_nil_cons in P|].
    split; [|split; [|split; congruence]].
    + apply Forall_forall. intros s Hs. apply (proj1 (sortDatasources_In _ _)) in Hs.
      rewrite Forall_forall in Wf. now apply Wf.
    + intros _. split; [|split].
      * intros s Hs. now apply (proj2 (sortDatasources_In _ _)).
      * intros l' [].
      * intros s Hs. apply (proj1 (sortDatasources_In _ _)) in Hs. now left.
  - destruct (mergeLocal_fold (l :: locals) (f :: stored)) as (A & B & C). cbv zeta in A, B, C.
    set (merged := fold_left mergeLocal (l :: locals) (f :: stored)) in *.
    assert (P : Permutation merged (sortDatasources localeCompare merged))
      by apply js_sort_perm.
    split; [|split; [|split; [|split; congruence]]].
    + intros E. rewrite E in P. apply Permutation_sym, Permutation_nil in P.
      assert (In f merged) by (apply A; now left). rewrite P in H. contradiction.
    + apply Forall_forall. intros s Hs. apply (proj1 (sortDatasources_In _ _)) in Hs.
      rewrite Forall_forall in Wf, Wl.
      destruct (C s Hs) as [H|[H _]]; auto.
    + intros _. split; [|split].
      * intros s Hs. apply (proj2 (sortDatasources_In _ _)). now apply A.
      * intros l' Hl'. destruct (B l' Hl') as (s & Hs & He).
        exists s. split; [now apply (proj2 (sortDatasources_In _ _))|exact He].
      * intros s Hs. apply (proj1 (sortDatasources_In _ _)) in Hs. now apply C.
Qed.

(** X24. Looking a listed datasource up by its own id, when the id does
    not end in a hyphen, returns the first listed datasource with that
    id: [getDatasourceById] normalises the id it is given once more,
    which leaves such an id as it is, and takes the first match.  When
    the listed ids are distinct this is the datasource itself. *)
Theorem datasource_found_by_id (docs : option (list (string * RawDatasource)))
    (file : option (list RawDatasource)) (source : Datasource) :
  let listed := fst (loadDatasources localeCompare docs file) in
  In source listed ->
  ends_with is_hyphen (ds_id source) = false ->
  (exists found before after,
     getDatasourceById localeCompare docs file (Some (ds_id source)) = Some found
     /\ listed = before ++ found :: after
     /\ ds_id found = ds_id source
     /\ Forall (fun other => ds_id other <> ds_id source) before)
  /\ (NoDup (map ds_id listed) ->
      getDatasourceById localeCompare docs file (Some (ds_id source)) = Some source).
Proof.
  intros listed Hin He.
  pose proof (loadDatasources_wellFormed docs file) as W.
  rewrite Forall_forall in W. destruct (W source Hin) as (Hid & Hshape & _).
  unfold getDatasourceById.
  rewrite (normalizeDatasourceId_fixed _ Hshape He).
  apply non_empty_true in Hid. rewrite Hid. cbn [negb].
  fold listed.
  destruct (find _ listed) as [found|] eqn:F.
  - destruct (find_split _ _ _ F) as (before & after & Hl & Hb & Hq).
    apply String.eqb_eq in Hq. split.
    + exists found, before, after. repeat split; auto.
      apply Forall_impl with (2 := Hb). intros other Ho E.
      rewrite E, String.eqb_refl in Ho. discriminate.
    + intros ND. f_equal.
      apply (NoDup_map_same ds_id listed); auto.
      rewrite Hl. apply in_or_app. right. left. reflexivity.
  - exfalso. apply (find_none _ _ F source) in Hin.
    now rewrite String.eqb_refl in Hin.
Qed.
End DatasourceFacts.

Lemma datasources_loaded_witness :
  exists s,
    In s (fst (loadDatasources String.compare DatasourceSamples.docs DatasourceSamples.file))
    /\ ds_id s = "black-cat"%string.
Proof.
  destruct (datasources_loaded String.compare DatasourceSamples.docs DatasourceSamples.file)
    as (_ & _ & H & _).
  destruct H as (_ & B & _); [vm_compute; discriminate|].
  destruct (B (mkDatasource "black-cat" "black-cat" "ical" false EmptyString 0)) as (s & Hs & He).
  - vm_compute. auto.
  - exists s. split; [exact Hs|exact He].
Defined.

Lemma datasource_found_by_id_witness :
  getDatasourceById String.compare DatasourceSamples.docs DatasourceSamples.file
    (Some "smithsonian-events"%string)
  = Some (mkDatasource "smithsonian-events" "Smithsonian" "rss" true EmptyString 2).
Proof.
  destruct (datasource_found_by_id String.compare DatasourceSamples.docs DatasourceSamples.file
              (mkDatasource "smithsonian-events" "Smithsonian" "rss" true EmptyString 2))
    as (_ & Hsame).
  - vm_compute. auto.
  - reflexivity.
  - apply Hsame. vm_compute.
    repeat constructor; cbn [In]; intuition discriminate.
Defined.

(** Two documents whose ids normalise to the same id are both listed;
    the id finds the first of them only. *)
Lemma datasource_shadowed_by_twin :
  map (fun source => (ds_id source, ds_name source))
      (fst (loadDatasources String.compare DatasourceSamples.twins None))
  = [("foo", "First"); ("foo", "Second")]%string
  /\ option_map ds_name
       (getDatasourceById String.compare DatasourceSamples.twins None (Some "foo"%string))
     = Some "First"%string
  /\ option_map ds_name
       (getDatasourceById String.compare DatasourceSamples.twins None (Some "Foo"%string))
     = Some "First"%string.
Proof. vm_compute. repeat split. Qed.

(** A datasource whose id the cut at 64 characters left ending in a
    hyphen is listed, but is not found by its id. *)
Lemma datasource_lost_by_cut :
  exists source,
    In source (fst (loadDatasources String.compare DatasourceSamples.cut None))
    /\ getDatasourceById String.compare DatasourceSamples.cut None (Some (ds_id source)) = None.
Proof.
  eexists. split; [vm_compute; left; reflexivity|]. vm_compute. reflexivity.
Qed.

(** ** The client's filter *)

Lemma parseInt10_number_string (n : Z) :
  0 <= n <= 150 -> exists q, parseInt10 (number_string n) = Fin q /\ Qfloor q = n.
Proof.
  intros Hn.
  assert (R : reads_back_to 150 = true) by (vm_compute; reflexivity).
  unfold reads_back_to in R. rewrite forallb_forall in R.
  specialize (R (Z.to_nat n)). rewrite Z2Nat.id in R by lia.
  destruct (parseInt10 (number_string n)) as [q| | |];
    try (discriminate R; apply in_seq; lia).
  exists q. split; [reflexivity|].
  assert (H : Qeq_bool q (inject_Z n) && (Qfloor q =? n) = true) by (apply R, in_seq; lia).
  apply andb_true_iff in H. destruct H as [_ H]. now apply Z.eqb_eq.
Qed.

Lemma clampRadius_range (value : option string) : 5 <= Client.clampRadius value <= 150.
Proof.
  unfold Client.clampRadius, Client.DEFAULT_RADIUS_MILES, Client.MIN_RADIUS_MILES,
    Client.MAX_RADIUS_MILES.
  destruct value as [s|]; [|lia]. destruct (parseInt10 s); lia.
Qed.

Lemma client_clampDays_range (value : option string) : 0 <= Client.clampDays value <= 60.
Proof.
  unfold Client.clampDays, Client.DEFAULT_LOOKAHEAD_DAYS, Client.MIN_LOOKAHEAD_DAYS,
    Client.MAX_LOOKAHEAD_DAYS.
  destruct value as [s|]; [|lia]. destruct (parseInt10 s); lia.
Qed.

Lemma clampRadius_again (value : option string) :
  Client.clampRadius (Some (number_string (Client.clampRadius value)))
  = Client.clampRadius value.
Proof.
  pose proof (clampRadius_range value) as R.
  destruct (parseInt10_number_string (Client.clampRadius value)) as (q & E & F); [lia|].
  unfold Client.clampRadius at 1. rewrite E, F.
  unfold Client.MIN_RADIUS_MILES, Client.MAX_RADIUS_MILES. lia.
Qed.

Lemma client_clampDays_again (value : option string) :
  Client.clampDays (Some (number_string (Client.clampDays value)))
  = Client.clampDays value.
Proof.
  pose proof (client_clampDays_range value) as R.
  destruct (parseInt10_number_string (Client.clampDays value)) as (q & E & F); [lia|].
  unfold Client.clampDays at 1. rewrite E, F.
  unfold Client.MIN_LOOKAHEAD_DAYS, Client.MAX_LOOKAHEAD_DAYS. lia.
Qed.

Lemma filter_filter_absorb {A : Type} (p q : A -> bool) (l : list A) :
  (forall x, p x = true -> q x = true) ->
  filter p (filter q l) = filter p l.
Proof.
  intros H. induction l as [|x r IH]; [reflexivity|].
  cbn [filter]. destruct (q x) eqn:Q; cbn [filter].
  - now rewrite IH.
  - rewrite IH. destruct (p x) eqn:Px; [|reflexivity].
    apply H in Px. congruence.
Qed.

Section ClientFacts.
Context {P : Platform}.

Lemma getEventStartTimestamp_resolved (event : Event) :
  Client.getEventStartTimestamp event = resolvedTime event.
Proof.
  unfold Client.getEventStartTimestamp, resolvedTime, first_truthy, truthy.
  destruct (ev_start event) as [st|]; [|reflexivity].
  destruct (st_utc st) as [u|], (st_local st) as [l|]; try reflexivity;
    destruct (non_empty u) eqn:U; try reflexivity.
  all: try (rewrite U; reflexivity).
Qed.

(** X25. The filter of the shows panel.  The client filters by the
    instant the server sorts by; clamping a radius or a number of days
    that is already clamped changes nothing, so the filter gives the
    same events for the clamped preferences as for the raw ones; and
    narrowing the preferences over events that were filtered by wider
    ones gives the events the narrow preferences give on the whole
    list. *)
Theorem client_filter_narrowing (today : Z) (events : list Event)
    (radius days wideRadius wideDays : option string) :
  Client.clampRadius radius <= Client.clampRadius wideRadius ->
  Client.clampDays days <= Client.clampDays wideDays ->
  (forall event, Client.getEventStartTimestamp event = resolvedTime event)
  /\ Client.filterEventsByPreferences today events
       (Some (number_string (Client.clampRadius radius)))
       (Some (number_string (Client.clampDays days)))
     = Client.filterEventsByPreferences today events radius days
  /\ Client.filterEventsByPreferences today
       (Client.filterEventsByPreferences today events wideRadius wideDays) radius days
     = Client.filterEventsByPreferences today events radius days
  /\ incl (Client.filterEventsByPreferences today events radius days)
          (Client.filterEventsByPreferences today events wideRadius wideDays).
Proof.
  intros Hr Hd.
  assert (K : forall x,
    (if match Client.getEventStartTimestamp x with
        | Some timestamp =>
            today + (Client.clampDays days + 1) * Client.MS_PER_DAY - 1 <? timestamp
        | None => false
        end
     then false
     else if match ev_distance x with
             | Some distance =>
                 if Qlt_le_dec (inject_Z (Client.clampRadius radius)) distance
                 then true else false
             | None => false
             end
          then false else true) = true ->
    (if match Client.getEventStartTimestamp x with
        | Some timestamp =>
            today + (Client.clampDays wideDays + 1) * Client.MS_PER_DAY - 1 <? timestamp
        | None => false
        end
     then false
     else if match ev_distance x with
             | Some distance =>
                 if Qlt_le_dec (inject_Z (Client.clampRadius wideRadius)) distance
                 then true else false
             | None => false
             end
          then false else true) = true).
  { intros x. unfold Client.MS_PER_DAY.
    destruct (Client.getEventStartTimestamp x) as [t|].
    - destruct (Z.ltb_spec (today + (Client.clampDays days + 1) * (24 * 60 * 60 * 1000) - 1) t);
        [discriminate|].
      destruct (Z.ltb_spec (today + (Client.clampDays wideDays + 1) * (24 * 60 * 60 * 1000) - 1) t);
        [lia|].
      destruct (ev_distance x) as [dist|]; [|auto].
      destruct (Qlt_le_dec (inject_Z (Client.clampRadius radius)) dist); [discriminate|].
      destruct (Qlt_le_dec (inject_Z (Client.clampRadius wideRadius)) dist) as [L|L]; [|auto].
      exfalso. apply (Qlt_not_le _ _ L). apply (Qle_trans _ (inject_Z (Client.clampRadius radius))); [exact q|].
      rewrite <- Zle_Qle. exact Hr.
    - destruct (ev_distance x) as [dist|]; [|auto].
      destruct (Qlt_le_dec (inject_Z (Client.clampRadius radius)) dist); [discriminate|].
      destruct (Qlt_le_dec (inject_Z (Client.clampRadius wideRadius)) dist) as [L|L]; [|auto].
      exfalso. apply (Qlt_not_le _ _ L). apply (Qle_trans _ (inject_Z (Client.clampRadius radius))); [exact q|].
      rewrite <- Zle_Qle. exact Hr. }
  split; [exact getEventStartTimestamp_resolved|]. split; [|split].
  - unfold Client.filterEventsByPreferences.
    now rewrite clampRadius_again, client_clampDays_again.
  - unfold Client.filterEventsByPreferences. cbv zeta. now apply filter_filter_absorb.
  - unfold Client.filterEventsByPreferences. cbv zeta. intros x Hx.
    apply filter_In in Hx. destruct Hx as [Hi Hp].
    apply filter_In. split; [exact Hi|]. now apply K.
Qed.
End ClientFacts.

Lemma client_filter_narrowing_witness :
  Client.filterEventsByPreferences (P := Reference.platform) 1704153600000
    (Client.filterEventsByPreferences (P := Reference.platform) 1704153600000
       [RouteSamples.a1; RouteSamples.a2] (Some "50"%string) (Some "30"%string))
    (Some "10"%string) (Some "3"%string)
  = Client.filterEventsByPreferences (P := Reference.platform) 1704153600000
      [RouteSamples.a1; RouteSamples.a2] (Some "10"%string) (Some "3"%string).
Proof.
  destruct (client_filter_narrowing (P := Reference.platform) 1704153600000
              [RouteSamples.a1; RouteSamples.a2]
              (Some "10"%string) (Some "3"%string) (Some "50"%string) (Some "30"%string))
    as (_ & _ & H & _).
  - vm_compute. discriminate.
  - vm_compute. discriminate.
  - exact H.
Defined.
